(** * BP-AGI core: a shallow embedding of the spiking engine

    The development follows the C++ sources of the repository:
    - [types.hpp]      integer types, bounds, [Neuromodulators]
    - [neuron.hpp]     [Neuron] (leaky integrate-and-fire primitives)
    - [synapse.cpp]    [Synapse] (STDP, eligibility trace, reward)
    - [spike_queue.hpp] [SpikeQueue]
    - [network.cpp]    [Network] (the tick cycle, Razor, reward, resets)
    - [brain.cpp]      [Brain] (noise injection, the bus pattern, the
                       allocation tracking of [Brain::step])
    - [cortical_column.cpp] [CorticalColumn]
    - [uks.cpp]        [UKS] (construction, recognition, novelty, one-shot
                       allocation, reset)
    - [motor.cpp]      [MotorSystem]

    Conventions.  Fixed-width integers are values of [Z]; every place where
    the C++ narrows a result to a fixed width is written out with [int8],
    [int32], [uint16] or [uint32].  Neuron ids and container indices are
    [nat].  Ticks ([int64_t]) are unbounded [Z]: 2^63 ticks are out of reach.
    Integer division is C++ division (truncation), [Z.quot]; [%] is [Z.rem]. *)

From Stdlib Require Import ZArith Lia.
From stdpp Require Import base numbers option list gmap sorting.

Local Open Scope Z_scope.
Set Warnings "-clear-no-such-hyp".

(** ** Fixed-width integers *)

(** Two's-complement value of [x] narrowed to [w] bits. *)
Definition wrap_signed (w : Z) (x : Z) : Z :=
  (x + 2 ^ (w - 1)) mod 2 ^ w - 2 ^ (w - 1).

Definition int8 (x : Z) : Z := wrap_signed 8 x.
Definition int32 (x : Z) : Z := wrap_signed 32 x.
Definition uint16 (n : nat) : nat := Z.to_nat (Z.of_nat n mod 65536).
Definition uint32 (x : Z) : Z := x mod 2 ^ 32.

(** [std::clamp(v, lo, hi)]. *)
Definition std_clamp (v lo hi : Z) : Z :=
  if v <? lo then lo else if hi <? v then hi else v.

(** ** types.hpp: constants *)

Definition WEIGHT_MIN : Z := -16.
Definition WEIGHT_MAX : Z := 16.
Definition CHARGE_MIN : Z := 0.
Definition STDP_WINDOW : Z := 20.

(** ** types.hpp: the chemical layer *)

Module Neuromodulators.

Record t := mk {
  dopamine : Z;        (* int8_t *)
  norepinephrine : Z;  (* int8_t *)
  serotonin : Z;       (* int8_t *)
  acetylcholine : Z    (* int8_t *)
}.

(** Default constructor: the baseline "awake and calm" state. *)
Definition init : t := mk 50 30 50 50.

(** One channel of [decay()]: one step toward [base].  The guards keep
    the [int8_t] increment and decrement within range. *)
Definition decay1 (base v : Z) : Z :=
  if v >? base then v - 1 else if v <? base then v + 1 else v.

Definition decay (c : t) : t :=
  mk (decay1 50 (dopamine c)) (decay1 30 (norepinephrine c))
     (decay1 50 (serotonin c)) (decay1 50 (acetylcholine c)).

(** The lambda [clampVal] of [clamp()]: two successive tests. *)
Definition clampVal (v : Z) : Z :=
  let v1 := if v <? 0 then 0 else v in
  if v1 >? 100 then 100 else v1.

Definition clamp (c : t) : t :=
  mk (clampVal (dopamine c)) (clampVal (norepinephrine c))
     (clampVal (serotonin c)) (clampVal (acetylcholine c)).

(** [x += amount] on an [int8_t] field: the sum is computed in [int] and
    narrowed back to eight bits before [clamp()] sees it. *)
Definition spikeDopamine (amount : Z) (c : t) : t :=
  clamp (mk (int8 (dopamine c + amount)) (norepinephrine c)
            (serotonin c) (acetylcholine c)).
Definition spikeNorepinephrine (amount : Z) (c : t) : t :=
  clamp (mk (dopamine c) (int8 (norepinephrine c + amount))
            (serotonin c) (acetylcholine c)).
Definition spikeSerotonin (amount : Z) (c : t) : t :=
  clamp (mk (dopamine c) (norepinephrine c)
            (int8 (serotonin c + amount)) (acetylcholine c)).
Definition spikeAcetylcholine (amount : Z) (c : t) : t :=
  clamp (mk (dopamine c) (norepinephrine c)
            (serotonin c) (int8 (acetylcholine c + amount))).

(** The documented range of every channel. *)
Definition in_range (c : t) : Prop :=
  0 <= dopamine c <= 100 /\ 0 <= norepinephrine c <= 100 /\
  0 <= serotonin c <= 100 /\ 0 <= acetylcholine c <= 100.

End Neuromodulators.

(** ** synapse.hpp / synapse.cpp *)

Definition ELIGIBILITY_MAX : Z := 100.
Definition ELIGIBILITY_DECAY : Z := 1.
Definition REWARD_SCALE_FACTOR : Z := 50.

(** [calculateSTDPDelta(deltaT)]. *)
Definition calculateSTDPDelta (deltaT : Z) : Z :=
  if deltaT =? 0 then 0
  else
    let absDelta := Z.abs deltaT in
    if absDelta >? STDP_WINDOW then 0
    else
      let magnitude := int32 ((2 * (STDP_WINDOW - absDelta)) ÷ STDP_WINDOW) in
      if deltaT >? 0 then int8 magnitude else int8 (- magnitude).

Module Synapse.

Record t := mk {
  targetNeuronIndex : nat;  (* NeuronId *)
  weight : Z;               (* Weight = int8_t *)
  isHebbian : bool;
  eligibilityTrace : Z      (* int8_t *)
}.

Definition clampWeight (s : t) : t :=
  mk (targetNeuronIndex s) (std_clamp (weight s) WEIGHT_MIN WEIGHT_MAX)
     (isHebbian s) (eligibilityTrace s).

(** [Synapse(target, w, plastic)]. *)
Definition make (target : nat) (w : Z) (plastic : bool) : t :=
  clampWeight (mk target w plastic 0).

Definition markEligible (preFired postFired : Z) (s : t) : t :=
  if negb (isHebbian s) then s
  else
    let deltaT := postFired - preFired in
    if (deltaT >? 0) && (deltaT <=? STDP_WINDOW)
    then mk (targetNeuronIndex s) (weight s) (isHebbian s) ELIGIBILITY_MAX
    else s.

Definition updateWeight (preFired postFired : Z) (s : t) : t :=
  if negb (isHebbian s) then s
  else
    let delta := calculateSTDPDelta (postFired - preFired) in
    clampWeight (mk (targetNeuronIndex s) (int8 (weight s + delta))
                    (isHebbian s) (eligibilityTrace s)).

Definition decayEligibility (s : t) : t :=
  if eligibilityTrace s >? 0 then
    let tr := int8 (eligibilityTrace s - ELIGIBILITY_DECAY) in
    mk (targetNeuronIndex s) (weight s) (isHebbian s)
       (if tr <? 0 then 0 else tr)
  else s.

(** [applyReward(rewardAmount)]; the product is an [int32_t]. *)
Definition applyReward (rewardAmount : Z) (s : t) : t :=
  if negb (isHebbian s) || (eligibilityTrace s <=? 0) then s
  else
    let delta :=
      int32 (eligibilityTrace s * rewardAmount) ÷ REWARD_SCALE_FACTOR in
    let s1 := mk (targetNeuronIndex s)
                 (int8 (weight s + int8 (std_clamp delta (-16) 16)))
                 (isHebbian s) (eligibilityTrace s) in
    let s2 := clampWeight s1 in
    mk (targetNeuronIndex s2) (weight s2) (isHebbian s2) 0.

(** The representation invariant every constructor and method keeps. *)
Definition wf (s : t) : Prop :=
  WEIGHT_MIN <= weight s <= WEIGHT_MAX /\
  0 <= eligibilityTrace s <= ELIGIBILITY_MAX.

End Synapse.

(** ** neuron.hpp *)

Module Neuron.

Record t := mk {
  currentCharge : Z;     (* Charge = int32_t *)
  leakRate : Z;          (* Charge *)
  threshold : Z;         (* Charge *)
  lastFiredStep : Z;     (* Tick = int64_t *)
  refractoryDelay : Z;   (* int32_t *)
  synapseListIndex : nat;  (* uint32_t *)
  synapseCount : nat       (* uint16_t *)
}.

(** [Neuron(thresh, leak, refractory)]. *)
Definition make (thresh leak refractory : Z) : t :=
  mk 0 leak thresh (int32 (- refractory - 1)) refractory 0 0.

Definition set_charge (v : Z) (n : t) : t :=
  mk v (leakRate n) (threshold n) (lastFiredStep n) (refractoryDelay n)
     (synapseListIndex n) (synapseCount n).

Definition set_lastFired (tk : Z) (n : t) : t :=
  mk (currentCharge n) (leakRate n) (threshold n) tk (refractoryDelay n)
     (synapseListIndex n) (synapseCount n).

Definition isRefractory (currentTick : Z) (n : t) : bool :=
  currentTick - lastFiredStep n <=? refractoryDelay n.

(** [V_m = max(CHARGE_MIN, V_m - L)]. *)
Definition applyLeak (n : t) : t :=
  set_charge (Z.max CHARGE_MIN (int32 (currentCharge n - leakRate n))) n.

Definition addCharge (amount : Z) (n : t) : t :=
  set_charge (int32 (currentCharge n + amount)) n.

(** [checkAndFire]: the neuron-level firing primitive (returns the flag). *)
Definition checkAndFire (currentTick : Z) (n : t) : t * bool :=
  if isRefractory currentTick n then (n, false)
  else
    let n1 := if currentCharge n <? CHARGE_MIN
              then set_charge CHARGE_MIN n else n in
    if currentCharge n1 >=? threshold n1
    then (set_lastFired currentTick (set_charge 0 n1), true)
    else (n1, false).

Definition reset (n : t) : t :=
  set_lastFired (int32 (- refractoryDelay n - 1)) (set_charge 0 n).

End Neuron.

(** ** spike_queue.hpp *)

Module SpikeQueue.

Record SpikeEvent := mkEvent { neuronId : nat; tick : Z }.

(** [queue_] is a min-heap on [tick]; it is kept here as the list of its
    events in insertion order, [top] being the oldest event of minimal
    tick. *)
Record t := mk {
  queue_ : list SpikeEvent;
  currentFired_ : list nat;
  currentTick_ : Z
}.

Definition empty_queue : t := mk [] [] 0.

Definition addSpike (neuron : nat) (tk : Z) (q : t) : t :=
  mk (queue_ q ++ [mkEvent neuron tk])
     (if tk =? currentTick_ q then currentFired_ q ++ [neuron]
      else currentFired_ q)
     (currentTick_ q).

Fixpoint min_tick (l : list SpikeEvent) : option Z :=
  match l with
  | [] => None
  | e :: r => match min_tick r with
              | None => Some (tick e)
              | Some m => Some (Z.min (tick e) m)
              end
  end.

(** Remove the first event whose tick is [m]. *)
Fixpoint remove_first (m : Z) (l : list SpikeEvent) : list SpikeEvent :=
  match l with
  | [] => []
  | e :: r => if tick e =? m then r else e :: remove_first m r
  end.

Definition top (l : list SpikeEvent) : option SpikeEvent :=
  match min_tick l with
  | None => None
  | Some m => List.find (fun e => tick e =? m) l
  end.

Definition pop (l : list SpikeEvent) : list SpikeEvent :=
  match min_tick l with
  | None => l
  | Some m => remove_first m l
  end.

(** The loop of [getSpikesForTick]; every iteration pops one event, so
    [length l] iterations are enough. *)
Fixpoint getSpikesLoop (fuel : nat) (tk : Z) (l : list SpikeEvent)
  : list nat * list SpikeEvent :=
  match fuel with
  | O => ([], l)
  | S fuel' =>
      match top l with
      | Some e =>
          if tick e =? tk then
            let '(ids, l') := getSpikesLoop fuel' tk (pop l) in
            (neuronId e :: ids, l')
          else ([], l)
      | None => ([], l)
      end
  end.

Definition getSpikesForTick (tk : Z) (q : t) : list nat * t :=
  let '(ids, l') := getSpikesLoop (length (queue_ q)) tk (queue_ q) in
  (ids, mk l' (currentFired_ q) (currentTick_ q)).

Definition clear (q : t) : t := mk [] [] 0.

Definition advanceTick (newTick : Z) (q : t) : t :=
  mk (queue_ q) [] newTick.

Definition empty (q : t) : bool :=
  match queue_ q with [] => true | _ => false end.

(** *** The remaining queries *)

(** [INVALID_NEURON], the largest [uint32_t]. *)
Definition INVALID_NEURON : nat := Z.to_nat (2 ^ 32 - 1).

Definition hasSpikesForTick (tk : Z) (q : t) : bool :=
  match top (queue_ q) with
  | Some e => tick e =? tk
  | None => false
  end.

Definition popSpike (q : t) : nat * t :=
  match top (queue_ q) with
  | None => (INVALID_NEURON, q)
  | Some e => (neuronId e, mk (pop (queue_ q)) (currentFired_ q) (currentTick_ q))
  end.

Definition peekNextTick (q : t) : Z :=
  match top (queue_ q) with
  | None => -1
  | Some e => tick e
  end.

Definition size (q : t) : nat := length (queue_ q).

Definition getCurrentFired (q : t) : list nat := currentFired_ q.

End SpikeQueue.

(** ** What the build supplies

    [std::nth_element] is not code of the repository.  It is taken as a
    parameter together with the postcondition the C++ standard gives it for
    the comparator of [firingPhase] (descending by charge, the id is not
    compared): the result is a rearrangement of the range, and no element
    placed at or after position [k] has a larger charge than an element
    placed before it.  How equal charges are ordered is left open.

    [openmpThreads] is [None] for a build without OpenMP and [Some T] for an
    OpenMP build running T threads ([omp_get_max_threads()]). *)

Record Build := mkBuild {
  nth_element : nat -> list (Z * nat) -> list (Z * nat);
  nth_element_perm : forall k l, nth_element k l ≡ₚ l;
  nth_element_part : forall k l i j a b,
    (i < k)%nat -> (k <= j)%nat ->
    nth_element k l !! i = Some a -> nth_element k l !! j = Some b ->
    b.1 <= a.1;
  openmpThreads : option nat
}.

(** ** network.hpp / network.cpp *)

Module Network.

Record t := mk {
  currentTick_ : Z;
  plasticityEnabled_ : bool;
  operantMode_ : bool;
  razorEnabled_ : bool;
  maxSpikesPerTick_ : nat;
  lastCandidateCount_ : nat;
  chemicals_ : Neuromodulators.t;
  neurons_ : list Neuron.t;
  synapses_ : list Synapse.t;
  dynamicSynapses_ : gmap nat (list Synapse.t);
  spikeQueue_ : SpikeQueue.t;
  firedThisTick_ : gset nat;
  firedLastTick_ : gset nat;
  refractoryBits_ : list Z
}.

Definition set_currentTick (x : Z) (net : t) : t :=
  mk x (plasticityEnabled_ net) (operantMode_ net) (razorEnabled_ net)
     (maxSpikesPerTick_ net) (lastCandidateCount_ net) (chemicals_ net)
     (neurons_ net) (synapses_ net) (dynamicSynapses_ net) (spikeQueue_ net)
     (firedThisTick_ net) (firedLastTick_ net) (refractoryBits_ net).
Definition set_plasticityEnabled (x : bool) (net : t) : t :=
  mk (currentTick_ net) x (operantMode_ net) (razorEnabled_ net)
     (maxSpikesPerTick_ net) (lastCandidateCount_ net) (chemicals_ net)
     (neurons_ net) (synapses_ net) (dynamicSynapses_ net) (spikeQueue_ net)
     (firedThisTick_ net) (firedLastTick_ net) (refractoryBits_ net).
Definition set_operantMode (x : bool) (net : t) : t :=
  mk (currentTick_ net) (plasticityEnabled_ net) x (razorEnabled_ net)
     (maxSpikesPerTick_ net) (lastCandidateCount_ net) (chemicals_ net)
     (neurons_ net) (synapses_ net) (dynamicSynapses_ net) (spikeQueue_ net)
     (firedThisTick_ net) (firedLastTick_ net) (refractoryBits_ net).
Definition set_razorEnabled (x : bool) (net : t) : t :=
  mk (currentTick_ net) (plasticityEnabled_ net) (operantMode_ net) x
     (maxSpikesPerTick_ net) (lastCandidateCount_ net) (chemicals_ net)
     (neurons_ net) (synapses_ net) (dynamicSynapses_ net) (spikeQueue_ net)
     (firedThisTick_ net) (firedLastTick_ net) (refractoryBits_ net).
Definition set_maxSpikesPerTick (x : nat) (net : t) : t :=
  mk (currentTick_ net) (plasticityEnabled_ net) (operantMode_ net)
     (razorEnabled_ net) x (lastCandidateCount_ net) (chemicals_ net)
     (neurons_ net) (synapses_ net) (dynamicSynapses_ net) (spikeQueue_ net)
     (firedThisTick_ net) (firedLastTick_ net) (refractoryBits_ net).
Definition set_lastCandidateCount (x : nat) (net : t) : t :=
  mk (currentTick_ net) (plasticityEnabled_ net) (operantMode_ net)
     (razorEnabled_ net) (maxSpikesPerTick_ net) x (chemicals_ net)
     (neurons_ net) (synapses_ net) (dynamicSynapses_ net) (spikeQueue_ net)
     (firedThisTick_ net) (firedLastTick_ net) (refractoryBits_ net).
Definition set_chemicals (x : Neuromodulators.t) (net : t) : t :=
  mk (currentTick_ net) (plasticityEnabled_ net) (operantMode_ net)
     (razorEnabled_ net) (maxSpikesPerTick_ net) (lastCandidateCount_ net) x
     (neurons_ net) (synapses_ net) (dynamicSynapses_ net) (spikeQueue_ net)
     (firedThisTick_ net) (firedLastTick_ net) (refractoryBits_ net).
Definition set_neurons (x : list Neuron.t) (net : t) : t :=
  mk (currentTick_ net) (plasticityEnabled_ net) (operantMode_ net)
     (razorEnabled_ net) (maxSpikesPerTick_ net) (lastCandidateCount_ net)
     (chemicals_ net) x (synapses_ net) (dynamicSynapses_ net)
     (spikeQueue_ net) (firedThisTick_ net) (firedLastTick_ net)
     (refractoryBits_ net).
Definition set_synapses (x : list Synapse.t) (net : t) : t :=
  mk (currentTick_ net) (plasticityEnabled_ net) (operantMode_ net)
     (razorEnabled_ net) (maxSpikesPerTick_ net) (lastCandidateCount_ net)
     (chemicals_ net) (neurons_ net) x (dynamicSynapses_ net)
     (spikeQueue_ net) (firedThisTick_ net) (firedLastTick_ net)
     (refractoryBits_ net).
Definition set_dynamicSynapses (x : gmap nat (list Synapse.t)) (net : t) : t :=
  mk (currentTick_ net) (plasticityEnabled_ net) (operantMode_ net)
     (razorEnabled_ net) (maxSpikesPerTick_ net) (lastCandidateCount_ net)
     (chemicals_ net) (neurons_ net) (synapses_ net) x (spikeQueue_ net)
     (firedThisTick_ net) (firedLastTick_ net) (refractoryBits_ net).
Definition set_spikeQueue (x : SpikeQueue.t) (net : t) : t :=
  mk (currentTick_ net) (plasticityEnabled_ net) (operantMode_ net)
     (razorEnabled_ net) (maxSpikesPerTick_ net) (lastCandidateCount_ net)
     (chemicals_ net) (neurons_ net) (synapses_ net) (dynamicSynapses_ net) x
     (firedThisTick_ net) (firedLastTick_ net) (refractoryBits_ net).
Definition set_firedThisTick (x : gset nat) (net : t) : t :=
  mk (currentTick_ net) (plasticityEnabled_ net) (operantMode_ net)
     (razorEnabled_ net) (maxSpikesPerTick_ net) (lastCandidateCount_ net)
     (chemicals_ net) (neurons_ net) (synapses_ net) (dynamicSynapses_ net)
     (spikeQueue_ net) x (firedLastTick_ net) (refractoryBits_ net).
Definition set_firedLastTick (x : gset nat) (net : t) : t :=
  mk (currentTick_ net) (plasticityEnabled_ net) (operantMode_ net)
     (razorEnabled_ net) (maxSpikesPerTick_ net) (lastCandidateCount_ net)
     (chemicals_ net) (neurons_ net) (synapses_ net) (dynamicSynapses_ net)
     (spikeQueue_ net) (firedThisTick_ net) x (refractoryBits_ net).
Definition set_refractoryBits (x : list Z) (net : t) : t :=
  mk (currentTick_ net) (plasticityEnabled_ net) (operantMode_ net)
     (razorEnabled_ net) (maxSpikesPerTick_ net) (lastCandidateCount_ net)
     (chemicals_ net) (neurons_ net) (synapses_ net) (dynamicSynapses_ net)
     (spikeQueue_ net) (firedThisTick_ net) (firedLastTick_ net) x.

(** [Network(numNeurons, maxSynapses)]; the capacities only reserve
    storage, except for the refractory bitset which is sized from them. *)
Definition make (numNeurons : nat) : t :=
  mk 0 true false true 5000%nat 0%nat Neuromodulators.init [] [] ∅
     SpikeQueue.empty_queue ∅ ∅
     (replicate ((numNeurons + 63) / 64)%nat 0).

(** *** Refractory bitset: bit [id & 63] of word [id >> 6] *)

Definition bit_mask (id : nat) : Z := Z.shiftl 1 (Z.of_nat (id mod 64)).

Definition set_bit (id : nat) (bits : list Z) : list Z :=
  alter (fun w => Z.lor w (bit_mask id)) (id / 64)%nat bits.

Definition isRefractoryFast (bits : list Z) (id : nat) : bool :=
  match bits !! (id / 64)%nat with
  | Some w => negb (Z.land w (bit_mask id) =? 0)
  | None => false
  end.

Fixpoint markRefractory (tk : Z) (id : nat) (ns : list Neuron.t)
  (bits : list Z) : list Z :=
  match ns with
  | [] => bits
  | n :: rest =>
      markRefractory tk (S id) rest
        (if Neuron.isRefractory tk n then set_bit id bits else bits)
  end.

Definition updateRefractoryBits (net : t) : t :=
  set_refractoryBits
    (markRefractory (currentTick_ net) 0 (neurons_ net)
       (const 0 <$> refractoryBits_ net)) net.

(** *** Construction *)

Definition addNeuron (thresh leak refractory : Z) (net : t) : nat * t :=
  let id := length (neurons_ net) in
  let ns := neurons_ net ++ [Neuron.make thresh leak refractory] in
  let requiredWords := ((length ns + 63) / 64)%nat in
  let bits := refractoryBits_ net in
  let bits' := if (length bits <? requiredWords)%nat
               then bits ++ replicate (requiredWords - length bits) 0
               else bits in
  (id, set_refractoryBits bits' (set_neurons ns net)).

Definition connectNeurons (from to : nat) (w : Z) (plastic : bool)
  (net : t) : bool * t :=
  let size := length (neurons_ net) in
  if (size <=? from)%nat || (size <=? to)%nat then (false, net)
  else
    match neurons_ net !! from with
    | None => (false, net)
    | Some sourceNeuron =>
        let count := Neuron.synapseCount sourceNeuron in
        let canAddContiguous :=
          (count =? 0)%nat ||
          (Neuron.synapseListIndex sourceNeuron + count
             =? length (synapses_ net))%nat in
        if canAddContiguous then
          let idx := if (count =? 0)%nat
                     then Z.to_nat (uint32 (Z.of_nat (length (synapses_ net))))
                     else Neuron.synapseListIndex sourceNeuron in
          let source' :=
            Neuron.mk (Neuron.currentCharge sourceNeuron)
              (Neuron.leakRate sourceNeuron) (Neuron.threshold sourceNeuron)
              (Neuron.lastFiredStep sourceNeuron)
              (Neuron.refractoryDelay sourceNeuron)
              idx (uint16 (count + 1)) in
          (true,
           set_synapses (synapses_ net ++ [Synapse.make to w plastic])
             (set_neurons (<[from := source']> (neurons_ net)) net))
        else
          (true,
           set_dynamicSynapses
             (<[from := default [] (dynamicSynapses_ net !! from)
                          ++ [Synapse.make to w plastic]]>
                (dynamicSynapses_ net)) net)
    end.

(** *** External input and probes *)

Definition injectSpike (neuron : nat) (net : t) : t :=
  if (neuron <? length (neurons_ net))%nat then
    set_neurons
      (alter (Neuron.set_lastFired (currentTick_ net)) neuron (neurons_ net))
      (set_firedThisTick ({[neuron]} ∪ firedThisTick_ net)
         (set_spikeQueue
            (SpikeQueue.addSpike neuron (currentTick_ net) (spikeQueue_ net))
            net))
  else net.

Definition injectCharge (neuron : nat) (amount : Z) (net : t) : t :=
  if (neuron <? length (neurons_ net))%nat then
    set_neurons (alter (Neuron.addCharge amount) neuron (neurons_ net)) net
  else net.

Definition didFire (neuron : nat) (net : t) : bool :=
  bool_decide (neuron ∈ firedThisTick_ net).

Definition getCharge (neuron : nat) (net : t) : Z :=
  match neurons_ net !! neuron with
  | Some n => Neuron.currentCharge n
  | None => 0
  end.

(** The contiguous synapses of a pre-neuron:
    [synapses_[synapseListIndex + i]] for [i < synapseCount]. *)
Definition contiguous (pre : Neuron.t) (syns : list Synapse.t)
  : list Synapse.t :=
  take (Neuron.synapseCount pre) (drop (Neuron.synapseListIndex pre) syns).

Definition dynamicOf (id : nat) (dyn : gmap nat (list Synapse.t))
  : list Synapse.t :=
  default [] (dyn !! id).

Definition getSynapseWeight (source target : nat) (net : t) : Z :=
  match neurons_ net !! source with
  | None => 0
  | Some pre =>
      let hit (s : Synapse.t) :=
        (Synapse.targetNeuronIndex s =? target)%nat in
      match List.find hit (contiguous pre (synapses_ net)) with
      | Some s => Synapse.weight s
      | None =>
          match List.find hit (dynamicOf source (dynamicSynapses_ net)) with
          | Some s => Synapse.weight s
          | None => 0
          end
      end
  end.

(** *** Phase 1: leakage *)

Definition leakNeuron (tk serotoninBonus : Z) (n : Neuron.t) : Neuron.t :=
  if Neuron.isRefractory tk n then n
  else
    let n1 := Neuron.applyLeak n in
    if (serotoninBonus >? 0) && (Neuron.currentCharge n1 >? 0) then
      let v := int32 (Neuron.currentCharge n1 - serotoninBonus) in
      Neuron.set_charge (if v <? 0 then 0 else v) n1
    else n1.

Definition leakagePhase (net : t) : t :=
  let serotoninBonus :=
    int8 (Neuromodulators.serotonin (chemicals_ net) ÷ 10) in
  set_neurons
    (leakNeuron (currentTick_ net) serotoninBonus <$> neurons_ net) net.

(** *** Phase 2: integration *)

Definition deliver (bits : list Z) (numNeurons : nat) (ns : list Neuron.t)
  (syn : Synapse.t) : list Neuron.t :=
  let targetId := Synapse.targetNeuronIndex syn in
  if (targetId <? numNeurons)%nat && negb (isRefractoryFast bits targetId)
  then alter (fun n => Neuron.set_charge
                (int32 (Neuron.currentCharge n + Synapse.weight syn)) n)
             targetId ns
  else ns.

Definition integrateSpike (bits : list Z) (syns : list Synapse.t)
  (dyn : gmap nat (list Synapse.t)) (ns : list Neuron.t)
  (firedNeuron : nat) : list Neuron.t :=
  match ns !! firedNeuron with
  | None => ns   (* firedNeuron >= numNeurons: continue *)
  | Some pre =>
      let ns1 := foldl (deliver bits (length ns)) ns (contiguous pre syns) in
      foldl (deliver bits (length ns)) ns1 (dynamicOf firedNeuron dyn)
  end.

Definition integrationPhase (net : t) : t :=
  let '(spikesToProcess, q) :=
    SpikeQueue.getSpikesForTick (currentTick_ net - 1) (spikeQueue_ net) in
  set_neurons
    (foldl (integrateSpike (refractoryBits_ net) (synapses_ net)
              (dynamicSynapses_ net))
       (neurons_ net) spikesToProcess)
    (set_spikeQueue q net).

(** *** Phase 3: firing under the Razor *)

(** One step of the hand-rolled generator,
    [seed * 1103515245 + 12345] in [uint32_t]. *)
Definition lcg (seed : Z) : Z := uint32 (seed * 1103515245 + 12345).

(** [(seed >> 16) & 0xFF) % (2 * A + 1) - A]. *)
Definition noiseOf (seed noiseAmplitude : Z) : Z :=
  Z.rem (Z.land (Z.shiftr seed 16) 255) (2 * noiseAmplitude + 1)
  - noiseAmplitude.

Definition thresholdReduction (net : t) : Z :=
  int8 (Neuromodulators.norepinephrine (chemicals_ net) ÷ 5).

Definition noiseAmplitude (net : t) : Z :=
  int8 (if Neuromodulators.norepinephrine (chemicals_ net) >? 60
        then (Neuromodulators.norepinephrine (chemicals_ net) - 60) ÷ 4
        else 0).

(** [effectiveThreshold] of a non-refractory neuron, given the seed as it
    stands after this neuron's draw. *)
Definition effectiveThreshold (reduction amplitude seed : Z)
  (n : Neuron.t) : Z :=
  let e0 := int32 (Neuron.threshold n - reduction) in
  let e1 := if amplitude >? 0
            then int32 (e0 + noiseOf seed amplitude) else e0 in
  if e1 <? 1 then 1 else e1.

(** The sequential candidate scan (the path taken without OpenMP, and
    below 100000 neurons with it): [noiseSeed] is a local of the phase,
    advanced once per non-refractory neuron when the amplitude is
    positive. *)
Fixpoint collectCandidates (tk reduction amplitude : Z) (id : nat)
  (noiseSeed : Z) (ns : list Neuron.t) : list (Z * nat) :=
  match ns with
  | [] => []
  | n :: rest =>
      if Neuron.isRefractory tk n
      then collectCandidates tk reduction amplitude (S id) noiseSeed rest
      else
        let noiseSeed' :=
          if amplitude >? 0 then lcg noiseSeed else noiseSeed in
        let rest' :=
          collectCandidates tk reduction amplitude (S id) noiseSeed' rest in
        if Neuron.currentCharge n
             >=? effectiveThreshold reduction amplitude noiseSeed' n
        then (Neuron.currentCharge n, id) :: rest'
        else rest'
  end.

Definition sequentialCandidates (net : t) : list (Z * nat) :=
  collectCandidates (currentTick_ net) (thresholdReduction net)
    (noiseAmplitude net) 0
    (uint32 (currentTick_ net * 1103515245 + 12345)) (neurons_ net).

(** The OpenMP candidate scan.  The ids are dealt to the threads in chunks
    of 4096 ([schedule(static, 4096)]); thread [tid] fills its own buffer in
    ascending id order, and every neuron draws its noise from
    [noiseSeed ^ id] advanced once. *)
Fixpoint threadScan (threads tid : nat) (tk reduction amplitude : Z)
  (noiseSeed : Z) (id : nat) (ns : list Neuron.t) : list (Z * nat) :=
  match ns with
  | [] => []
  | n :: rest =>
      let rest' :=
        threadScan threads tid tk reduction amplitude noiseSeed (S id) rest in
      let localSeed := lcg (Z.lxor noiseSeed (uint32 (Z.of_nat id))) in
      if ((id / 4096) mod threads =? tid)%nat
         && negb (Neuron.isRefractory tk n)
         && (Neuron.currentCharge n
               >=? effectiveThreshold reduction amplitude localSeed n)
      then (Neuron.currentCharge n, id) :: rest'
      else rest'
  end.

(** "Merge thread-local candidates": the buffers in thread order. *)
Definition parallelCandidates (threads : nat) (net : t) : list (Z * nat) :=
  mjoin
    ((fun tid =>
        threadScan threads tid (currentTick_ net) (thresholdReduction net)
          (noiseAmplitude net)
          (uint32 (currentTick_ net * 1103515245 + 12345)) 0 (neurons_ net))
       <$> seq 0 threads).

(** "Fire!": the body of the loop over the winners. *)
Definition fire (tk : Z) (net : t) (winner : Z * nat) : t :=
  let id := winner.2 in
  set_firedThisTick ({[id]} ∪ firedThisTick_ net)
    (set_spikeQueue (SpikeQueue.addSpike id tk (spikeQueue_ net))
       (set_neurons
          (alter (fun n => Neuron.set_lastFired tk (Neuron.set_charge 0 n))
             id (neurons_ net))
          net)).

Section WithBuild.
Context (build : Build).

(** STEP 1: the parallel scan for large networks in an OpenMP build, the
    sequential scan otherwise. *)
Definition candidatesOf (net : t) : list (Z * nat) :=
  match openmpThreads build with
  | Some threads =>
      if 100000 <=? Z.of_nat (length (neurons_ net))
      then parallelCandidates threads net
      else sequentialCandidates net
  | None => sequentialCandidates net
  end.

(** The Razor: [nth_element] at position K, then [resize(K)]. *)
Definition razor (net : t) (candidates : list (Z * nat))
  : list (Z * nat) :=
  if razorEnabled_ net
     && (maxSpikesPerTick_ net <? length candidates)%nat
  then take (maxSpikesPerTick_ net)
         (nth_element build (maxSpikesPerTick_ net) candidates)
  else candidates.

Definition firingPhase (net : t) : t :=
  let candidates := candidatesOf net in
  let net1 := set_lastCandidateCount (length candidates) net in
  foldl (fire (currentTick_ net)) net1 (razor net candidates).

End WithBuild.

(** *** Phase 4: plasticity *)

(** Apply [f] to [synapses_[synapseListIndex + i]] for [i < synapseCount]. *)
Definition mapContiguous (f : Synapse.t -> Synapse.t) (pre : Neuron.t)
  (syns : list Synapse.t) : list Synapse.t :=
  foldl (fun acc i => alter f (Neuron.synapseListIndex pre + i)%nat acc)
    syns (seq 0 (Neuron.synapseCount pre)).

(** The lambda [applySTDP]. *)
Definition applySTDP (operant : bool) (ns : list Neuron.t) (preId : nat)
  (syn : Synapse.t) : Synapse.t :=
  if negb (Synapse.isHebbian syn) then syn
  else
    match ns !! preId, ns !! Synapse.targetNeuronIndex syn with
    | Some pre, Some post =>
        let preFired := Neuron.lastFiredStep pre in
        let postFired := Neuron.lastFiredStep post in
        if operant then Synapse.markEligible preFired postFired syn
        else Synapse.updateWeight preFired postFired syn
    | _, _ => syn
    end.

Definition ltpSynapse (operant : bool) (ns : list Neuron.t)
  (firedThis : gset nat) (preId : nat) (syn : Synapse.t) : Synapse.t :=
  if bool_decide (Synapse.targetNeuronIndex syn ∈ firedThis)
  then applySTDP operant ns preId syn else syn.

Definition ltdSynapse (ns : list Neuron.t) (firedLast : gset nat)
  (pre : Neuron.t) (syn : Synapse.t) : Synapse.t :=
  if Synapse.isHebbian syn
     && bool_decide (Synapse.targetNeuronIndex syn ∈ firedLast)
  then
    match ns !! Synapse.targetNeuronIndex syn with
    | Some post =>
        let preFired := Neuron.lastFiredStep pre in
        let postFired := Neuron.lastFiredStep post in
        let deltaT := postFired - preFired in
        if (deltaT <? 0) && (Z.abs deltaT <=? STDP_WINDOW)
        then Synapse.updateWeight preFired postFired syn else syn
    | None => syn
    end
  else syn.

(** One iteration of a plasticity sweep: the contiguous synapses of
    [preId], then its dynamic ones. *)
Definition sweepPre (f : nat -> Neuron.t -> Synapse.t -> Synapse.t)
  (net : t) (preId : nat) : t :=
  match neurons_ net !! preId with
  | None => net
  | Some pre =>
      set_dynamicSynapses
        (alter (fmap (M:=list) (f preId pre)) preId (dynamicSynapses_ net))
        (set_synapses (mapContiguous (f preId pre) pre (synapses_ net)) net)
  end.

(** The fired sets are unordered sets; the two sweeps visit them in the
    order [elements] lists them. *)
Definition plasticityPhase (net : t) : t :=
  if Neuromodulators.dopamine (chemicals_ net) <? 10 then net
  else
    let ns := neurons_ net in
    let netLTP :=
      foldl (sweepPre (fun preId _ =>
               ltpSynapse (operantMode_ net) ns (firedThisTick_ net) preId))
        net (elements (firedLastTick_ net)) in
    if negb (operantMode_ net) then
      foldl (sweepPre (fun _ pre => ltdSynapse ns (firedLastTick_ net) pre))
        netLTP (elements (firedThisTick_ net))
    else netLTP.

Definition decayEligibilityTraces (net : t) : t :=
  set_dynamicSynapses
    (fmap (M:=list) Synapse.decayEligibility <$> dynamicSynapses_ net)
    (set_synapses (Synapse.decayEligibility <$> synapses_ net) net).

(** *** Reward *)

Definition injectReward (amount : Z) (net : t) : t :=
  set_dynamicSynapses
    (fmap (M:=list) (Synapse.applyReward amount) <$> dynamicSynapses_ net)
    (set_synapses (Synapse.applyReward amount <$> synapses_ net) net).

(** *** Neuromodulation convenience methods *)

Definition surpriseSignal (amount : Z) (net : t) : t :=
  set_chemicals
    (Neuromodulators.spikeNorepinephrine amount (chemicals_ net)) net.

Definition calmSignal (amount : Z) (net : t) : t :=
  set_chemicals (Neuromodulators.spikeSerotonin amount (chemicals_ net)) net.

Definition rewardSignal (amount : Z) (net : t) : t :=
  let net1 :=
    set_chemicals (Neuromodulators.spikeDopamine amount (chemicals_ net))
      net in
  if operantMode_ net then injectReward (amount ÷ 10) net1 else net1.

(** *** Resets *)

Definition panicReset (net : t) : t :=
  let c := chemicals_ net in
  set_chemicals
    (Neuromodulators.mk (Neuromodulators.dopamine c) 70
       (Neuromodulators.serotonin c) (Neuromodulators.acetylcholine c))
    (set_firedLastTick ∅
       (set_firedThisTick ∅
          (set_spikeQueue (SpikeQueue.clear (spikeQueue_ net))
             (set_neurons (Neuron.set_charge 0 <$> neurons_ net) net)))).

Definition reset (net : t) : t :=
  set_neurons (Neuron.reset <$> neurons_ net)
    (set_spikeQueue (SpikeQueue.clear (spikeQueue_ net))
       (set_firedLastTick ∅
          (set_firedThisTick ∅ (set_currentTick 0 net)))).

(** *** The tick *)

(** The blocks of [step], in the order the function runs them. *)

(** Save last tick's fired neurons, advance the spike queue. *)
Definition beginTick (net : t) : t :=
  set_spikeQueue
    (SpikeQueue.advanceTick (currentTick_ net) (spikeQueue_ net))
    (set_firedThisTick ∅ (set_firedLastTick (firedThisTick_ net) net)).

(** [if (plasticityEnabled_) plasticityPhase();] *)
Definition plasticityStage (net : t) : t :=
  if plasticityEnabled_ net then plasticityPhase net else net.

(** [if (operantMode_) decayEligibilityTraces();] *)
Definition eligibilityStage (net : t) : t :=
  if operantMode_ net then decayEligibilityTraces net else net.

(** [chemicals_.decay();] *)
Definition chemistryStage (net : t) : t :=
  set_chemicals (Neuromodulators.decay (chemicals_ net)) net.

(** [if (chemicals_.norepinephrine >= 95) panicReset();] *)
Definition panicStage (net : t) : t :=
  if Neuromodulators.norepinephrine (chemicals_ net) >=? 95
  then panicReset net else net.

(** [currentTick_++;] *)
Definition endTick (net : t) : t :=
  set_currentTick (currentTick_ net + 1) net.

Section Tick.
Context (build : Build).

Definition step (net : t) : t :=
  endTick
    (panicStage
       (chemistryStage
          (eligibilityStage
             (plasticityStage
                (firingPhase build
                   (integrationPhase
                      (leakagePhase
                         (updateRefractoryBits (beginTick net))))))))).

Fixpoint run (steps : nat) (net : t) : t :=
  match steps with
  | O => net
  | S k => run k (step net)
  end.

End Tick.

(** *** Counters *)

Definition getCurrentTick (net : t) : Z := currentTick_ net.

Definition getNeuronCount (net : t) : nat := length (neurons_ net).

(** [getSynapseCount]: the contiguous store plus every dynamic list. *)
Definition getSynapseCount (net : t) : nat :=
  map_fold (fun _ l count => (count + length l)%nat)
    (length (synapses_ net)) (dynamicSynapses_ net).

Definition getNeuronSynapseCount (neuron : nat) (net : t) : nat :=
  match neurons_ net !! neuron with
  | None => 0%nat
  | Some n =>
      (Neuron.synapseCount n
       + match dynamicSynapses_ net !! neuron with
         | Some l => length l
         | None => 0
         end)%nat
  end.

Definition getLastSpikeCount (net : t) : nat := size (firedThisTick_ net).

End Network.

(** ** brain.cpp: noise injection *)

Module Brain.

(** [static uint32_t seed = 12345;] inside [injectNoise]: one generator
    state for the whole process, read and advanced by every call.  It is
    threaded here as an explicit component of the state. *)
Definition initialSeed : Z := 12345.

Definition noiseDraw (seed amplitude : Z) : Z :=
  Z.rem (Z.land (Z.shiftr seed 16) 32767) (2 * amplitude + 1) - amplitude.

Fixpoint injectNoiseLoop (amplitude : Z) (remaining i : nat) (seed : Z)
  (net : Network.t) : Z * Network.t :=
  match remaining with
  | O => (seed, net)
  | S r =>
      let seed' := Network.lcg seed in
      injectNoiseLoop amplitude r (S i) seed'
        (Network.injectCharge i (noiseDraw seed' amplitude) net)
  end.

Definition injectNoise (amplitude : Z) (st : Z * Network.t)
  : Z * Network.t :=
  injectNoiseLoop amplitude (length (Network.neurons_ st.2)) 0 st.1 st.2.

(** [static uint32_t seed = 54321;] inside [injectNoiseToHidden]. *)
Definition hiddenInitialSeed : Z := 54321.

(** The loop of [injectNoiseToHidden]; [retinaSet] holds the ids of
    [vision_.getRetinaNeurons()]. *)
Fixpoint injectNoiseToHiddenLoop (retinaSet : gset nat) (amplitude : Z)
  (remaining i : nat) (seed : Z) (net : Network.t) : Z * Network.t :=
  match remaining with
  | O => (seed, net)
  | S r =>
      if decide (i ∈ retinaSet)
      then injectNoiseToHiddenLoop retinaSet amplitude r (S i) seed net
      else
        let seed' := Network.lcg seed in
        injectNoiseToHiddenLoop retinaSet amplitude r (S i) seed'
          (Network.injectCharge i (noiseDraw seed' amplitude) net)
  end.

Definition injectNoiseToHidden (retinaNeurons : list nat) (amplitude : Z)
  (st : Z * Network.t) : Z * Network.t :=
  injectNoiseToHiddenLoop (list_to_set retinaNeurons) amplitude
    (length (Network.neurons_ st.2)) 0 st.1 st.2.

(** *** The bus pattern *)

Definition NUM_CORNER_TYPES : nat := 4.

Definition NUM_ACUTE_VERTEX_TYPES : nat := 2.

Definition NUM_BOUNDARY_TYPES : nat := 4.

(** [if (count > bound) accumulatedBusPattern_.insert(idx);] *)
Definition insertAbove (count bound idx : nat) (acc : gset nat) : gset nat :=
  if (bound <? count)%nat then {[idx]} ∪ acc else acc.

Definition encodeCorners (count : nat -> nat) (acc : gset nat) : gset nat :=
  foldl (fun acc t =>
           let baseIdx := (t * 2)%nat in
           insertAbove (count t) 5 (baseIdx + 1)
             (insertAbove (count t) 0 baseIdx acc))
    acc (seq 0 NUM_CORNER_TYPES).

Definition encodeAcuteVertices (count : nat -> nat) (acc : gset nat)
  : gset nat :=
  foldl (fun acc t =>
           let baseIdx := (8 + t * 4)%nat in
           if (0 <? count t)%nat
           then {[baseIdx + 3]}
                  ∪ ({[baseIdx + 2]} ∪ ({[baseIdx + 1]} ∪ ({[baseIdx]} ∪ acc)))
           else acc)%nat
    acc (seq 0 NUM_ACUTE_VERTEX_TYPES).

Definition encodeBoundaries (count : nat -> nat) (acc : gset nat)
  : gset nat :=
  foldl (fun acc t =>
           let baseIdx := (16 + t * 12)%nat in
           let c := count t in
           insertAbove c 280 (baseIdx + 11)
          (insertAbove c 220 (baseIdx + 10)
          (insertAbove c 170 (baseIdx + 9)
          (insertAbove c 130 (baseIdx + 8)
          (insertAbove c 100 (baseIdx + 7)
          (insertAbove c 75 (baseIdx + 6)
          (insertAbove c 60 (baseIdx + 5)
          (insertAbove c 50 (baseIdx + 4)
          (insertAbove c 40 (baseIdx + 3)
          (insertAbove c 30 (baseIdx + 2)
          (insertAbove c 15 (baseIdx + 1)
          (insertAbove c 0 baseIdx acc))))))))))))
    acc (seq 0 NUM_BOUNDARY_TYPES).

(** [updateBusPattern]: the three arguments are the counts
    [vision_.countCornersByType], [countAcuteVerticesByType] and
    [countBoundariesByType]; the result is the new
    [accumulatedBusPattern_] and the new [currentBusPattern_]. *)
Definition updateBusPattern (corners acute boundaries : nat -> nat)
  (accumulated : gset nat) : gset nat * list nat :=
  let acc :=
    encodeBoundaries boundaries
      (encodeAcuteVertices acute (encodeCorners corners accumulated)) in
  (acc, merge_sort Nat.le (elements acc)).

End Brain.

(** ** cortical_column.hpp *)

Definition COLUMN_INPUT_NEURONS : nat := 20.
Definition COLUMN_PYRAMIDAL_NEURONS : nat := 50.
Definition COLUMN_INPUT_THRESHOLD : Z := 3.
Definition COLUMN_PYRAMIDAL_THRESHOLD : Z := 5.
Definition COLUMN_OUTPUT_THRESHOLD : Z := 8.
Definition COLUMN_INHIBITORY_THRESHOLD : Z := 3.

Module CorticalColumn.

Record t := mk {
  columnId : nat;
  inputNeurons : list nat;
  pyramidalNeurons : list nat;
  outputNeuron : nat;
  inhibitoryNeuron : nat;
  isAllocated : bool;
  isActive : bool;
  boostValue : Z;
  allocatedAtTick : Z;
  activationCount : Z   (* uint32_t *)
}.

(** [initialize(id, inputs, pyramidals, output, inhibitory)]. *)
Definition initialize (id : nat) (inputs pyramidals : list nat)
  (output inhibitory : nat) : t :=
  mk id inputs pyramidals output inhibitory false false 0 0 0.

Definition set_isActive (b : bool) (c : t) : t :=
  mk (columnId c) (inputNeurons c) (pyramidalNeurons c) (outputNeuron c)
     (inhibitoryNeuron c) (isAllocated c) b (boostValue c)
     (allocatedAtTick c) (activationCount c).

Definition checkActive (net : Network.t) (c : t) : bool :=
  Network.didFire (outputNeuron c) net.

Definition reset (c : t) : t :=
  mk (columnId c) (inputNeurons c) (pyramidalNeurons c) (outputNeuron c)
     (inhibitoryNeuron c) false false 0 0 0.

Definition applyBoost (net : Network.t) (c : t) : Network.t :=
  if boostValue c >? 0
  then foldl (fun acc id => Network.injectCharge id (boostValue c) acc)
         net (inputNeurons c)
  else net.

Definition getNeuronCount (c : t) : nat :=
  (length (inputNeurons c) + length (pyramidalNeurons c) + 2)%nat.

End CorticalColumn.

(** ** uks.hpp / uks.cpp *)

Module UKS.

Record Config := mkConfig {
  numColumns : nat;
  busWidth : nat;
  recognitionThreshold : Z;
  enableLearning : bool
}.

Definition defaultConfig : Config := mkConfig 100 64 12 true.

(** [network_] is the [Network&] the store was built on; every method of
    the store that touches the network is a transformer of this record. *)
Record t := mk {
  network_ : Network.t;
  config_ : Config;
  columns_ : list CorticalColumn.t;
  busNeurons_ : list nat;
  requestNeuron_ : nat;
  globalInhibitor_ : nat;
  currentInput_ : list nat;
  activeColumn_ : option nat;
  requestFired_ : bool;
  totalAllocations_ : Z;
  totalRecognitions_ : Z
}.

Definition set_network (x : Network.t) (u : t) : t :=
  mk x (config_ u) (columns_ u) (busNeurons_ u) (requestNeuron_ u)
     (globalInhibitor_ u) (currentInput_ u) (activeColumn_ u)
     (requestFired_ u) (totalAllocations_ u) (totalRecognitions_ u).
Definition set_columns (x : list CorticalColumn.t) (u : t) : t :=
  mk (network_ u) (config_ u) x (busNeurons_ u) (requestNeuron_ u)
     (globalInhibitor_ u) (currentInput_ u) (activeColumn_ u)
     (requestFired_ u) (totalAllocations_ u) (totalRecognitions_ u).
Definition set_currentInput (x : list nat) (u : t) : t :=
  mk (network_ u) (config_ u) (columns_ u) (busNeurons_ u)
     (requestNeuron_ u) (globalInhibitor_ u) x (activeColumn_ u)
     (requestFired_ u) (totalAllocations_ u) (totalRecognitions_ u).
Definition set_activeColumn (x : option nat) (u : t) : t :=
  mk (network_ u) (config_ u) (columns_ u) (busNeurons_ u)
     (requestNeuron_ u) (globalInhibitor_ u) (currentInput_ u) x
     (requestFired_ u) (totalAllocations_ u) (totalRecognitions_ u).
Definition set_requestFired (x : bool) (u : t) : t :=
  mk (network_ u) (config_ u) (columns_ u) (busNeurons_ u)
     (requestNeuron_ u) (globalInhibitor_ u) (currentInput_ u)
     (activeColumn_ u) x (totalAllocations_ u) (totalRecognitions_ u).
Definition set_totalAllocations (x : Z) (u : t) : t :=
  mk (network_ u) (config_ u) (columns_ u) (busNeurons_ u)
     (requestNeuron_ u) (globalInhibitor_ u) (currentInput_ u)
     (activeColumn_ u) (requestFired_ u) x (totalRecognitions_ u).
Definition set_totalRecognitions (x : Z) (u : t) : t :=
  mk (network_ u) (config_ u) (columns_ u) (busNeurons_ u)
     (requestNeuron_ u) (globalInhibitor_ u) (currentInput_ u)
     (activeColumn_ u) (requestFired_ u) (totalAllocations_ u) x.

(** [network_.connectNeurons(...)] with the result dropped. *)
Definition connect (from to : nat) (w : Z) (net : Network.t) : Network.t :=
  (Network.connectNeurons from to w false net).2.

(** Add [count] neurons with the same parameters; returns their ids. *)
Fixpoint addNeurons (count : nat) (thresh leak refractory : Z)
  (net : Network.t) : list nat * Network.t :=
  match count with
  | O => ([], net)
  | S k =>
      let '(id, net1) := Network.addNeuron thresh leak refractory net in
      let '(ids, net2) := addNeurons k thresh leak refractory net1 in
      (id :: ids, net2)
  end.

(** *** Construction *)

Definition buildBus (width : nat) (net : Network.t)
  : list nat * Network.t :=
  addNeurons width 2 0 1 net.

Definition wireColumn (inputs pyramidals : list nat)
  (output inhibitory : nat) (net : Network.t) : Network.t :=
  let net1 :=
    foldl (fun acc inp =>
             foldl (fun acc' pyr =>
                      if Z.rem (uint32 (Z.of_nat inp * 7 + Z.of_nat pyr * 13)) 5
                           <? 2
                      then connect inp pyr 5 acc' else acc')
               acc pyramidals)
      net inputs in
  let net2 := foldl (fun acc pyr => connect pyr output 1 acc)
                net1 pyramidals in
  let net3 := foldl (fun acc pyr => connect pyr inhibitory 1 acc)
                net2 pyramidals in
  let net4 := foldl (fun acc pyr => connect inhibitory pyr (-2) acc)
                net3 pyramidals in
  foldl (fun acc pi =>
           foldl (fun acc' pj =>
                    if negb (pi.1 =? pj.1)%nat
                       && (Z.rem (uint32 (Z.of_nat pi.2 * 11
                                          + Z.of_nat pj.2 * 17)) 10 =? 0)
                    then connect pi.2 pj.2 1 acc' else acc')
             acc (imap pair pyramidals))
    net4 (imap pair pyramidals).

Fixpoint buildColumns (remaining col : nat) (net : Network.t)
  : list CorticalColumn.t * Network.t :=
  match remaining with
  | O => ([], net)
  | S r =>
      let '(inputs, net1) :=
        addNeurons COLUMN_INPUT_NEURONS COLUMN_INPUT_THRESHOLD 1 2 net in
      let '(pyramidals, net2) :=
        addNeurons COLUMN_PYRAMIDAL_NEURONS COLUMN_PYRAMIDAL_THRESHOLD 1 3
          net1 in
      let '(output, net3) :=
        Network.addNeuron COLUMN_OUTPUT_THRESHOLD 0 2 net2 in
      let '(inhibitory, net4) :=
        Network.addNeuron COLUMN_INHIBITORY_THRESHOLD 0 2 net3 in
      let c :=
        CorticalColumn.initialize col inputs pyramidals output inhibitory in
      let net5 := wireColumn inputs pyramidals output inhibitory net4 in
      let '(cols, net6) := buildColumns r (S col) net5 in
      (c :: cols, net6)
  end.

Definition buildWTACircuit (bus : list nat) (cols : list CorticalColumn.t)
  (net : Network.t) : nat * nat * Network.t :=
  let '(request, net1) := Network.addNeuron 130 3 25 net in
  let '(inhibitor, net2) := Network.addNeuron 3 0 2 net1 in
  let net3 := foldl (fun acc b => connect b request 1 acc) net2 bus in
  let net4 :=
    foldl (fun acc c =>
             let out := CorticalColumn.outputNeuron c in
             connect out request WEIGHT_MIN
               (connect out request WEIGHT_MIN
                  (connect out request WEIGHT_MIN
                     (connect out request WEIGHT_MIN acc))))
      net3 cols in
  let net5 :=
    foldl (fun acc c => connect (CorticalColumn.outputNeuron c) inhibitor 4 acc)
      net4 cols in
  let net6 :=
    foldl (fun acc c =>
             connect inhibitor (CorticalColumn.outputNeuron c) (-10) acc)
      net5 cols in
  let net7 :=
    foldl (fun acc ci =>
             foldl (fun acc' cj =>
                      if negb (ci.1 =? cj.1)%nat
                      then connect (CorticalColumn.outputNeuron ci.2)
                             (CorticalColumn.outputNeuron cj.2) (-6) acc'
                      else acc')
               acc (imap pair cols))
      net6 (imap pair cols) in
  (request, inhibitor, net7).

(** [UKS(network, config)]. *)
Definition make (net : Network.t) (cfg : Config) : t :=
  let '(bus, net1) := buildBus (busWidth cfg) net in
  let '(cols, net2) := buildColumns (numColumns cfg) 0 net1 in
  let '(request, inhibitor, net3) := buildWTACircuit bus cols net2 in
  mk net3 cfg cols bus request inhibitor [] None false 0 0.

(** *** Queries *)

Definition getAllocatedCount (u : t) : nat :=
  length (filter (fun c => CorticalColumn.isAllocated c = true) (columns_ u)).

Definition getFreeCount (u : t) : nat :=
  (length (columns_ u) - getAllocatedCount u)%nat.

(** Indices of the allocated columns whose output neuron fired. *)
Fixpoint respondingFrom (net : Network.t) (i : nat)
  (cols : list CorticalColumn.t) : list nat :=
  match cols with
  | [] => []
  | c :: rest =>
      if CorticalColumn.isAllocated c
         && Network.didFire (CorticalColumn.outputNeuron c) net
      then i :: respondingFrom net (S i) rest
      else respondingFrom net (S i) rest
  end.

Definition getRespondingColumns (u : t) : list nat :=
  respondingFrom (network_ u) 0 (columns_ u).

Fixpoint findFreeFrom (i : nat) (cols : list CorticalColumn.t)
  : option nat :=
  match cols with
  | [] => None
  | c :: rest =>
      if negb (CorticalColumn.isAllocated c) then Some i
      else findFreeFrom (S i) rest
  end.

Definition findFreeColumn (u : t) : option nat :=
  findFreeFrom 0 (columns_ u).

Definition getSearchDepth (u : t) : Z :=
  3 + Neuromodulators.serotonin (Network.chemicals_ (network_ u)) ÷ 20.

(** *** Presentation *)

Definition present (inputPattern : list nat) (u : t) : t :=
  let net :=
    foldl (fun acc inputId =>
             match busNeurons_ u !! inputId with
             | Some busNeuron => Network.injectCharge busNeuron 10 acc
             | None => acc
             end)
      (network_ u) inputPattern in
  set_network net
    (set_requestFired false
       (set_activeColumn None (set_currentInput inputPattern u))).

(** *** One-shot allocation *)

Fixpoint suppressFrom (winnerId i : nat) (cols : list CorticalColumn.t)
  (net : Network.t) : Network.t :=
  match cols with
  | [] => net
  | c :: rest =>
      suppressFrom winnerId (S i) rest
        (if negb (i =? winnerId)%nat && negb (CorticalColumn.isAllocated c)
         then Network.injectCharge (CorticalColumn.outputNeuron c) (-10) net
         else net)
  end.

Definition suppressOthers (winnerId : nat) (u : t) : t :=
  set_network (suppressFrom winnerId 0 (columns_ u) (network_ u)) u.

Definition markAllocated (tk : Z) (c : CorticalColumn.t)
  : CorticalColumn.t :=
  CorticalColumn.mk (CorticalColumn.columnId c)
    (CorticalColumn.inputNeurons c) (CorticalColumn.pyramidalNeurons c)
    (CorticalColumn.outputNeuron c) (CorticalColumn.inhibitoryNeuron c)
    true (CorticalColumn.isActive c) (CorticalColumn.boostValue c)
    tk (CorticalColumn.activationCount c).

(** The wiring loop of [allocateColumn]: bus index [busIdx] excites the
    column's inputs when it is in the pattern and inhibits them otherwise. *)
Definition wirePattern (pattern : list nat) (inputs : list nat)
  (bus : list nat) (net : Network.t) : Network.t :=
  foldl (fun acc bi =>
           let isInPattern := bool_decide (bi.1 ∈ pattern) in
           foldl (fun acc' inputNeuron =>
                    connect bi.2 inputNeuron
                      (if isInPattern then 1 else WEIGHT_MIN) acc')
             acc inputs)
    net (imap pair bus).

Definition allocateColumn (columnId : nat) (pattern : list nat) (u : t)
  : t :=
  match columns_ u !! columnId with
  | None => u
  | Some col =>
      let tk := Network.currentTick_ (network_ u) in
      let u1 :=
        set_totalAllocations (totalAllocations_ u + 1)
          (set_columns (<[columnId := markAllocated tk col]> (columns_ u))
             u) in
      let u2 :=
        set_network
          (wirePattern pattern (CorticalColumn.inputNeurons col)
             (busNeurons_ u1) (network_ u1)) u1 in
      suppressOthers columnId u2
  end.

(** *** The store's tick (called after [Network::step]) *)

Definition recognize (first : nat) (u : t) : t :=
  let cols :=
    alter (fun c =>
             CorticalColumn.mk (CorticalColumn.columnId c)
               (CorticalColumn.inputNeurons c)
               (CorticalColumn.pyramidalNeurons c)
               (CorticalColumn.outputNeuron c)
               (CorticalColumn.inhibitoryNeuron c)
               (CorticalColumn.isAllocated c) true
               (CorticalColumn.boostValue c)
               (CorticalColumn.allocatedAtTick c)
               (uint32 (CorticalColumn.activationCount c + 1)))
      first (columns_ u) in
  let net := network_ u in
  set_network
    (Network.set_chemicals
       (Neuromodulators.spikeDopamine 10 (Network.chemicals_ net)) net)
    (set_requestFired false
       (set_totalRecognitions (totalRecognitions_ u + 1)
          (set_columns cols (set_activeColumn (Some first) u)))).

Definition novelty (u : t) : t :=
  let net1 := Network.surpriseSignal 50 (network_ u) in
  let net2 :=
    Network.set_chemicals
      (Neuromodulators.spikeAcetylcholine 30 (Network.chemicals_ net1))
      net1 in
  let u1 := set_network net2 u in
  if enableLearning (config_ u1)
     && negb (bool_decide (currentInput_ u1 = []))
  then
    match findFreeColumn u1 with
    | Some freeColumn =>
        let u2 := allocateColumn freeColumn (currentInput_ u1) u1 in
        let u3 := set_activeColumn (Some freeColumn) u2 in
        let net3 := network_ u3 in
        let u4 :=
          set_network
            (Network.set_chemicals
               (Neuromodulators.spikeDopamine 30 (Network.chemicals_ net3))
               net3) u3 in
        set_currentInput [] u4
    | None => u1
    end
  else u1.

Definition idle (u : t) : t :=
  let net1 := Network.calmSignal 5 (network_ u) in
  let c := Network.chemicals_ net1 in
  let net2 :=
    if Neuromodulators.acetylcholine c >? 30
    then Network.set_chemicals
           (Neuromodulators.mk (Neuromodulators.dopamine c)
              (Neuromodulators.norepinephrine c)
              (Neuromodulators.serotonin c)
              (int8 (Neuromodulators.acetylcholine c - 2))) net1
    else net1 in
  set_network net2 u.

Definition updateActiveFlags (u : t) : t :=
  set_columns
    ((fun c => CorticalColumn.set_isActive
                 (CorticalColumn.checkActive (network_ u) c) c)
       <$> columns_ u) u.

Definition step (u : t) : t :=
  let responding := getRespondingColumns u in
  let u1 :=
    match responding with
    | first :: _ => recognize first u
    | [] =>
        let u0 :=
          set_requestFired
            (Network.didFire (requestNeuron_ u) (network_ u)) u in
        if requestFired_ u0 then novelty u0 else idle u0
    end in
  updateActiveFlags u1.

(** *** Reset and column access *)

Definition reset (u : t) : t :=
  mk (network_ u) (config_ u) (CorticalColumn.reset <$> columns_ u)
     (busNeurons_ u) (requestNeuron_ u) (globalInhibitor_ u)
     [] None false 0 0.

(** [columns_.at(id)]: [None] stands for the [std::out_of_range] thrown. *)
Definition getColumn (id : nat) (u : t) : option CorticalColumn.t :=
  columns_ u !! id.

End UKS.

(** ** brain.cpp: tracking new allocations *)

Module BrainStep.

(** The scan at the end of [Brain::step]: the index of the column at which
    the running count of allocated columns reaches [target]. *)
Fixpoint scanAllocated (target count i : nat) (cols : list CorticalColumn.t)
  : option nat :=
  match cols with
  | [] => None
  | c :: rest =>
      if CorticalColumn.isAllocated c then
        if (S count =? target)%nat then Some i
        else scanAllocated target (S count) (S i) rest
      else scanAllocated target count (S i) rest
  end.

(** "Track new allocations": the new values of [didAllocate_] and
    [lastAllocatedColumn_], given the count taken before the tick. *)
Definition trackAllocation (prevAllocatedCount : nat)
  (lastAllocatedColumn : option nat) (u : UKS.t) : bool * option nat :=
  let newAllocatedCount := UKS.getAllocatedCount u in
  if (prevAllocatedCount <? newAllocatedCount)%nat then
    (true,
     match scanAllocated newAllocatedCount 0 0 (UKS.columns_ u) with
     | Some i => Some i
     | None => lastAllocatedColumn
     end)
  else (false, lastAllocatedColumn).

End BrainStep.

(** ** motor.hpp / motor.cpp *)

Module MotorSystem.

Inductive MotorAction := LEFT | RIGHT | NONE.

Record Config := mkConfig {
  motorThreshold : Z;
  motorLeak : Z;
  motorRefractory : Z
}.

Definition defaultConfig : Config := mkConfig 8 2 3.

(** [network_] is the [Network&] the motor system was built on;
    [lastAction_] is [mutable] and written by [getAction]. *)
Record t := mk {
  network_ : Network.t;
  config_ : Config;
  motorLeft_ : nat;
  motorRight_ : nat;
  leftConnections_ : list (nat * nat);
  rightConnections_ : list (nat * nat);
  lastAction_ : MotorAction
}.

Definition set_network (x : Network.t) (m : t) : t :=
  mk x (config_ m) (motorLeft_ m) (motorRight_ m) (leftConnections_ m)
     (rightConnections_ m) (lastAction_ m).

Definition set_lastAction (x : MotorAction) (m : t) : t :=
  mk (network_ m) (config_ m) (motorLeft_ m) (motorRight_ m)
     (leftConnections_ m) (rightConnections_ m) x.

(** [MotorSystem(network, config)]. *)
Definition make (net : Network.t) (cfg : Config) : t :=
  let '(motorLeft, net1) :=
    Network.addNeuron (motorThreshold cfg) (motorLeak cfg)
      (motorRefractory cfg) net in
  let '(motorRight, net2) :=
    Network.addNeuron (motorThreshold cfg) (motorLeak cfg)
      (motorRefractory cfg) net1 in
  mk net2 cfg motorLeft motorRight [] [] NONE.

Definition connectToBus (busNeurons : list nat) (m : t) : t :=
  foldl (fun acc bus =>
           let net1 :=
             (Network.connectNeurons bus (motorLeft_ acc) 0 true
                (network_ acc)).2 in
           let net2 :=
             (Network.connectNeurons bus (motorRight_ acc) 0 true net1).2 in
           mk net2 (config_ acc) (motorLeft_ acc) (motorRight_ acc)
              (leftConnections_ acc ++ [(bus, motorLeft_ acc)])
              (rightConnections_ acc ++ [(bus, motorRight_ acc)])
              (lastAction_ acc))
    m busNeurons.

Definition connectColumn (columnOutput : nat) (action : MotorAction)
  (initialWeight : Z) (m : t) : t :=
  let target := match action with
                | LEFT => motorLeft_ m
                | _ => motorRight_ m
                end in
  let net1 :=
    (Network.connectNeurons columnOutput target initialWeight true
       (network_ m)).2 in
  match action with
  | LEFT =>
      mk net1 (config_ m) (motorLeft_ m) (motorRight_ m)
         (leftConnections_ m ++ [(columnOutput, motorLeft_ m)])
         (rightConnections_ m) (lastAction_ m)
  | _ =>
      mk net1 (config_ m) (motorLeft_ m) (motorRight_ m)
         (leftConnections_ m)
         (rightConnections_ m ++ [(columnOutput, motorRight_ m)])
         (lastAction_ m)
  end.

Definition forceAction (action : MotorAction) (amount : Z) (m : t) : t :=
  match action with
  | LEFT =>
      set_network (Network.injectCharge (motorLeft_ m) amount (network_ m)) m
  | RIGHT =>
      set_network (Network.injectCharge (motorRight_ m) amount (network_ m)) m
  | NONE => m
  end.

Definition getAction (m : t) : MotorAction * t :=
  let leftFired := Network.didFire (motorLeft_ m) (network_ m) in
  let rightFired := Network.didFire (motorRight_ m) (network_ m) in
  let action :=
    if leftFired && negb rightFired then LEFT
    else if rightFired && negb leftFired then RIGHT
    else if leftFired && rightFired then
      if Network.getCharge (motorLeft_ m) (network_ m)
           >=? Network.getCharge (motorRight_ m) (network_ m)
      then LEFT else RIGHT
    else NONE in
  (action, set_lastAction action m).

Definition didFire (action : MotorAction) (m : t) : bool :=
  match action with
  | LEFT => Network.didFire (motorLeft_ m) (network_ m)
  | RIGHT => Network.didFire (motorRight_ m) (network_ m)
  | NONE => false
  end.

Definition getCharge (action : MotorAction) (m : t) : Z :=
  match action with
  | LEFT => Network.getCharge (motorLeft_ m) (network_ m)
  | RIGHT => Network.getCharge (motorRight_ m) (network_ m)
  | NONE => 0
  end.

End MotorSystem.

(** * Two builds without OpenMP

    Both sort the whole range by descending charge, which meets the
    postcondition of [std::nth_element] at every position; they differ only
    in the order they give to candidates of equal charge: smaller id first,
    or larger id first. *)

Definition lowIdFirst (a b : Z * nat) : Prop :=
  b.1 < a.1 \/ (b.1 = a.1 /\ (a.2 <= b.2)%nat).

Definition highIdFirst (a b : Z * nat) : Prop :=
  b.1 < a.1 \/ (b.1 = a.1 /\ (b.2 <= a.2)%nat).

#[local] Instance lowIdFirst_dec a b : Decision (lowIdFirst a b).
Proof. unfold lowIdFirst. apply _. Defined.

#[local] Instance highIdFirst_dec a b : Decision (highIdFirst a b).
Proof. unfold highIdFirst. apply _. Defined.

#[local] Instance lowIdFirst_trans : Transitive lowIdFirst.
Proof. unfold lowIdFirst. intros a b c. lia. Qed.

#[local] Instance highIdFirst_trans : Transitive highIdFirst.
Proof. unfold highIdFirst. intros a b c. lia. Qed.

#[local] Instance lowIdFirst_total : Total lowIdFirst.
Proof. unfold lowIdFirst. intros a b. lia. Qed.

#[local] Instance highIdFirst_total : Total highIdFirst.
Proof. unfold highIdFirst. intros a b. lia. Qed.

Lemma StronglySorted_lookup_lt {A} (R : relation A) (l : list A) i j a b :
  StronglySorted R l -> (i < j)%nat ->
  l !! i = Some a -> l !! j = Some b -> R a b.
Proof.
  intros Hs. revert i j.
  induction Hs as [|x l Hs IH Hall]; intros i j Hij Hi Hj.
  - done.
  - destruct j as [|j]; [lia|]. destruct i as [|i]; simpl in *.
    + simplify_eq. rewrite Forall_forall in Hall. apply Hall.
      by eapply list_elem_of_lookup_2.
    + apply (IH i j); [lia|done..].
Qed.

Section SortSelection.
Context (R : relation (Z * nat)) `{!forall a b, Decision (R a b)}
        `{!Transitive R} `{!Total R}.
Hypothesis R_charge : forall a b, R a b -> b.1 <= a.1.

Lemma sort_selection_part (k : nat) (l : list (Z * nat)) i j a b :
  (i < k)%nat -> (k <= j)%nat ->
  merge_sort R l !! i = Some a -> merge_sort R l !! j = Some b ->
  b.1 <= a.1.
Proof.
  intros Hi Hj Ha Hb. apply R_charge.
  apply (StronglySorted_lookup_lt R (merge_sort R l) i j a b);
    [|lia|done..].
  by apply StronglySorted_merge_sort.
Qed.

Definition sortBuild : Build :=
  mkBuild (fun _ l => merge_sort R l)
    (fun _ l => merge_sort_Permutation R l) sort_selection_part None.
End SortSelection.

Lemma lowIdFirst_charge a b : lowIdFirst a b -> b.1 <= a.1.
Proof. unfold lowIdFirst. lia. Qed.

Lemma highIdFirst_charge a b : highIdFirst a b -> b.1 <= a.1.
Proof. unfold highIdFirst. lia. Qed.

Definition lowIdBuild : Build :=
  sortBuild lowIdFirst lowIdFirst_charge.

Definition highIdBuild : Build :=
  sortBuild highIdFirst highIdFirst_charge.

(** * Derived notions and concrete states *)

(** The parts of the network no phase before the chemistry decay writes. *)
Definition settings (net : Network.t) :=
  (Network.currentTick_ net, Network.plasticityEnabled_ net,
   Network.operantMode_ net, Network.razorEnabled_ net,
   Network.maxSpikesPerTick_ net, Network.chemicals_ net).

(** The working state of the tick. *)
Definition activity (net : Network.t) :=
  (Network.neurons_ net, Network.spikeQueue_ net,
   Network.firedThisTick_ net, Network.firedLastTick_ net).

(** The network as the firing phase of [step] finds it. *)
Definition beforeFiring (net : Network.t) : Network.t :=
  Network.integrationPhase
    (Network.leakagePhase
       (Network.updateRefractoryBits (Network.beginTick net))).

(** The network as the chemistry decay of [step] finds it. *)
Definition beforeDecay (build : Build) (net : Network.t) : Network.t :=
  Network.eligibilityStage
    (Network.plasticityStage (Network.firingPhase build (beforeFiring net))).

(** Did the tick end in the panic reset? *)
Definition panics (net : Network.t) : bool :=
  Neuromodulators.norepinephrine
    (Neuromodulators.decay (Network.chemicals_ net)) >=? 95.

Definition addNeuron' (thresh leak refractory : Z) (net : Network.t)
  : Network.t :=
  (Network.addNeuron thresh leak refractory net).2.

Definition connect' (from to : nat) (w : Z) (plastic : bool)
  (net : Network.t) : Network.t :=
  (Network.connectNeurons from to w plastic net).2.

(** Two neurons, one inhibitory synapse 0 -> 1 of weight -16, and neuron 0
    made to fire at tick 0. *)
Definition inhibitedPair : Network.t :=
  Network.injectSpike 0%nat
    (connect' 0%nat 1%nat (-16) false
       (addNeuron' 10 1 2 (addNeuron' 10 1 2 (Network.make 2)))).

(** One neuron that fired at tick 0 and, while refractory, was handed a
    charge of -10 (the amount [UKS::suppressOthers] injects). *)
Definition refractoryDebt : Network.t :=
  Network.injectCharge 0%nat (-10)
    (Network.step lowIdBuild
       (Network.injectCharge 0%nat 20
          (addNeuron' 10 1 2 (Network.make 1)))).

(** Ten disconnected neurons (threshold 10, no leak), each charged to its
    threshold, with K = 3. *)
Definition tenAtThreshold : Network.t :=
  Network.set_maxSpikesPerTick 3%nat
    (foldl (fun acc i => Network.injectCharge i 10 acc)
       (Nat.iter 10 (addNeuron' 10 0 2) (Network.make 10)) (seq 0 10)).

(** One neuron holding charge, norepinephrine spiked from 30 by [amount]. *)
Definition aroused (amount : Z) : Network.t :=
  Network.injectCharge 0%nat 20
    (Network.surpriseSignal amount (addNeuron' 100 1 2 (Network.make 1))).

(** The neurons as the leakage phase of [step] leaves them. *)
Definition afterLeak (net : Network.t) : list Neuron.t :=
  Network.neurons_
    (Network.leakagePhase
       (Network.updateRefractoryBits (Network.beginTick net))).

(** The value of [noiseSeed] after the scan has passed the neurons [ns]. *)
Fixpoint seedAfter (tk amplitude seed : Z) (ns : list Neuron.t) : Z :=
  match ns with
  | [] => seed
  | n :: rest =>
      seedAfter tk amplitude
        (if Neuron.isRefractory tk n then seed
         else if amplitude >? 0 then Network.lcg seed else seed)
        rest
  end.

(** Number of non-refractory neurons among [ns]. *)
Fixpoint awake (tk : Z) (ns : list Neuron.t) : nat :=
  match ns with
  | [] => O
  | n :: rest =>
      if Neuron.isRefractory tk n then awake tk rest else S (awake tk rest)
  end.

(** Two neurons (threshold 40, no leak), norepinephrine raised to 80 so
    that the firing phase draws noise of amplitude 5; neuron 1 holds 25. *)
Definition noisyPair : Network.t :=
  Network.injectCharge 1%nat 25
    (Network.surpriseSignal 50
       (addNeuron' 40 0 2 (addNeuron' 40 0 2 (Network.make 2)))).

(** Two neurons at rest. *)
Definition restingPair : Network.t :=
  addNeuron' 40 0 2 (addNeuron' 40 0 2 (Network.make 2)).

(** Number of draws the sequential scan has made once it has passed
    neuron [id]. *)
Definition drawsUpTo (net : Network.t) (id : nat) : nat :=
  if Network.noiseAmplitude net >? 0
  then awake (Network.currentTick_ net) (take (S id) (Network.neurons_ net))
  else O.

(** A plastic pair in operant mode: neuron 0 fires at tick 0, neuron 1 at
    tick 1, which marks the synapse 0 -> 1 (weight 0) eligible; the trace is
    99 once the tick has decayed it. *)
Definition eligiblePair : Network.t :=
  Network.step lowIdBuild
    (Network.injectCharge 1%nat 20
       (Network.step lowIdBuild
          (Network.injectCharge 0%nat 20
             (Network.set_operantMode true
                (connect' 0%nat 1%nat 0 true
                   (addNeuron' 10 0 2
                      (addNeuron' 10 0 2 (Network.make 2)))))))).

(** A store of two columns on a four-wide bus.  The host deposits spikes
    with [Network::injectSpike]. *)
Definition smallStore : UKS.t :=
  UKS.make (Network.make 0) (UKS.mkConfig 2 4 12 true).

Definition hostSpike (id : nat) (u : UKS.t) : UKS.t :=
  UKS.set_network (Network.injectSpike id (UKS.network_ u)) u.

(** Column 0 has been allocated to the pattern {0, 1}. *)
Definition oneAllocated : UKS.t :=
  UKS.step
    (hostSpike (UKS.requestNeuron_ smallStore)
       (UKS.present [0%nat; 1%nat] smallStore)).


Definition allocatedCount (cols : list CorticalColumn.t) : nat :=
  length (filter (fun c => CorticalColumn.isAllocated c = true) cols).

(** Bit [id & 63] of word [id >> 6], as a boolean. *)
Definition bitOf (bits : list Z) (id : nat) : bool :=
  match bits !! (id / 64)%nat with
  | Some w => Z.testbit w (Z.of_nat (id mod 64))
  | None => false
  end.

(** What one traversed synapse does to the charge [v] of neuron [id]. *)
Definition absorb (bits : list Z) (numNeurons id : nat) (v : Z)
  (syn : Synapse.t) : Z :=
  if (Synapse.targetNeuronIndex syn =? id)%nat
     && (id <? numNeurons)%nat && negb (Network.isRefractoryFast bits id)
  then int32 (v + Synapse.weight syn) else v.

(** The synapses traversed for one spike of [pre]: contiguous, then
    dynamic. *)
Definition outgoing (syns : list Synapse.t) (dyn : gmap nat (list Synapse.t))
  (ns : list Neuron.t) (pre : nat) : list Synapse.t :=
  match ns !! pre with
  | Some p => Network.contiguous p syns ++ Network.dynamicOf pre dyn
  | None => []
  end.

(** The weights among [syns] that reach neuron [id]. *)
Definition weightsTo (id : nat) (syns : list Synapse.t) : list Z :=
  Synapse.weight
    <$> filter (fun syn => Synapse.targetNeuronIndex syn = id) syns.

(** The weights the integration phase of the tick that starts in [net]
    delivers to neuron [id], in the order it delivers them. *)
Definition deliveredTo (net : Network.t) (id : nat) : list Z :=
  weightsTo id
    ((SpikeQueue.getSpikesForTick (Network.currentTick_ net - 1)
        (Network.spikeQueue_ net)).1
       ≫= outgoing (Network.synapses_ net) (Network.dynamicSynapses_ net)
            (Network.neurons_ net)).

(** The bitset has a word for every neuron (the constructor and
    [addNeuron] see to it). *)
Definition bitsCover (net : Network.t) : Prop :=
  ((length (Network.neurons_ net) + 63) / 64
   <= length (Network.refractoryBits_ net))%nat.

(** What the end of a tick does to the chemistry: one decay step, then the
    panic reset's [norepinephrine = 70] when the decayed level is 95 or
    more. *)
Definition afterChemistry (c : Neuromodulators.t) : Neuromodulators.t :=
  let d := Neuromodulators.decay c in
  if Neuromodulators.norepinephrine d >=? 95
  then Neuromodulators.mk (Neuromodulators.dopamine d) 70
         (Neuromodulators.serotonin d) (Neuromodulators.acetylcholine d)
  else d.

(** Largest distance of a channel from its baseline. *)
Definition imbalance (c : Neuromodulators.t) : Z :=
  Z.max (Z.abs (Neuromodulators.dopamine c - 50))
    (Z.max (Z.abs (Neuromodulators.norepinephrine c - 30))
       (Z.max (Z.abs (Neuromodulators.serotonin c - 50))
          (Z.abs (Neuromodulators.acetylcholine c - 50)))).

(** The constant part of a neuron. *)
Definition parameters (n : Neuron.t) :=
  (Neuron.leakRate n, Neuron.threshold n, Neuron.refractoryDelay n,
   Neuron.synapseListIndex n, Neuron.synapseCount n).

(** Everything but the membrane potential. *)
Definition exceptCharge (n : Neuron.t) :=
  (parameters n, Neuron.lastFiredStep n).

(** The part of a synapse no tick changes: its target, its plastic flag
    and, when it is not plastic, its weight. *)
Definition fixedPart (s : Synapse.t) :=
  (Synapse.targetNeuronIndex s, Synapse.isHebbian s,
   if Synapse.isHebbian s then None else Some (Synapse.weight s)).

(** The winners of the tick that starts in [net]. *)
Definition winnersOf (build : Build) (net : Network.t) : list (Z * nat) :=
  Network.razor build (beforeFiring net)
    (Network.candidatesOf build (beforeFiring net)).

(** Both synapse stores evolve pointwise along [R]: same shape, and every
    synapse related to the one that was at its place. *)
Definition evolves (R : relation Synapse.t) (net net' : Network.t) : Prop :=
  Forall2 R (Network.synapses_ net) (Network.synapses_ net') /\
  forall pre,
    option_Forall2 (Forall2 R)
      (Network.dynamicSynapses_ net !! pre)
      (Network.dynamicSynapses_ net' !! pre).

(** Both synapse stores, seen through [g]. *)
Definition storesBy {A} (g : Synapse.t -> A) (net : Network.t) :=
  (g <$> Network.synapses_ net,
   fmap (M:=list) g <$> Network.dynamicSynapses_ net).

Definition synapseStores (net : Network.t) :=
  (Network.synapses_ net, Network.dynamicSynapses_ net).

(** The states a host reaches through the public interface of [Network]:
    the constructor, then any sequence of its public methods ([chemicals()]
    hands out the chemistry for writing). *)
Inductive reachable (build : Build) : Network.t -> Prop :=
| reach_make numNeurons : reachable build (Network.make numNeurons)
| reach_addNeuron thresh leak refractory net :
    reachable build net ->
    reachable build (Network.addNeuron thresh leak refractory net).2
| reach_connectNeurons from to w plastic net :
    reachable build net ->
    reachable build (Network.connectNeurons from to w plastic net).2
| reach_injectSpike neuron net :
    reachable build net -> reachable build (Network.injectSpike neuron net)
| reach_injectCharge neuron amount net :
    reachable build net ->
    reachable build (Network.injectCharge neuron amount net)
| reach_step net :
    reachable build net -> reachable build (Network.step build net)
| reach_reset net :
    reachable build net -> reachable build (Network.reset net)
| reach_injectReward amount net :
    reachable build net -> reachable build (Network.injectReward amount net)
| reach_rewardSignal amount net :
    reachable build net -> reachable build (Network.rewardSignal amount net)
| reach_surpriseSignal amount net :
    reachable build net -> reachable build (Network.surpriseSignal amount net)
| reach_calmSignal amount net :
    reachable build net -> reachable build (Network.calmSignal amount net)
| reach_panicReset net :
    reachable build net -> reachable build (Network.panicReset net)
| reach_setPlasticityEnabled enabled net :
    reachable build net ->
    reachable build (Network.set_plasticityEnabled enabled net)
| reach_setOperantMode enabled net :
    reachable build net -> reachable build (Network.set_operantMode enabled net)
| reach_setRazorEnabled enabled net :
    reachable build net -> reachable build (Network.set_razorEnabled enabled net)
| reach_setMaxSpikesPerTick k net :
    reachable build net -> reachable build (Network.set_maxSpikesPerTick k net)
| reach_chemicals c net :
    reachable build net -> reachable build (Network.set_chemicals c net).

(** Every contiguous synapse range [synapseListIndex, + synapseCount) lies
    inside [synapses_]. *)
Definition contiguousInBounds (net : Network.t) : Prop :=
  Forall (fun n => (Neuron.synapseListIndex n + Neuron.synapseCount n
                    <= length (Network.synapses_ net))%nat)
    (Network.neurons_ net).

(** [P] holds of every synapse of both stores. *)
Definition everySynapse (P : Synapse.t -> Prop) (net : Network.t) : Prop :=
  Forall P (Network.synapses_ net) /\
  forall pre l, Network.dynamicSynapses_ net !! pre = Some l -> Forall P l.

(** Both fired sets hold ids of existing neurons only. *)
Definition firedValid (net : Network.t) : Prop :=
  forall id,
    id ∈ Network.firedThisTick_ net \/ id ∈ Network.firedLastTick_ net ->
    (id < length (Network.neurons_ net))%nat.

(** Every synapse points at an existing neuron. *)
Definition targetsValid (net : Network.t) : Prop :=
  everySynapse
    (fun s => (Synapse.targetNeuronIndex s < length (Network.neurons_ net))%nat)
    net.

(** The queue holds events of the previous tick and of the current tick
    only. *)
Definition queueFresh (net : Network.t) : Prop :=
  Forall (fun e => SpikeQueue.tick e = Network.currentTick_ net - 1 \/
                   SpikeQueue.tick e = Network.currentTick_ net)
    (SpikeQueue.queue_ (Network.spikeQueue_ net)).

(** The invariant of the reachable states. *)
Definition invariant (net : Network.t) : Prop :=
  bitsCover net /\ contiguousInBounds net /\ firedValid net /\
  targetsValid net /\ everySynapse Synapse.wf net /\ queueFresh net.

(** The synapses leaving neuron [pre], in the order the tick visits them. *)
Definition outgoingOf (net : Network.t) (pre : nat) : list Synapse.t :=
  outgoing (Network.synapses_ net) (Network.dynamicSynapses_ net)
    (Network.neurons_ net) pre.

(** A neuron with synapses in the overflow store has a contiguous range
    that is not empty and no longer ends the contiguous store. *)
Definition overflowOrdered (net : Network.t) : Prop :=
  forall id,
    Network.dynamicOf id (Network.dynamicSynapses_ net) <> [] ->
    exists n, Network.neurons_ net !! id = Some n /\
      Neuron.synapseCount n <> 0%nat /\
      (Neuron.synapseListIndex n + Neuron.synapseCount n
       < length (Network.synapses_ net))%nat.

(** The allocated columns come before the free ones. *)
Definition allocatedFirst (cols : list CorticalColumn.t) : Prop :=
  forall i j ci cj, (i < j)%nat ->
    cols !! i = Some ci -> cols !! j = Some cj ->
    CorticalColumn.isAllocated cj = true ->
    CorticalColumn.isAllocated ci = true.

(** The column built at position [k] of a store whose first column
    neuron is [base]. *)
Definition columnAt (base col k : nat) : CorticalColumn.t :=
  CorticalColumn.initialize (col + k)
    (seq (base + 72 * k) COLUMN_INPUT_NEURONS)
    (seq (base + 72 * k + 20) COLUMN_PYRAMIDAL_NEURONS)
    (base + 72 * k + 70) (base + 72 * k + 71).

(** ** Invariants of the store *)

(** The wiring of a column: its id and its neurons. *)

Definition wiring (c : CorticalColumn.t) :=
  (CorticalColumn.columnId c, CorticalColumn.inputNeurons c,
   CorticalColumn.pyramidalNeurons c, CorticalColumn.outputNeuron c,
   CorticalColumn.inhibitoryNeuron c).

(** The part of a store no method changes after construction. *)
Definition fixedStore (u : UKS.t) :=
  (UKS.config_ u, UKS.busNeurons_ u, UKS.requestNeuron_ u,
   UKS.globalInhibitor_ u, wiring <$> UKS.columns_ u).

(** The states of a store reached through its public interface, the host
    being free to drive the shared network in between. *)
Inductive storeReachable : UKS.t -> Prop :=
| store_make net cfg : storeReachable (UKS.make net cfg)
| store_present pattern u :
    storeReachable u -> storeReachable (UKS.present pattern u)
| store_step u : storeReachable u -> storeReachable (UKS.step u)
| store_reset u : storeReachable u -> storeReachable (UKS.reset u)
| store_host net u :
    storeReachable u -> storeReachable (UKS.set_network net u).

(** The network with its spike queue emptied: everything [step] and the
    public methods read besides the queue. *)
Definition withoutQueue (net : Network.t) : Network.t :=
  Network.set_spikeQueue SpikeQueue.empty_queue net.

(** Two queues hold the same events, in whatever order. *)
Definition sameEvents (q1 q2 : SpikeQueue.t) : Prop :=
  SpikeQueue.queue_ q1 ≡ₚ SpikeQueue.queue_ q2 /\
  SpikeQueue.currentFired_ q1 ≡ₚ SpikeQueue.currentFired_ q2 /\
  SpikeQueue.currentTick_ q1 = SpikeQueue.currentTick_ q2.

(** Two networks are equal in every field, except that the events inside
    their spike queues may be stored in a different order. *)
Definition equalUpToQueueOrder (net1 net2 : Network.t) : Prop :=
  withoutQueue net1 = withoutQueue net2 /\
  sameEvents (Network.spikeQueue_ net1) (Network.spikeQueue_ net2).

(** The Razor's cut splits no tie: some charge has exactly [K] candidates
    strictly above it. *)
Definition cleanCut (K : nat) (candidates : list (Z * nat)) : Prop :=
  exists theta : Z,
    length (filter (fun c : Z * nat => theta < c.1) candidates) = K.

(** On the tick that starts in [net] the selection does not depend on how
    [std::nth_element] orders equal charges: the Razor is idle, or its cut
    is clean. *)
Definition selectionDecided (build : Build) (net : Network.t) : Prop :=
  Network.razorEnabled_ net = false \/
  (length (Network.candidatesOf build (beforeFiring net))
   <= Network.maxSpikesPerTick_ net)%nat \/
  cleanCut (Network.maxSpikesPerTick_ net)
    (Network.candidatesOf build (beforeFiring net)).

(** Two engines, one per build, constructed identically and driven by the
    same calls; a tick is taken only when its selection is decided. *)
Inductive twins (build1 build2 : Build) : Network.t -> Network.t -> Prop :=
| twins_make numNeurons :
    twins build1 build2 (Network.make numNeurons) (Network.make numNeurons)
| twins_addNeuron thresh leak refractory net1 net2 :
    twins build1 build2 net1 net2 ->
    twins build1 build2 (Network.addNeuron thresh leak refractory net1).2
      (Network.addNeuron thresh leak refractory net2).2
| twins_connectNeurons from to w plastic net1 net2 :
    twins build1 build2 net1 net2 ->
    twins build1 build2 (Network.connectNeurons from to w plastic net1).2
      (Network.connectNeurons from to w plastic net2).2
| twins_injectSpike neuron net1 net2 :
    twins build1 build2 net1 net2 ->
    twins build1 build2 (Network.injectSpike neuron net1)
      (Network.injectSpike neuron net2)
| twins_injectCharge neuron amount net1 net2 :
    twins build1 build2 net1 net2 ->
    twins build1 build2 (Network.injectCharge neuron amount net1)
      (Network.injectCharge neuron amount net2)
| twins_injectNoise amplitude seed net1 net2 :
    twins build1 build2 net1 net2 ->
    twins build1 build2 (Brain.injectNoise amplitude (seed, net1)).2
      (Brain.injectNoise amplitude (seed, net2)).2
| twins_step net1 net2 :
    twins build1 build2 net1 net2 ->
    selectionDecided build1 net1 ->
    twins build1 build2 (Network.step build1 net1) (Network.step build2 net2)
| twins_reset net1 net2 :
    twins build1 build2 net1 net2 ->
    twins build1 build2 (Network.reset net1) (Network.reset net2)
| twins_injectReward amount net1 net2 :
    twins build1 build2 net1 net2 ->
    twins build1 build2 (Network.injectReward amount net1)
      (Network.injectReward amount net2)
| twins_rewardSignal amount net1 net2 :
    twins build1 build2 net1 net2 ->
    twins build1 build2 (Network.rewardSignal amount net1)
      (Network.rewardSignal amount net2)
| twins_surpriseSignal amount net1 net2 :
    twins build1 build2 net1 net2 ->
    twins build1 build2 (Network.surpriseSignal amount net1)
      (Network.surpriseSignal amount net2)
| twins_calmSignal amount net1 net2 :
    twins build1 build2 net1 net2 ->
    twins build1 build2 (Network.calmSignal amount net1)
      (Network.calmSignal amount net2)
| twins_panicReset net1 net2 :
    twins build1 build2 net1 net2 ->
    twins build1 build2 (Network.panicReset net1) (Network.panicReset net2)
| twins_setPlasticityEnabled enabled net1 net2 :
    twins build1 build2 net1 net2 ->
    twins build1 build2 (Network.set_plasticityEnabled enabled net1)
      (Network.set_plasticityEnabled enabled net2)
| twins_setOperantMode enabled net1 net2 :
    twins build1 build2 net1 net2 ->
    twins build1 build2 (Network.set_operantMode enabled net1)
      (Network.set_operantMode enabled net2)
| twins_setRazorEnabled enabled net1 net2 :
    twins build1 build2 net1 net2 ->
    twins build1 build2 (Network.set_razorEnabled enabled net1)
      (Network.set_razorEnabled enabled net2)
| twins_setMaxSpikesPerTick k net1 net2 :
    twins build1 build2 net1 net2 ->
    twins build1 build2 (Network.set_maxSpikesPerTick k net1)
      (Network.set_maxSpikesPerTick k net2)
| twins_chemicals c net1 net2 :
    twins build1 build2 net1 net2 ->
    twins build1 build2 (Network.set_chemicals c net1)
      (Network.set_chemicals c net2).

(** Four disconnected neurons (threshold 10, no leak) holding the charges
    25, 15, 35 and 45, with K = 2: the Razor truncates and its cut is
    clean. *)
Definition fourDistinct : Network.t :=
  Network.set_maxSpikesPerTick 2%nat
    (Network.injectCharge 3%nat 45
       (Network.injectCharge 2%nat 35
          (Network.injectCharge 1%nat 15
             (Network.injectCharge 0%nat 25
                (Nat.iter 4 (addNeuron' 10 0 2) (Network.make 4)))))).

(** * Properties *)

(** ** Fixed-width arithmetic *)

Lemma int8_small x : -128 <= x <= 127 -> int8 x = x.
Proof.
  intros H. unfold int8, wrap_signed. change (2 ^ (8 - 1)) with 128.
  change (2 ^ 8) with 256. rewrite Z.mod_small; lia.
Qed.

Lemma int32_small x : -2147483648 <= x <= 2147483647 -> int32 x = x.
Proof.
  intros H. unfold int32, wrap_signed. change (2 ^ (32 - 1)) with 2147483648.
  change (2 ^ 32) with 4294967296. rewrite Z.mod_small; lia.
Qed.

Lemma std_clamp_range v lo hi : lo <= hi -> lo <= std_clamp v lo hi <= hi.
Proof.
  intros H. unfold std_clamp.
  destruct (Z.ltb_spec v lo); [lia|]. destruct (Z.ltb_spec hi v); lia.
Qed.

(** ** What each phase leaves alone *)

Lemma foldl_preserves {A B C} (f : A -> B -> A) (g : A -> C) (l : list B) a :
  (forall a b, g (f a b) = g a) -> g (foldl f a l) = g a.
Proof.
  intros Hf. revert a. induction l as [|b l IH]; intros a; simpl; [done|].
  by rewrite IH, Hf.
Qed.

Lemma updateRefractoryBits_settings net :
  settings (Network.updateRefractoryBits net) = settings net.
Proof. reflexivity. Qed.

Lemma leakagePhase_settings net :
  settings (Network.leakagePhase net) = settings net.
Proof. reflexivity. Qed.

Lemma integrationPhase_settings net :
  settings (Network.integrationPhase net) = settings net.
Proof.
  unfold Network.integrationPhase.
  by destruct (SpikeQueue.getSpikesForTick _ _).
Qed.

Lemma fire_fold_settings tk winners net :
  settings (foldl (Network.fire tk) net winners) = settings net.
Proof. by apply foldl_preserves. Qed.

Lemma firingPhase_settings build net :
  settings (Network.firingPhase build net) = settings net.
Proof. unfold Network.firingPhase. by rewrite fire_fold_settings. Qed.

Lemma sweepPre_settings f net preId :
  settings (Network.sweepPre f net preId) = settings net.
Proof. unfold Network.sweepPre. by destruct (_ !! _). Qed.

Lemma sweepPre_activity f net preId :
  activity (Network.sweepPre f net preId) = activity net.
Proof. unfold Network.sweepPre. by destruct (_ !! _). Qed.

Lemma plasticityPhase_settings net :
  settings (Network.plasticityPhase net) = settings net.
Proof.
  unfold Network.plasticityPhase.
  destruct (_ <? 10); [done|].
  destruct (negb _);
    rewrite ?(foldl_preserves _ settings) by (intros; apply sweepPre_settings);
    done.
Qed.

Lemma plasticityPhase_activity net :
  activity (Network.plasticityPhase net) = activity net.
Proof.
  unfold Network.plasticityPhase.
  destruct (_ <? 10); [done|].
  destruct (negb _);
    rewrite ?(foldl_preserves _ activity) by (intros; apply sweepPre_activity);
    done.
Qed.

Lemma step_unfold build net :
  Network.step build net =
  Network.endTick
    (Network.panicStage (Network.chemistryStage (beforeDecay build net))).
Proof. reflexivity. Qed.

Lemma beginTick_settings net :
  settings (Network.beginTick net) = settings net.
Proof. reflexivity. Qed.

Lemma beforeFiring_settings net :
  settings (beforeFiring net) = settings net.
Proof.
  unfold beforeFiring.
  by rewrite integrationPhase_settings, leakagePhase_settings,
    updateRefractoryBits_settings, beginTick_settings.
Qed.

Lemma beforeFiring_fired net :
  Network.firedThisTick_ (beforeFiring net) = ∅.
Proof.
  unfold beforeFiring, Network.integrationPhase.
  by destruct (SpikeQueue.getSpikesForTick _ _).
Qed.

Lemma plasticityStage_settings net :
  settings (Network.plasticityStage net) = settings net.
Proof.
  unfold Network.plasticityStage.
  destruct (Network.plasticityEnabled_ net); [|done].
  apply plasticityPhase_settings.
Qed.

Lemma plasticityStage_activity net :
  activity (Network.plasticityStage net) = activity net.
Proof.
  unfold Network.plasticityStage.
  destruct (Network.plasticityEnabled_ net); [|done].
  apply plasticityPhase_activity.
Qed.

Lemma eligibilityStage_settings net :
  settings (Network.eligibilityStage net) = settings net.
Proof.
  unfold Network.eligibilityStage.
  by destruct (Network.operantMode_ net).
Qed.

Lemma eligibilityStage_activity net :
  activity (Network.eligibilityStage net) = activity net.
Proof.
  unfold Network.eligibilityStage.
  by destruct (Network.operantMode_ net).
Qed.

Lemma beforeDecay_settings build net :
  settings (beforeDecay build net) = settings net.
Proof.
  unfold beforeDecay.
  by rewrite eligibilityStage_settings, plasticityStage_settings,
    firingPhase_settings, beforeFiring_settings.
Qed.

Lemma beforeDecay_activity build net :
  activity (beforeDecay build net)
  = activity (Network.firingPhase build (beforeFiring net)).
Proof.
  unfold beforeDecay.
  by rewrite eligibilityStage_activity, plasticityStage_activity.
Qed.

(** ** The firing loop *)

Lemma fire_fold_fired tk (winners : list (Z * nat)) net :
  Network.firedThisTick_ (foldl (Network.fire tk) net winners)
  = list_to_set winners.*2 ∪ Network.firedThisTick_ net.
Proof.
  revert net. induction winners as [|w ws IH]; intros net; simpl.
  - set_solver.
  - rewrite IH. simpl. set_solver.
Qed.

Lemma fire_fold_length tk (winners : list (Z * nat)) net :
  length (Network.neurons_ (foldl (Network.fire tk) net winners))
  = length (Network.neurons_ net).
Proof.
  apply (foldl_preserves _ (fun x => length (Network.neurons_ x))).
  intros a b. simpl. by rewrite length_alter.
Qed.

(** A neuron whose id is not among the winners is not touched. *)
Lemma fire_fold_other tk (winners : list (Z * nat)) net id :
  id ∉ winners.*2 ->
  Network.neurons_ (foldl (Network.fire tk) net winners) !! id
  = Network.neurons_ net !! id.
Proof.
  revert net. induction winners as [|w ws IH]; intros net Hid; simpl.
  - done.
  - rewrite IH by set_solver. simpl.
    apply list_lookup_alter_ne. set_solver.
Qed.

(** A winner ends the loop with zero charge and [lastFiredStep = tick]. *)
Lemma fire_fold_winner tk (winners : list (Z * nat)) net id n :
  id ∈ winners.*2 ->
  Network.neurons_ (foldl (Network.fire tk) net winners) !! id = Some n ->
  Neuron.currentCharge n = 0 /\ Neuron.lastFiredStep n = tk.
Proof.
  revert net. induction winners as [|w ws IH]; intros net Hid Hn; simpl in *.
  - set_solver.
  - destruct (decide (id ∈ ws.*2)) as [Hin|Hout].
    + by apply (IH _ Hin Hn).
    + assert (id = w.2) as -> by set_solver.
      rewrite fire_fold_other in Hn by done. simpl in Hn.
      rewrite list_lookup_alter_eq in Hn.
      destruct (Network.neurons_ net !! w.2); simplify_eq/=. done.
Qed.

Lemma size_list_to_set_le (l : list nat) :
  (size (list_to_set l : gset nat) <= length l)%nat.
Proof.
  induction l as [|x l IH]; simpl.
  - done.
  - rewrite size_union_alt, size_singleton.
    pose proof (subseteq_size (list_to_set l ∖ {[x]}) (list_to_set l : gset nat)
                  ltac:(set_solver)).
    lia.
Qed.

Lemma razor_length build net candidates :
  Network.razorEnabled_ net = true ->
  (length (Network.razor build net candidates)
   <= Network.maxSpikesPerTick_ net)%nat.
Proof.
  intros Hr. unfold Network.razor. rewrite Hr. simpl.
  destruct (Nat.ltb_spec (Network.maxSpikesPerTick_ net) (length candidates)).
  - rewrite length_take. lia.
  - lia.
Qed.

(** ** The state after a complete tick *)

Lemma beforeDecay_fired build net :
  Network.firedThisTick_ (beforeDecay build net)
  = list_to_set
      (Network.razor build (beforeFiring net)
         (Network.candidatesOf build (beforeFiring net))).*2.
Proof.
  pose proof (beforeDecay_activity build net) as H. unfold activity in H.
  assert (Network.firedThisTick_ (beforeDecay build net)
          = Network.firedThisTick_ (Network.firingPhase build (beforeFiring net)))
    as -> by congruence.
  unfold Network.firingPhase. rewrite fire_fold_fired. simpl.
  rewrite beforeFiring_fired. set_solver.
Qed.

Lemma beforeDecay_neurons build net :
  Network.neurons_ (beforeDecay build net)
  = Network.neurons_ (Network.firingPhase build (beforeFiring net)).
Proof.
  pose proof (beforeDecay_activity build net) as H. unfold activity in H.
  congruence.
Qed.

Lemma beforeDecay_chemicals build net :
  Network.chemicals_ (beforeDecay build net) = Network.chemicals_ net.
Proof.
  pose proof (beforeDecay_settings build net) as H. unfold settings in H.
  congruence.
Qed.

Lemma beforeFiring_razor net :
  Network.razorEnabled_ (beforeFiring net) = Network.razorEnabled_ net /\
  Network.maxSpikesPerTick_ (beforeFiring net) = Network.maxSpikesPerTick_ net.
Proof.
  pose proof (beforeFiring_settings net) as H. unfold settings in H.
  split; congruence.
Qed.

Lemma step_panics build net :
  panics net = true ->
  Network.step build net
  = Network.endTick
      (Network.panicReset (Network.chemistryStage (beforeDecay build net))).
Proof.
  intros Hp. rewrite step_unfold. unfold Network.panicStage.
  assert (Network.chemicals_ (Network.chemistryStage (beforeDecay build net))
          = Neuromodulators.decay (Network.chemicals_ net)) as ->.
  { simpl. by rewrite beforeDecay_chemicals. }
  unfold panics in Hp. by rewrite Hp.
Qed.

Lemma step_calm build net :
  panics net = false ->
  Network.step build net
  = Network.endTick (Network.chemistryStage (beforeDecay build net)).
Proof.
  intros Hp. rewrite step_unfold. unfold Network.panicStage.
  assert (Network.chemicals_ (Network.chemistryStage (beforeDecay build net))
          = Neuromodulators.decay (Network.chemicals_ net)) as ->.
  { simpl. by rewrite beforeDecay_chemicals. }
  unfold panics in Hp. by rewrite Hp.
Qed.

Lemma step_fired build net :
  Network.firedThisTick_ (Network.step build net)
  = if panics net then ∅
    else list_to_set
           (Network.razor build (beforeFiring net)
              (Network.candidatesOf build (beforeFiring net))).*2.
Proof.
  destruct (panics net) eqn:Hp.
  - by rewrite step_panics.
  - rewrite step_calm by done. simpl. apply beforeDecay_fired.
Qed.

Lemma step_neurons build net :
  Network.neurons_ (Network.step build net)
  = if panics net
    then Neuron.set_charge 0
           <$> Network.neurons_ (Network.firingPhase build (beforeFiring net))
    else Network.neurons_ (Network.firingPhase build (beforeFiring net)).
Proof.
  destruct (panics net) eqn:Hp.
  - rewrite step_panics by done. simpl. by rewrite beforeDecay_neurons.
  - rewrite step_calm by done. simpl. apply beforeDecay_neurons.
Qed.

(** ** C4: the Razor caps the fired set *)

(** C4.  With the Razor enabled, the fired set recorded by a complete
    [step] holds at most K = [maxSpikesPerTick_] neurons. *)
Theorem razor_caps_fired_set build net :
  Network.razorEnabled_ net = true ->
  (size (Network.firedThisTick_ (Network.step build net))
   <= Network.maxSpikesPerTick_ net)%nat.
Proof.
  intros Hr. rewrite step_fired. destruct (panics net).
  - rewrite size_empty. lia.
  - destruct (beforeFiring_razor net) as [Hr' HK].
    etrans; [apply size_list_to_set_le|].
    rewrite length_fmap, <- HK. apply razor_length. congruence.
Qed.

Lemma razor_caps_fired_set_witness :
  Network.razorEnabled_ tenAtThreshold = true /\
  (size (Network.firedThisTick_ (Network.step highIdBuild tenAtThreshold))
   <= Network.maxSpikesPerTick_ tenAtThreshold)%nat.
Proof.
  split; [reflexivity|].
  apply (razor_caps_fired_set highIdBuild tenAtThreshold). reflexivity.
Defined.

(** Outside [step] the set is not capped: spikes injected between ticks
    are added to it whatever K is. *)
Example injected_spikes_are_not_capped :
  size (Network.firedThisTick_
          (Network.injectSpike 0%nat
             (Network.injectSpike 1%nat
                (Network.step highIdBuild tenAtThreshold)))) = 5%nat.
Proof. vm_compute. done. Qed.

(** ** C5: the panic reset *)

(** C5 as stated fails: norepinephrine spiked to exactly 95 decays to 94
    before the test [>= 95], so the tick ends without a reset: the neuron
    keeps its charge and norepinephrine is 94, not 70. *)
Lemma panic_at_95_counterexample :
  Neuromodulators.norepinephrine (Network.chemicals_ (aroused 65)) = 95 /\
  Neuromodulators.norepinephrine
    (Network.chemicals_ (Network.step lowIdBuild (aroused 65))) = 94 /\
  Neuron.currentCharge
    <$> Network.neurons_ (Network.step lowIdBuild (aroused 65)) = [14].
Proof. vm_compute. done. Qed.

(** C5, amended.  If norepinephrine is at least 96 when [step] is called,
    so that it is still at least 95 after the tick's chemistry decay, the
    tick ends in the panic reset: every charge is zero, the spike queue is
    empty, both fired sets are empty and norepinephrine is exactly 70. *)
Theorem panic_reset_after_decay build net :
  96 <= Neuromodulators.norepinephrine (Network.chemicals_ net) ->
  Forall (fun n => Neuron.currentCharge n = 0)
    (Network.neurons_ (Network.step build net)) /\
  SpikeQueue.queue_ (Network.spikeQueue_ (Network.step build net)) = [] /\
  Network.firedThisTick_ (Network.step build net) = ∅ /\
  Network.firedLastTick_ (Network.step build net) = ∅ /\
  Neuromodulators.norepinephrine (Network.chemicals_ (Network.step build net))
  = 70.
Proof.
  intros HNE.
  assert (panics net = true) as Hp.
  { unfold panics. simpl. unfold Neuromodulators.decay1.
    destruct (Z.gtb_spec (Neuromodulators.norepinephrine
                            (Network.chemicals_ net)) 30); lia. }
  rewrite step_panics by done. simpl. repeat split.
  apply Forall_fmap, Forall_true. done.
Qed.

Lemma panic_reset_after_decay_witness :
  96 <= Neuromodulators.norepinephrine (Network.chemicals_ (aroused 66)) /\
  Neuromodulators.norepinephrine
    (Network.chemicals_ (Network.step lowIdBuild (aroused 66))) = 70.
Proof.
  split; [vm_compute; discriminate|].
  apply (panic_reset_after_decay lowIdBuild (aroused 66)).
  vm_compute. discriminate.
Defined.

(** ** C2: where the charge is clamped *)

Lemma leakNeuron_nonneg tk bonus n :
  Neuron.isRefractory tk n = false ->
  0 <= Neuron.currentCharge (Network.leakNeuron tk bonus n).
Proof.
  intros Hr. unfold Network.leakNeuron. rewrite Hr.
  destruct (_ && _); simpl.
  - destruct (Z.ltb_spec (int32 (Z.max CHARGE_MIN
        (int32 (Neuron.currentCharge n - Neuron.leakRate n)) - bonus)) 0); lia.
  - unfold CHARGE_MIN. lia.
Qed.

Lemma getSpikesForTick_advance tk tk' q :
  (SpikeQueue.getSpikesForTick tk (SpikeQueue.advanceTick tk' q)).1
  = (SpikeQueue.getSpikesForTick tk q).1.
Proof.
  unfold SpikeQueue.getSpikesForTick. simpl.
  by destruct (SpikeQueue.getSpikesLoop _ _ _).
Qed.

Lemma deliver_length bits k ns syn :
  length (Network.deliver bits k ns syn) = length ns.
Proof.
  unfold Network.deliver. destruct (_ && _); [|done]. apply length_alter.
Qed.

Lemma integrateSpike_length bits syns dyn ns fired :
  length (Network.integrateSpike bits syns dyn ns fired) = length ns.
Proof.
  unfold Network.integrateSpike. destruct (ns !! fired); [|done].
  rewrite !(foldl_preserves _ (@length Neuron.t)); [done|..];
    intros; apply deliver_length.
Qed.

Lemma integrationPhase_length net :
  length (Network.neurons_ (Network.integrationPhase net))
  = length (Network.neurons_ net).
Proof.
  unfold Network.integrationPhase.
  destruct (SpikeQueue.getSpikesForTick _ _) as [ids q]. simpl.
  apply (foldl_preserves _ (@length Neuron.t)).
  intros; apply integrateSpike_length.
Qed.

Lemma afterLeak_lookup net id :
  afterLeak net !! id
  = Network.leakNeuron (Network.currentTick_ net)
      (int8 (Neuromodulators.serotonin (Network.chemicals_ net) ÷ 10))
      <$> Network.neurons_ net !! id.
Proof. unfold afterLeak. simpl. apply list_lookup_fmap. Qed.

Lemma beforeFiring_length net :
  length (Network.neurons_ (beforeFiring net))
  = length (Network.neurons_ net).
Proof.
  unfold beforeFiring. rewrite integrationPhase_length. simpl.
  apply length_fmap.
Qed.

(** ** The refractory bitset *)

#[local] Arguments Nat.modulo : simpl never.
#[local] Arguments Nat.div : simpl never.

Lemma land_pow2 w k :
  0 <= k -> Z.land w (2 ^ k) = if Z.testbit w k then 2 ^ k else 0.
Proof.
  intros Hk. apply Z.bits_inj'. intros i Hi.
  rewrite Z.land_spec, Z.pow2_bits_eqb by done.
  destruct (Z.eqb_spec k i) as [->|Hne].
  - destruct (Z.testbit w i) eqn:Hw; [|by rewrite Z.bits_0].
    by rewrite Z.pow2_bits_true.
  - rewrite andb_false_r.
    destruct (Z.testbit w k); [|by rewrite Z.bits_0].
    by rewrite Z.pow2_bits_false.
Qed.

Lemma bit_mask_pow2 id : Network.bit_mask id = 2 ^ Z.of_nat (id mod 64).
Proof. unfold Network.bit_mask. rewrite Z.shiftl_1_l. done. Qed.

Lemma isRefractoryFast_bitOf bits id :
  Network.isRefractoryFast bits id = bitOf bits id.
Proof.
  unfold Network.isRefractoryFast, bitOf.
  destruct (bits !! (id / 64)%nat) as [w|]; [|done].
  rewrite bit_mask_pow2, land_pow2 by lia.
  destruct (Z.testbit w _); [|done].
  destruct (Z.eqb_spec (2 ^ Z.of_nat (id mod 64)) 0); [|done].
  pose proof (Z.pow_pos_nonneg 2 (Z.of_nat (id mod 64))). lia.
Qed.

Lemma bitOf_set_bit bits id j :
  bitOf (Network.set_bit id bits) j
  = bitOf bits j
    || (bool_decide (j = id) && bool_decide (id / 64 < length bits)%nat).
Proof.
  unfold bitOf, Network.set_bit.
  destruct (decide (j / 64 = id / 64)%nat) as [Hword|Hword].
  - rewrite Hword, list_lookup_alter_eq.
    destruct (bits !! (id / 64)%nat) as [w|] eqn:Hw; simpl.
    + rewrite bit_mask_pow2, Z.lor_spec, Z.pow2_bits_eqb by lia.
      rewrite (bool_decide_eq_true_2 (id / 64 < length bits)%nat)
        by (by eapply lookup_lt_Some).
      rewrite andb_true_r. f_equal.
      destruct (Z.eqb_spec (Z.of_nat (id mod 64)) (Z.of_nat (j mod 64)))
        as [Hbit|Hbit].
      * rewrite bool_decide_eq_true_2; [done|].
        rewrite (Nat.div_mod_eq j 64), (Nat.div_mod_eq id 64). lia.
      * rewrite bool_decide_eq_false_2; [done|]. intros ->. lia.
    + rewrite (bool_decide_eq_false_2 (id / 64 < length bits)%nat).
      * by rewrite andb_false_r.
      * apply lookup_ge_None in Hw. lia.
  - rewrite list_lookup_alter_ne by done.
    rewrite (bool_decide_eq_false_2 (j = id)) by (intros ->; done).
    by rewrite orb_false_r.
Qed.

Lemma set_bit_length id bits : length (Network.set_bit id bits) = length bits.
Proof. apply length_alter. Qed.

Lemma bitOf_markRefractory tk id0 ns bits j :
  ((id0 + length ns + 63) / 64 <= length bits)%nat ->
  bitOf (Network.markRefractory tk id0 ns bits) j
  = bitOf bits j
    || match ns !! (j - id0)%nat with
       | Some n => bool_decide (id0 <= j)%nat && Neuron.isRefractory tk n
       | None => false
       end.
Proof.
  revert id0 bits. induction ns as [|n ns IH]; intros id0 bits Hcap.
  - simpl. by rewrite orb_false_r.
  - cbn [Network.markRefractory]. simpl in Hcap.
    assert (id0 / 64 < length bits)%nat as Hword.
    { pose proof (Nat.Div0.div_le_mono id0 (id0 + S (length ns) + 63 - 64) 64).
      pose proof (Nat.div_add (id0 + S (length ns) + 63 - 64) 1 64).
      replace (id0 + S (length ns) + 63 - 64 + 1 * 64)%nat
        with (id0 + S (length ns) + 63)%nat in * by lia.
      lia. }
    rewrite IH.
    2:{ destruct (Neuron.isRefractory tk n);
          rewrite ?set_bit_length;
          replace (S id0 + length ns)%nat with (id0 + S (length ns))%nat
            by lia; done. }
    destruct (decide (j = id0)) as [->|Hne].
    + rewrite Nat.sub_diag.
      replace (id0 - S id0)%nat with 0%nat by lia. simpl.
      rewrite (bool_decide_eq_true_2 (id0 <= id0)%nat) by lia.
      destruct ns as [|n' ns'];
        simpl; rewrite ?(bool_decide_eq_false_2 (S id0 <= id0)%nat) by lia;
        rewrite ?orb_false_r; simpl;
        (destruct (Neuron.isRefractory tk n); [|by rewrite orb_false_r]);
        rewrite bitOf_set_bit, bool_decide_eq_true_2 by done;
        by rewrite bool_decide_eq_true_2.
    + assert (bitOf (if Neuron.isRefractory tk n
                     then Network.set_bit id0 bits else bits) j
              = bitOf bits j) as ->.
      { destruct (Neuron.isRefractory tk n); [|done].
        rewrite bitOf_set_bit, (bool_decide_eq_false_2 (j = id0)) by done.
        by rewrite orb_false_r. }
      f_equal.
      destruct (decide (id0 <= j)%nat) as [Hle|Hgt].
      * replace (j - id0)%nat with (S (j - S id0)) by lia. simpl.
        destruct (ns !! (j - S id0)%nat); [|done].
        by rewrite !bool_decide_eq_true_2 by lia.
      * destruct (ns !! (j - S id0)%nat), ((n :: ns) !! (j - id0)%nat);
          rewrite ?bool_decide_eq_false_2 by lia; done.
Qed.

(** ** Integration, neuron by neuron *)

Lemma set_charge_same n : Neuron.set_charge (Neuron.currentCharge n) n = n.
Proof. by destruct n. Qed.

Lemma deliver_lookup bits k ns syn id n :
  ns !! id = Some n ->
  Network.deliver bits k ns syn !! id
  = Some (Neuron.set_charge (absorb bits k id (Neuron.currentCharge n) syn) n).
Proof.
  intros Hn. unfold Network.deliver, absorb.
  destruct (Nat.eqb_spec (Synapse.targetNeuronIndex syn) id) as [->|Hne].
  - destruct (_ && _); simpl.
    + by rewrite list_lookup_alter_eq, Hn.
    + by rewrite set_charge_same.
  - simpl. rewrite set_charge_same. destruct (_ && _); [|done].
    by rewrite list_lookup_alter_ne.
Qed.

Lemma deliver_fold_lookup bits k syns ns id n :
  ns !! id = Some n ->
  foldl (Network.deliver bits k) ns syns !! id
  = Some (Neuron.set_charge
            (foldl (absorb bits k id) (Neuron.currentCharge n) syns) n).
Proof.
  revert ns n. induction syns as [|syn syns IH]; intros ns n Hn; simpl.
  - by rewrite set_charge_same.
  - rewrite (IH _ _ (deliver_lookup bits k ns syn id n Hn)). done.
Qed.

Lemma integrateSpike_lookup bits syns dyn ns fired id n :
  ns !! id = Some n ->
  Network.integrateSpike bits syns dyn ns fired !! id
  = Some (Neuron.set_charge
            (foldl (absorb bits (length ns) id) (Neuron.currentCharge n)
               (outgoing syns dyn ns fired)) n).
Proof.
  intros Hn. unfold Network.integrateSpike, outgoing.
  destruct (ns !! fired) as [pre|]; simpl.
  - rewrite <- foldl_app. by apply deliver_fold_lookup.
  - by rewrite set_charge_same.
Qed.

(** Integration changes charges only, so the synapses traversed for a
    spike are the same whenever it is processed. *)
Lemma integrateSpike_outgoing bits syns dyn ns fired pre :
  outgoing syns dyn (Network.integrateSpike bits syns dyn ns fired) pre
  = outgoing syns dyn ns pre.
Proof.
  unfold outgoing.
  destruct (ns !! pre) as [p|] eqn:Hp.
  - by rewrite (integrateSpike_lookup _ _ _ _ _ _ _ Hp).
  - apply lookup_ge_None in Hp.
    rewrite (proj2 (lookup_ge_None _ _)); [done|].
    by rewrite integrateSpike_length.
Qed.

Lemma integrate_fold_lookup bits syns dyn spikes ns id n :
  ns !! id = Some n ->
  foldl (Network.integrateSpike bits syns dyn) ns spikes !! id
  = Some (Neuron.set_charge
            (foldl (absorb bits (length ns) id) (Neuron.currentCharge n)
               (spikes ≫= outgoing syns dyn ns)) n).
Proof.
  revert ns n. induction spikes as [|fired spikes IH]; intros ns n Hn.
  - simpl. by rewrite set_charge_same.
  - cbn [foldl mbind list_bind].
    rewrite (IH _ _ (integrateSpike_lookup bits syns dyn ns fired id n Hn)).
    assert (spikes ≫= outgoing syns dyn
                        (Network.integrateSpike bits syns dyn ns fired)
            = spikes ≫= outgoing syns dyn ns) as ->.
    { clear. induction spikes as [|s spikes IH]; [done|].
      cbn [mbind list_bind]. by rewrite integrateSpike_outgoing, IH. }
    by rewrite integrateSpike_length, foldl_app.
Qed.

Lemma absorb_fold_refractory bits k id v syns :
  Network.isRefractoryFast bits id = true ->
  foldl (absorb bits k id) v syns = v.
Proof.
  intros Hbit. induction syns as [|syn syns IH]; simpl; [done|].
  unfold absorb at 2. rewrite Hbit, andb_false_r. apply IH.
Qed.

Lemma absorb_fold_awake bits k id v syns :
  Network.isRefractoryFast bits id = false -> (id < k)%nat ->
  foldl (absorb bits k id) v syns
  = foldl (fun v w => int32 (v + w)) v (weightsTo id syns).
Proof.
  intros Hbit Hid. revert v. unfold weightsTo.
  induction syns as [|syn syns IH]; intros v; simpl; [done|].
  rewrite filter_cons. unfold absorb at 2. rewrite Hbit.
  rewrite (proj2 (Nat.ltb_lt _ _) Hid), andb_true_r. simpl.
  destruct (Nat.eqb_spec (Synapse.targetNeuronIndex syn) id) as [Heq|Hne];
    destruct (decide (Synapse.targetNeuronIndex syn = id)); try done;
    simpl; apply IH.
Qed.

Lemma integrationPhase_lookup net id n :
  Network.neurons_ net !! id = Some n ->
  Network.neurons_ (Network.integrationPhase net) !! id
  = Some (Neuron.set_charge
            (foldl (absorb (Network.refractoryBits_ net)
                      (length (Network.neurons_ net)) id)
               (Neuron.currentCharge n)
               ((SpikeQueue.getSpikesForTick (Network.currentTick_ net - 1)
                   (Network.spikeQueue_ net)).1
                  ≫= outgoing (Network.synapses_ net)
                       (Network.dynamicSynapses_ net) (Network.neurons_ net)))
            n).
Proof.
  intros Hn. unfold Network.integrationPhase.
  destruct (SpikeQueue.getSpikesForTick _ _) as [ids q]. simpl.
  by apply integrate_fold_lookup.
Qed.

Lemma bitOf_zero (bits : list Z) id : bitOf (const 0 <$> bits) id = false.
Proof.
  unfold bitOf. rewrite list_lookup_fmap.
  destruct (bits !! _); simpl; [|done]. apply Z.bits_0.
Qed.

(** After [updateRefractoryBits] the bit of a neuron says whether it is
    refractory at the current tick. *)
Lemma updateRefractoryBits_bit net id n :
  bitsCover net -> Network.neurons_ net !! id = Some n ->
  Network.isRefractoryFast
    (Network.refractoryBits_ (Network.updateRefractoryBits net)) id
  = Neuron.isRefractory (Network.currentTick_ net) n.
Proof.
  intros Hcover Hn. rewrite isRefractoryFast_bitOf. simpl.
  rewrite bitOf_markRefractory.
  - by rewrite bitOf_zero, Nat.sub_0_r, Hn.
  - by rewrite length_fmap.
Qed.

Lemma outgoing_leak syns dyn tk bonus ns pre :
  outgoing syns dyn (Network.leakNeuron tk bonus <$> ns) pre
  = outgoing syns dyn ns pre.
Proof.
  unfold outgoing. rewrite list_lookup_fmap.
  destruct (ns !! pre) as [p|]; simpl; [|done]. f_equal.
  unfold Network.leakNeuron.
  destruct (Neuron.isRefractory tk p); [done|]. by destruct (_ && _).
Qed.

(** The neurons as the firing phase finds them: a refractory neuron is as
    the tick found it; any other holds its charge after the leak plus the
    weights delivered to it, added one by one in 32 bits. *)
Lemma beforeFiring_lookup net id n0 :
  bitsCover net -> Network.neurons_ net !! id = Some n0 ->
  exists n1,
    afterLeak net !! id = Some n1 /\
    Network.neurons_ (beforeFiring net) !! id
    = Some (if Neuron.isRefractory (Network.currentTick_ net) n0 then n0
            else Neuron.set_charge
                   (foldl (fun v w => int32 (v + w)) (Neuron.currentCharge n1)
                      (deliveredTo net id)) n1).
Proof.
  intros Hcover Hn0.
  pose proof (lookup_lt_Some _ _ _ Hn0) as Hid.
  eexists. split; [by rewrite afterLeak_lookup, Hn0|].
  unfold beforeFiring.
  rewrite (integrationPhase_lookup _ id
             (Network.leakNeuron (Network.currentTick_ net)
                (int8 (Neuromodulators.serotonin (Network.chemicals_ net) ÷ 10))
                n0)).
  2:{ simpl. by rewrite list_lookup_fmap, Hn0. }
  f_equal.
  change (Network.refractoryBits_
            (Network.leakagePhase
               (Network.updateRefractoryBits (Network.beginTick net))))
    with (Network.refractoryBits_
            (Network.updateRefractoryBits (Network.beginTick net))).
  pose proof (updateRefractoryBits_bit (Network.beginTick net) id n0
                Hcover Hn0) as Hbit.
  change (Network.currentTick_ (Network.beginTick net))
    with (Network.currentTick_ net) in Hbit.
  destruct (Neuron.isRefractory (Network.currentTick_ net) n0) eqn:Hr.
  - rewrite absorb_fold_refractory by done.
    unfold Network.leakNeuron. rewrite Hr. apply set_charge_same.
  - rewrite absorb_fold_awake; [|done|].
    2:{ simpl. by rewrite length_fmap. }
    unfold deliveredTo. simpl. rewrite getSpikesForTick_advance.
    do 3 f_equal. clear.
    induction ((SpikeQueue.getSpikesForTick _ _).1) as [|s spikes IH];
      [done|].
    cbn [mbind list_bind]. by rewrite outgoing_leak, IH.
Qed.

Lemma fold_int32_nonneg v ws :
  0 <= v -> Forall (fun w => 0 <= w) ws ->
  v + foldr Z.add 0 ws <= 2147483647 ->
  foldl (fun v w => int32 (v + w)) v ws = v + foldr Z.add 0 ws.
Proof.
  intros Hv Hws. revert v Hv.
  induction Hws as [|w ws Hw Hws IH]; intros v Hv Hsum; simpl in *; [lia|].
  assert (0 <= foldr Z.add 0 ws) as Hrest.
  { clear -Hws. induction Hws; simpl; lia. }
  rewrite int32_small by lia. rewrite IH; lia.
Qed.

(** The inhibited neuron of the pair: the leak leaves 0 and the one
    delivery is the weight -16. *)
Example inhibited_neuron_delivery :
  deliveredTo (Network.step lowIdBuild inhibitedPair) 1%nat = [-16].
Proof. vm_compute. done. Qed.

(** ** The candidate scan *)

Lemma seedAfter_iter tk amplitude seed ns :
  0 < amplitude ->
  seedAfter tk amplitude seed ns = Nat.iter (awake tk ns) Network.lcg seed.
Proof.
  intros HA. revert seed. induction ns as [|n ns IH]; intros seed; simpl.
  - done.
  - destruct (Neuron.isRefractory tk n); [apply IH|].
    destruct (Z.gtb_spec amplitude 0); [|lia].
    by rewrite IH, Nat.iter_succ_r.
Qed.

(** A pair is collected exactly when it is the charge and id of a
    non-refractory neuron whose charge reaches its effective threshold, the
    noise being drawn from the seed as the scan has advanced it so far. *)
Lemma collectCandidates_spec tk reduction amplitude id0 seed ns v id :
  (v, id) ∈ Network.collectCandidates tk reduction amplitude id0 seed ns <->
  exists i n,
    id = (id0 + i)%nat /\ ns !! i = Some n /\
    Neuron.isRefractory tk n = false /\ v = Neuron.currentCharge n /\
    Network.effectiveThreshold reduction amplitude
      (seedAfter tk amplitude seed (take (S i) ns)) n
    <= Neuron.currentCharge n.
Proof.
  revert id0 seed. induction ns as [|n ns IH]; intros id0 seed.
  - simpl. split; [by intros ?%elem_of_nil|]. by intros (i & m & _ & ? & _).
  - cbn [Network.collectCandidates].
    destruct (Neuron.isRefractory tk n) eqn:Hr.
    + rewrite IH. split.
      * intros (i & m & -> & Hi & Hm & -> & Hthr).
        exists (S i), m. cbn [take seedAfter lookup list_lookup].
        rewrite Hr. split_and!; try done; lia.
      * intros (i & m & -> & Hi & Hm & -> & Hthr).
        destruct i as [|i]; simpl in Hi; [simplify_eq; congruence|].
        exists i, m. cbn [take seedAfter] in Hthr. rewrite Hr in Hthr.
        split_and!; try done; lia.
    + set (seed' := if amplitude >? 0 then Network.lcg seed else seed).
      assert ((v, id) ∈ Network.collectCandidates tk reduction amplitude
                (S id0) seed' ns <->
              exists i m, id = (id0 + S i)%nat /\ ns !! i = Some m /\
                Neuron.isRefractory tk m = false /\
                v = Neuron.currentCharge m /\
                Network.effectiveThreshold reduction amplitude
                  (seedAfter tk amplitude seed (take (S (S i)) (n :: ns))) m
                <= Neuron.currentCharge m) as Hrest.
      { rewrite IH. cbn [take seedAfter]. rewrite Hr. fold seed'.
        split; intros (i & m & -> & H); exists i, m; (split; [lia|done]). }
      assert (Network.effectiveThreshold reduction amplitude
                (seedAfter tk amplitude seed (take 1 (n :: ns))) n
              = Network.effectiveThreshold reduction amplitude seed' n)
        as Hhead.
      { cbn [take seedAfter]. by rewrite Hr. }
      destruct (Z.geb_spec (Neuron.currentCharge n)
                  (Network.effectiveThreshold reduction amplitude seed' n))
        as [Hge|Hlt].
      * rewrite elem_of_cons, Hrest. split.
        -- intros [Heq|(i & m & -> & H)].
           ++ simplify_eq. exists 0%nat, n.
              rewrite Hhead. split_and!; try done; lia.
           ++ exists (S i), m. done.
        -- intros (i & m & -> & Hi & Hm & -> & Hthr).
           destruct i as [|i]; simpl in Hi.
           ++ simplify_eq. left. f_equal. lia.
           ++ right. exists i, m. done.
      * rewrite Hrest. split.
        -- intros (i & m & -> & H). exists (S i), m. done.
        -- intros (i & m & -> & Hi & Hm & -> & Hthr).
           destruct i as [|i]; simpl in Hi.
           ++ simplify_eq. rewrite Hhead in Hthr. lia.
           ++ exists i, m. done.
Qed.

Lemma collectCandidates_ids tk reduction amplitude id0 seed ns c :
  c ∈ Network.collectCandidates tk reduction amplitude id0 seed ns ->
  (id0 <= c.2)%nat.
Proof.
  destruct c as [v id]. rewrite collectCandidates_spec.
  intros (i & m & -> & _). simpl. lia.
Qed.

Lemma collectCandidates_NoDup tk reduction amplitude id0 seed ns :
  NoDup (Network.collectCandidates tk reduction amplitude id0 seed ns).*2.
Proof.
  revert id0 seed. induction ns as [|n ns IH]; intros id0 seed.
  - simpl. constructor.
  - cbn [Network.collectCandidates].
    destruct (Neuron.isRefractory tk n); [apply IH|].
    destruct (_ >=? _); [|apply IH].
    rewrite fmap_cons. constructor; [|apply IH].
    intros (c & Hc2 & Hc)%list_elem_of_fmap.
    apply collectCandidates_ids in Hc. simpl in Hc2. lia.
Qed.

(** Thread [tid] collects exactly the non-refractory neurons of its chunks
    whose charge reaches the effective threshold, the noise being drawn
    from [noiseSeed ^ id]. *)
Lemma threadScan_spec threads tid tk reduction amplitude seed id0 ns v id :
  (v, id) ∈ Network.threadScan threads tid tk reduction amplitude seed id0 ns
  <->
  exists i n,
    id = (id0 + i)%nat /\ ns !! i = Some n /\
    ((id / 4096) mod threads)%nat = tid /\
    Neuron.isRefractory tk n = false /\ v = Neuron.currentCharge n /\
    Network.effectiveThreshold reduction amplitude
      (Network.lcg (Z.lxor seed (uint32 (Z.of_nat id)))) n
    <= Neuron.currentCharge n.
Proof.
  revert id0. induction ns as [|n ns IH]; intros id0.
  - simpl. split; [by intros ?%elem_of_nil|]. by intros (i & m & _ & ? & _).
  - cbn [Network.threadScan].
    assert ((v, id) ∈ Network.threadScan threads tid tk reduction amplitude
              seed (S id0) ns <->
            exists i m, id = (id0 + S i)%nat /\ ns !! i = Some m /\
              ((id / 4096) mod threads)%nat = tid /\
              Neuron.isRefractory tk m = false /\
              v = Neuron.currentCharge m /\
              Network.effectiveThreshold reduction amplitude
                (Network.lcg (Z.lxor seed (uint32 (Z.of_nat id)))) m
              <= Neuron.currentCharge m) as Hrest.
    { rewrite IH.
      split; intros (i & m & -> & H); exists i, m; (split; [lia|done]). }
    set (taken :=
           ((id0 / 4096) mod threads =? tid)%nat
           && negb (Neuron.isRefractory tk n)
           && (Neuron.currentCharge n
                 >=? Network.effectiveThreshold reduction amplitude
                       (Network.lcg (Z.lxor seed (uint32 (Z.of_nat id0)))) n)).
    assert (taken = true <->
            ((id0 / 4096) mod threads)%nat = tid /\
            Neuron.isRefractory tk n = false /\
            Network.effectiveThreshold reduction amplitude
              (Network.lcg (Z.lxor seed (uint32 (Z.of_nat id0)))) n
            <= Neuron.currentCharge n) as Htaken.
    { unfold taken.
      rewrite !andb_true_iff, Nat.eqb_eq, negb_true_iff, Z.geb_le. tauto. }
    destruct taken.
    + rewrite elem_of_cons, Hrest. split.
      * intros [Heq|(i & m & -> & H)].
        -- simplify_eq. destruct (proj1 Htaken eq_refl) as (? & ? & ?).
           exists 0%nat, n. rewrite Nat.add_0_r. done.
        -- exists (S i), m. done.
      * intros (i & m & -> & Hi & H).
        destruct i as [|i]; simpl in Hi.
        -- simplify_eq. left. destruct H as (_ & _ & -> & _).
           f_equal. lia.
        -- right. exists i, m. done.
    + rewrite Hrest. split.
      * intros (i & m & -> & H). exists (S i), m. done.
      * intros (i & m & -> & Hi & Hown & Hr & -> & Hthr).
        destruct i as [|i]; simpl in Hi.
        -- simplify_eq. rewrite Nat.add_0_r in *.
           by assert (false = true) by (by apply Htaken).
        -- exists i, m. done.
Qed.

Lemma threadScan_ids threads tid tk reduction amplitude seed id0 ns c :
  c ∈ Network.threadScan threads tid tk reduction amplitude seed id0 ns ->
  (id0 <= c.2)%nat /\ ((c.2 / 4096) mod threads)%nat = tid.
Proof.
  destruct c as [v id]. rewrite threadScan_spec.
  intros (i & m & -> & _ & Hown & _). simpl. split; [lia|done].
Qed.

Lemma threadScan_NoDup threads tid tk reduction amplitude seed id0 ns :
  NoDup (Network.threadScan threads tid tk reduction amplitude seed id0 ns).*2.
Proof.
  revert id0. induction ns as [|n ns IH]; intros id0.
  - simpl. constructor.
  - cbn [Network.threadScan]. destruct (_ && _); [|apply IH].
    rewrite fmap_cons. constructor; [|apply IH].
    intros (c & Hc2 & Hc)%list_elem_of_fmap.
    apply threadScan_ids in Hc as [Hc _]. simpl in Hc2. lia.
Qed.

Lemma thread_buffers_NoDup threads tk reduction amplitude seed ns tids :
  NoDup tids ->
  NoDup (mjoin ((fun tid => Network.threadScan threads tid tk reduction
                              amplitude seed 0 ns) <$> tids)).*2.
Proof.
  induction 1 as [|tid tids Hnotin Hnd IH]; simpl.
  - constructor.
  - rewrite fmap_app. apply NoDup_app. split_and!.
    + apply threadScan_NoDup.
    + intros id (c & -> & Hc)%list_elem_of_fmap
        (c' & Heq & Hc')%list_elem_of_fmap.
      apply threadScan_ids in Hc as [_ Hown].
      apply list_elem_of_join in Hc' as (buffer & Hc' & Hbuffer).
      apply list_elem_of_fmap in Hbuffer as (tid' & -> & Htid').
      apply threadScan_ids in Hc' as [_ Hown'].
      apply Hnotin. congruence.
    + apply IH.
Qed.

Lemma sequentialCandidates_NoDup net :
  NoDup (Network.sequentialCandidates net).*2.
Proof. apply collectCandidates_NoDup. Qed.

Lemma parallelCandidates_NoDup threads net :
  NoDup (Network.parallelCandidates threads net).*2.
Proof. apply thread_buffers_NoDup, NoDup_seq. Qed.

Lemma candidatesOf_NoDup build net : NoDup (Network.candidatesOf build net).*2.
Proof.
  unfold Network.candidatesOf. destruct (openmpThreads build) as [threads|].
  - destruct (_ <=? _).
    + apply parallelCandidates_NoDup.
    + apply sequentialCandidates_NoDup.
  - apply sequentialCandidates_NoDup.
Qed.

Lemma NoDup_snd_inj {A B} (l : list (A * B)) a b :
  NoDup l.*2 -> a ∈ l -> b ∈ l -> a.2 = b.2 -> a = b.
Proof.
  induction l as [|x l IH]; intros Hnd Ha Hb Heq.
  - by apply elem_of_nil in Ha.
  - rewrite fmap_cons in Hnd. apply NoDup_cons in Hnd as [Hx Hnd].
    apply elem_of_cons in Ha as [->|Ha]; apply elem_of_cons in Hb as [->|Hb].
    + done.
    + exfalso. apply Hx. rewrite Heq. by apply list_elem_of_fmap_2.
    + exfalso. apply Hx. rewrite <- Heq. by apply list_elem_of_fmap_2.
    + by apply IH.
Qed.

(** ** C3: what the Razor selects *)

(** C3 as stated fails on the tie rule.  The comparator handed to
    [std::nth_element] looks at the charge only, so which of several
    candidates of equal charge survive is the library's choice.  Under a
    conforming selection that prefers larger ids, ten candidates of equal
    charge and K = 3 let neurons 7, 8 and 9 fire while neuron 0, same charge
    and smaller id, is silenced. *)
Lemma razor_tie_break_counterexample :
  let net := beforeFiring tenAtThreshold in
  Network.razorEnabled_ net = true /\
  Network.maxSpikesPerTick_ net = 3%nat /\
  Network.candidatesOf highIdBuild net = (fun i => (5, i)) <$> seq 0 10 /\
  Network.didFire 9%nat (Network.firingPhase highIdBuild net) = true /\
  Network.didFire 0%nat (Network.firingPhase highIdBuild net) = false.
Proof. vm_compute. done. Qed.

(** C3, amended.  When the Razor is enabled and more than K candidates
    exist, the firing phase fires exactly the K candidates that
    [nth_element] places first: K distinct neurons, each with V at least as
    large as the V of every candidate that is not selected (nothing is
    promised about which of several equal charges win); every winner ends
    with V = 0 and every non-selected candidate keeps its neuron state,
    charge included, unchanged. *)
Theorem razor_selects_top_K build net :
  Network.razorEnabled_ net = true ->
  (Network.maxSpikesPerTick_ net < length (Network.candidatesOf build net))%nat ->
  let K := Network.maxSpikesPerTick_ net in
  let candidates := Network.candidatesOf build net in
  let winners := take K (nth_element build K candidates) in
  let net' := Network.firingPhase build net in
  Network.firedThisTick_ net'
    = list_to_set winners.*2 ∪ Network.firedThisTick_ net /\
  size (list_to_set winners.*2 : gset nat) = K /\
  (forall w, w ∈ winners -> w ∈ candidates) /\
  (forall w l, w ∈ winners -> l ∈ candidates -> l ∉ winners -> l.1 <= w.1) /\
  (forall w n, w ∈ winners -> Network.neurons_ net' !! w.2 = Some n ->
               Neuron.currentCharge n = 0) /\
  (forall l, l ∈ candidates -> l ∉ winners ->
             Network.neurons_ net' !! l.2 = Network.neurons_ net !! l.2).
Proof.
  intros Hr HK K candidates winners net'.
  assert (Network.razor build net (Network.candidatesOf build net) = winners)
    as Hrazor.
  { unfold Network.razor. rewrite Hr. simpl.
    by rewrite (proj2 (Nat.ltb_lt _ _) HK). }
  assert (net' = foldl (Network.fire (Network.currentTick_ net))
                   (Network.set_lastCandidateCount (length candidates) net)
                   winners) as Hnet'.
  { unfold net', Network.firingPhase. cbv zeta. by rewrite Hrazor. }
  pose proof (nth_element_perm build K candidates) as Hperm.
  assert (forall w, w ∈ winners -> w ∈ candidates) as Hsub.
  { intros w Hw. rewrite <- Hperm. by eapply subseteq_take. }
  assert (NoDup winners.*2) as Hnd.
  { unfold winners. rewrite fmap_take.
    assert (NoDup (nth_element build K candidates).*2) as Hnd'.
    { rewrite Hperm. apply candidatesOf_NoDup. }
    rewrite <- (take_drop K (nth_element build K candidates).*2) in Hnd'.
    by apply NoDup_app in Hnd' as [? _]. }
  assert (forall l, l ∈ candidates -> l ∉ winners -> l.2 ∉ winners.*2)
    as Hloser.
  { intros l Hl Hnw (w & Heq & Hw)%list_elem_of_fmap. apply Hnw.
    rewrite (NoDup_snd_inj candidates l w);
      [done|apply candidatesOf_NoDup|done|by apply Hsub|done]. }
  split_and!.
  - rewrite Hnet'. by rewrite fire_fold_fired.
  - rewrite size_list_to_set by done.
    rewrite length_fmap. unfold winners. rewrite length_take.
    apply Permutation_length in Hperm. unfold K, candidates in *. lia.
  - done.
  - intros w l Hw Hl Hnw.
    apply elem_of_take in Hw as (i & Hi & HiK).
    rewrite <- Hperm in Hl. apply list_elem_of_lookup in Hl as [j Hj].
    destruct (decide (j < K)%nat) as [HjK|HjK].
    { exfalso. apply Hnw. apply elem_of_take. eauto. }
    eapply (nth_element_part build K candidates i j); [done|lia|done..].
  - intros w n Hw Hn. rewrite Hnet' in Hn.
    eapply fire_fold_winner; [|exact Hn]. by apply list_elem_of_fmap_2.
  - intros l Hl Hnw. rewrite Hnet'.
    rewrite fire_fold_other by auto. done.
Qed.

Lemma razor_selects_top_K_witness :
  let net := beforeFiring tenAtThreshold in
  Network.razorEnabled_ net = true /\
  (Network.maxSpikesPerTick_ net < length (Network.candidatesOf lowIdBuild net))%nat /\
  size (list_to_set
          (take 3 (nth_element lowIdBuild 3 (Network.candidatesOf lowIdBuild net))).*2
        : gset nat) = 3%nat.
Proof.
  split; [reflexivity|]. split; [vm_compute; lia|].
  apply (razor_selects_top_K lowIdBuild (beforeFiring tenAtThreshold));
    [reflexivity|vm_compute; lia].
Defined.

(** ** C1: where the noise comes from *)

Lemma effectiveThreshold_quiet reduction amplitude s s' n :
  amplitude <= 0 ->
  Network.effectiveThreshold reduction amplitude s n
  = Network.effectiveThreshold reduction amplitude s' n.
Proof.
  intros HA. unfold Network.effectiveThreshold.
  by destruct (Z.gtb_spec amplitude 0); [lia|].
Qed.

Lemma sequentialCandidates_spec net v id :
  (v, id) ∈ Network.sequentialCandidates net <->
  exists n,
    Network.neurons_ net !! id = Some n /\
    Neuron.isRefractory (Network.currentTick_ net) n = false /\
    v = Neuron.currentCharge n /\
    Network.effectiveThreshold (Network.thresholdReduction net)
      (Network.noiseAmplitude net)
      (Nat.iter (drawsUpTo net id) Network.lcg
         (uint32 (Network.currentTick_ net * 1103515245 + 12345))) n
    <= Neuron.currentCharge n.
Proof.
  unfold Network.sequentialCandidates. rewrite collectCandidates_spec.
  assert (forall i n,
    Network.effectiveThreshold (Network.thresholdReduction net)
      (Network.noiseAmplitude net)
      (seedAfter (Network.currentTick_ net) (Network.noiseAmplitude net)
         (uint32 (Network.currentTick_ net * 1103515245 + 12345))
         (take (S i) (Network.neurons_ net))) n
    = Network.effectiveThreshold (Network.thresholdReduction net)
        (Network.noiseAmplitude net)
        (Nat.iter (drawsUpTo net i) Network.lcg
           (uint32 (Network.currentTick_ net * 1103515245 + 12345))) n)
    as Hseed.
  { intros i n. unfold drawsUpTo.
    destruct (Z.gtb_spec (Network.noiseAmplitude net) 0).
    - by rewrite seedAfter_iter by lia.
    - by apply effectiveThreshold_quiet. }
  split.
  - intros (i & n & -> & Hi & Hr & -> & Hthr). exists n.
    rewrite Hseed in Hthr. done.
  - intros (n & Hi & Hr & -> & Hthr). exists id, n.
    rewrite Hseed. done.
Qed.

Lemma injectNoiseLoop_spec amplitude remaining i seed net :
  (i + remaining = length (Network.neurons_ net))%nat ->
  (Brain.injectNoiseLoop amplitude remaining i seed net).1
    = Nat.iter remaining Network.lcg seed /\
  forall j n, Network.neurons_ net !! j = Some n ->
    Network.neurons_ (Brain.injectNoiseLoop amplitude remaining i seed net).2
      !! j
    = Some (if decide (i <= j)%nat
            then Neuron.addCharge
                   (Brain.noiseDraw
                      (Nat.iter (S (j - i)) Network.lcg seed) amplitude) n
            else n).
Proof.
  revert i seed net.
  induction remaining as [|r IH]; intros i seed net Hlen.
  - simpl. split; [done|]. intros j n Hj.
    pose proof (lookup_lt_Some _ _ _ Hj).
    by destruct (decide (i <= j)%nat); [lia|].
  - cbn [Brain.injectNoiseLoop].
    set (seed' := Network.lcg seed).
    set (net1 := Network.injectCharge i (Brain.noiseDraw seed' amplitude) net).
    assert (Network.neurons_ net1
            = alter (Neuron.addCharge (Brain.noiseDraw seed' amplitude)) i
                (Network.neurons_ net)) as Hns1.
    { unfold net1, Network.injectCharge.
      by destruct (Nat.ltb_spec i (length (Network.neurons_ net))); [|lia]. }
    destruct (IH (S i) seed' net1) as [Hseed Hneurons].
    { rewrite Hns1, length_alter. lia. }
    split.
    + rewrite Hseed. unfold seed'. by rewrite <- Nat.iter_succ_r.
    + intros j n Hj.
      destruct (decide (j = i)) as [->|Hne].
      * rewrite (Hneurons i (Neuron.addCharge
                               (Brain.noiseDraw seed' amplitude) n)).
        -- destruct (decide (S i <= i)%nat); [lia|].
           destruct (decide (i <= i)%nat); [|lia].
           by rewrite Nat.sub_diag.
        -- by rewrite Hns1, list_lookup_alter_eq, Hj.
      * rewrite (Hneurons j n).
        -- destruct (decide (S i <= j)%nat), (decide (i <= j)%nat);
             try lia; [|done].
           do 3 f_equal. unfold seed'.
           rewrite <- Nat.iter_succ_r. f_equal. lia.
        -- by rewrite Hns1, list_lookup_alter_ne.
Qed.

(** The tick depends on the build only through the candidates it scans
    and the winners its Razor keeps. *)
Lemma step_build_independent build1 build2 net :
  Network.candidatesOf build1 (beforeFiring net)
  = Network.candidatesOf build2 (beforeFiring net) ->
  Network.razor build1 (beforeFiring net)
    (Network.candidatesOf build1 (beforeFiring net))
  = Network.razor build2 (beforeFiring net)
      (Network.candidatesOf build2 (beforeFiring net)) ->
  Network.step build1 net = Network.step build2 net.
Proof.
  intros Hcands Hrazor. rewrite !step_unfold. unfold beforeDecay.
  unfold Network.firingPhase. cbv zeta. by rewrite Hrazor, Hcands.
Qed.

Lemma razor_idle build net candidates :
  Network.razorEnabled_ net = false \/
  (length candidates <= Network.maxSpikesPerTick_ net)%nat ->
  Network.razor build net candidates = candidates.
Proof.
  unfold Network.razor. intros [->|Hle]; [done|].
  destruct (Nat.ltb_spec (Network.maxSpikesPerTick_ net) (length candidates));
    [lia|]. by rewrite andb_false_r.
Qed.

Lemma candidatesOf_threads build1 build2 net :
  openmpThreads build1 = openmpThreads build2 ->
  Network.candidatesOf build1 net = Network.candidatesOf build2 net.
Proof. unfold Network.candidatesOf. by intros ->. Qed.

Lemma candidatesOf_sequential build net :
  openmpThreads build = None \/
  Z.of_nat (length (Network.neurons_ net)) < 100000 ->
  Network.candidatesOf build net = Network.sequentialCandidates net.
Proof.
  unfold Network.candidatesOf. intros [->|Hsmall]; [done|].
  destruct (openmpThreads build); [|done].
  by destruct (Z.leb_spec 100000 (Z.of_nat (length (Network.neurons_ net))));
    [lia|].
Qed.

Lemma parallelCandidates_spec threads net v id :
  (0 < threads)%nat ->
  (v, id) ∈ Network.parallelCandidates threads net <->
  exists n,
    Network.neurons_ net !! id = Some n /\
    Neuron.isRefractory (Network.currentTick_ net) n = false /\
    v = Neuron.currentCharge n /\
    Network.effectiveThreshold (Network.thresholdReduction net)
      (Network.noiseAmplitude net)
      (Network.lcg
         (Z.lxor (uint32 (Network.currentTick_ net * 1103515245 + 12345))
            (uint32 (Z.of_nat id)))) n
    <= Neuron.currentCharge n.
Proof.
  intros HT. unfold Network.parallelCandidates. rewrite list_elem_of_join.
  split.
  - intros (buffer & Hin & (tid & -> & _)%list_elem_of_fmap).
    apply threadScan_spec in Hin as (i & n & -> & Hi & _ & Hr & -> & Hthr).
    by exists n.
  - intros (n & Hi & Hr & -> & Hthr).
    exists (Network.threadScan threads ((id / 4096) mod threads)
              (Network.currentTick_ net) (Network.thresholdReduction net)
              (Network.noiseAmplitude net)
              (uint32 (Network.currentTick_ net * 1103515245 + 12345))
              0 (Network.neurons_ net)).
    split.
    + apply threadScan_spec. exists id, n. split_and!; done.
    + apply list_elem_of_fmap. exists ((id / 4096) mod threads)%nat.
      split; [reflexivity|].
      apply elem_of_seq. split; [lia|]. simpl.
      apply Nat.mod_upper_bound. lia.
Qed.

(** ** C7: neuromodulator spikes *)

Lemma clampVal_range v : 0 <= Neuromodulators.clampVal v <= 100.
Proof.
  unfold Neuromodulators.clampVal.
  destruct (Z.ltb_spec v 0); [by cbn|]. destruct (Z.gtb_spec v 100); lia.
Qed.

Lemma clampVal_std_clamp v : Neuromodulators.clampVal v = std_clamp v 0 100.
Proof.
  unfold Neuromodulators.clampVal, std_clamp.
  destruct (Z.ltb_spec v 0); [by cbn|].
  destruct (Z.gtb_spec v 100); destruct (Z.ltb_spec 100 v); lia.
Qed.

(** Every spike leaves all four channels in [0, 100]. *)
Lemma spike_in_range amount c :
  Neuromodulators.in_range (Neuromodulators.spikeDopamine amount c) /\
  Neuromodulators.in_range (Neuromodulators.spikeNorepinephrine amount c) /\
  Neuromodulators.in_range (Neuromodulators.spikeSerotonin amount c) /\
  Neuromodulators.in_range (Neuromodulators.spikeAcetylcholine amount c).
Proof.
  unfold Neuromodulators.in_range; simpl.
  repeat split; apply clampVal_range.
Qed.

(** As long as the sum fits in eight bits the spiked channel is the clamped
    sum. *)
Lemma spike_exact_below_overflow amount c :
  (-128 <= Neuromodulators.dopamine c + amount <= 127 ->
   Neuromodulators.dopamine (Neuromodulators.spikeDopamine amount c)
   = std_clamp (Neuromodulators.dopamine c + amount) 0 100) /\
  (-128 <= Neuromodulators.norepinephrine c + amount <= 127 ->
   Neuromodulators.norepinephrine
     (Neuromodulators.spikeNorepinephrine amount c)
   = std_clamp (Neuromodulators.norepinephrine c + amount) 0 100) /\
  (-128 <= Neuromodulators.serotonin c + amount <= 127 ->
   Neuromodulators.serotonin (Neuromodulators.spikeSerotonin amount c)
   = std_clamp (Neuromodulators.serotonin c + amount) 0 100) /\
  (-128 <= Neuromodulators.acetylcholine c + amount <= 127 ->
   Neuromodulators.acetylcholine
     (Neuromodulators.spikeAcetylcholine amount c)
   = std_clamp (Neuromodulators.acetylcholine c + amount) 0 100).
Proof.
  simpl. repeat split; intros H; by rewrite int8_small, clampVal_std_clamp.
Qed.

(** C7, the code at the failing inputs.  The sum is narrowed to eight bits
    before it is clamped: from level 90 a spike of +50 gives 140, stored as
    -116 and clamped to 0, where the clamped sum is 100.  The four channels
    share the defect. *)
Theorem spike_wraps_before_clamp :
  let c := Neuromodulators.mk 90 90 90 90 in
  Neuromodulators.dopamine (Neuromodulators.spikeDopamine 50 c) = 0 /\
  Neuromodulators.norepinephrine
    (Neuromodulators.spikeNorepinephrine 50 c) = 0 /\
  Neuromodulators.serotonin (Neuromodulators.spikeSerotonin 50 c) = 0 /\
  Neuromodulators.acetylcholine
    (Neuromodulators.spikeAcetylcholine 50 c) = 0 /\
  std_clamp (90 + 50) 0 100 = 100.
Proof. vm_compute. done. Qed.

(** ** C6: reward *)

(** Within the range of the 32-bit product, [applyReward] on a plastic,
    eligible synapse computes the documented update and clears the trace. *)
Lemma applyReward_in_range amount s :
  Synapse.wf s -> Synapse.isHebbian s = true ->
  0 < Synapse.eligibilityTrace s ->
  -2147483648 <= Synapse.eligibilityTrace s * amount <= 2147483647 ->
  Synapse.applyReward amount s
  = Synapse.mk (Synapse.targetNeuronIndex s)
      (std_clamp
         (Synapse.weight s
          + std_clamp ((Synapse.eligibilityTrace s * amount)
                         ÷ REWARD_SCALE_FACTOR) (-16) 16)
         WEIGHT_MIN WEIGHT_MAX)
      true 0.
Proof.
  intros [Hw Ht] Hp Hpos Hprod. unfold Synapse.applyReward.
  rewrite Hp. simpl.
  destruct (Z.leb_spec (Synapse.eligibilityTrace s) 0); [lia|].
  unfold Synapse.clampWeight. simpl.
  rewrite (int32_small _ Hprod).
  pose proof (std_clamp_range
                ((Synapse.eligibilityTrace s * amount) ÷ REWARD_SCALE_FACTOR)
                (-16) 16 ltac:(lia)) as Hd.
  unfold WEIGHT_MIN, WEIGHT_MAX in *.
  rewrite (int8_small (std_clamp _ (-16) 16)) by lia.
  rewrite int8_small by lia. done.
Qed.

Lemma applyReward_clears_trace amount s :
  Synapse.isHebbian s = true -> 0 <= Synapse.eligibilityTrace s ->
  Synapse.eligibilityTrace (Synapse.applyReward amount s) = 0.
Proof.
  intros Hp Ht. unfold Synapse.applyReward. rewrite Hp. simpl.
  destruct (Z.leb_spec (Synapse.eligibilityTrace s) 0); [lia|done].
Qed.

Lemma applyReward_non_plastic amount s :
  Synapse.isHebbian s = false -> Synapse.applyReward amount s = s.
Proof. intros Hp. unfold Synapse.applyReward. by rewrite Hp. Qed.

(** [injectReward] applies [applyReward] to every synapse of both stores. *)
Lemma injectReward_lookup amount net :
  (forall i, Network.synapses_ (Network.injectReward amount net) !! i
             = Synapse.applyReward amount <$> Network.synapses_ net !! i) /\
  (forall pre i,
     Network.dynamicOf pre
       (Network.dynamicSynapses_ (Network.injectReward amount net)) !! i
     = Synapse.applyReward amount
         <$> Network.dynamicOf pre (Network.dynamicSynapses_ net) !! i).
Proof.
  split.
  - intros i. simpl. apply list_lookup_fmap.
  - intros pre i. unfold Network.dynamicOf. simpl. rewrite lookup_fmap.
    destruct (Network.dynamicSynapses_ net !! pre); simpl; [|done].
    apply list_lookup_fmap.
Qed.

(** C6, the code at the failing input.  The product trace * amount is
    formed in 32 bits before the delta is clamped: with trace 99 and
    amount 30000000 it wraps to a negative value, and the synapse of weight
    0 is driven to -16 where the documented update gives +16. *)
Theorem reward_product_overflows :
  Synapse.eligibilityTrace <$> Network.synapses_ eligiblePair = [99] /\
  Synapse.weight <$> Network.synapses_ eligiblePair = [0] /\
  Network.getSynapseWeight 0%nat 1%nat
    (Network.injectReward 30000000 eligiblePair) = -16 /\
  std_clamp (0 + std_clamp ((99 * 30000000) ÷ REWARD_SCALE_FACTOR) (-16) 16)
    WEIGHT_MIN WEIGHT_MAX = 16.
Proof. vm_compute. done. Qed.

(** ** C9 and C10: what [reset] touches *)

(** C9.  [Network::reset] zeroes the tick, empties the spike queue and
    both fired sets, and gives every neuron V = 0 and
    [lastFiredStep = -refractoryDelay - 1] while keeping the neuron's
    parameters and synapse range; both synapse stores (so every weight and
    every plastic flag) are unchanged, and so are the columns of a store
    built on the network, their allocation flags included. *)
Theorem reset_clears_activity_only (u : UKS.t) :
  let net := UKS.network_ u in
  let net' := Network.reset net in
  let u' := UKS.set_network net' u in
  Network.currentTick_ net' = 0 /\
  SpikeQueue.queue_ (Network.spikeQueue_ net') = [] /\
  Network.firedThisTick_ net' = ∅ /\
  Network.firedLastTick_ net' = ∅ /\
  length (Network.neurons_ net') = length (Network.neurons_ net) /\
  (forall id n, Network.neurons_ net !! id = Some n ->
     exists n', Network.neurons_ net' !! id = Some n' /\
       Neuron.currentCharge n' = 0 /\
       Neuron.lastFiredStep n' = int32 (- Neuron.refractoryDelay n - 1) /\
       Neuron.leakRate n' = Neuron.leakRate n /\
       Neuron.threshold n' = Neuron.threshold n /\
       Neuron.refractoryDelay n' = Neuron.refractoryDelay n /\
       Neuron.synapseListIndex n' = Neuron.synapseListIndex n /\
       Neuron.synapseCount n' = Neuron.synapseCount n) /\
  Network.synapses_ net' = Network.synapses_ net /\
  Network.dynamicSynapses_ net' = Network.dynamicSynapses_ net /\
  Synapse.weight <$> Network.synapses_ net'
    = Synapse.weight <$> Network.synapses_ net /\
  Synapse.isHebbian <$> Network.synapses_ net'
    = Synapse.isHebbian <$> Network.synapses_ net /\
  UKS.columns_ u' = UKS.columns_ u /\
  CorticalColumn.isAllocated <$> UKS.columns_ u'
    = CorticalColumn.isAllocated <$> UKS.columns_ u /\
  UKS.getAllocatedCount u' = UKS.getAllocatedCount u.
Proof.
  simpl. split_and!; try done.
  - apply length_fmap.
  - intros id n Hn. exists (Neuron.reset n). split; [|done].
    by rewrite list_lookup_fmap, Hn.
Qed.

(** C10.  [Network::reset] leaves every eligibility trace as it was, in
    both synapse stores, so a reward injected after the reset changes the
    synapses exactly as it would have without the reset. *)
Theorem reset_keeps_eligibility_traces (net : Network.t) (amount : Z) :
  Synapse.eligibilityTrace <$> Network.synapses_ (Network.reset net)
    = Synapse.eligibilityTrace <$> Network.synapses_ net /\
  fmap (M:=list) Synapse.eligibilityTrace
    <$> Network.dynamicSynapses_ (Network.reset net)
    = fmap (M:=list) Synapse.eligibilityTrace
        <$> Network.dynamicSynapses_ net /\
  Network.synapses_ (Network.injectReward amount (Network.reset net))
    = Network.synapses_ (Network.injectReward amount net) /\
  Network.dynamicSynapses_ (Network.injectReward amount (Network.reset net))
    = Network.dynamicSynapses_ (Network.injectReward amount net).
Proof. done. Qed.

(** Activity before a reset still pays off after it: the trace earned by
    the pair survives the reset and a reward of +50 turns it into weight. *)
Example reward_after_reset :
  Synapse.eligibilityTrace
    <$> Network.synapses_ (Network.reset eligiblePair) = [99] /\
  Network.getSynapseWeight 0%nat 1%nat
    (Network.injectReward 50 (Network.reset eligiblePair)) = 16.
Proof. vm_compute. done. Qed.

(** ** C8: novelty and one-shot allocation *)



Lemma allocatedCount_insert k col col' cols :
  cols !! k = Some col ->
  CorticalColumn.isAllocated col = false ->
  CorticalColumn.isAllocated col' = true ->
  allocatedCount (<[k := col']> cols) = S (allocatedCount cols).
Proof.
  intros Hk Hfree Hnew. unfold allocatedCount. revert k Hk.
  induction cols as [|c cols IH]; intros [|k] Hk; try done.
  - change (<[0%nat := col']> (c :: cols)) with (col' :: cols).
    simpl in Hk. simplify_eq. rewrite !filter_cons, Hfree, Hnew.
    destruct (decide (true = true)); [|done].
    by destruct (decide (false = true)).
  - change (<[S k := col']> (c :: cols)) with (c :: <[k := col']> cols).
    rewrite !filter_cons.
    destruct (decide (CorticalColumn.isAllocated c = true));
      rewrite ?length_cons, (IH k); done.
Qed.

Lemma findFreeFrom_spec i cols c :
  UKS.findFreeFrom i cols = Some c ->
  (i <= c)%nat /\
  exists col, cols !! (c - i)%nat = Some col /\
    CorticalColumn.isAllocated col = false /\
    forall j col', (j < c - i)%nat -> cols !! j = Some col' ->
      CorticalColumn.isAllocated col' = true.
Proof.
  revert i. induction cols as [|x cols IH]; intros i; simpl; [done|].
  destruct (CorticalColumn.isAllocated x) eqn:Hx; simpl.
  - intros [Hle (col & Hcol & Hfree & Hbefore)]%IH.
    split; [lia|]. exists col.
    replace (c - i)%nat with (S (c - S i)) by lia. split_and!; [done..|].
    intros [|j] col' Hj Hl; simpl in Hl; [by simplify_eq|].
    apply (Hbefore j); [lia|done].
  - intros [= ->]. split; [lia|]. exists x. rewrite Nat.sub_diag.
    split_and!; [done..|]. intros j col' Hj. lia.
Qed.

Lemma getAllocatedCount_columns u :
  UKS.getAllocatedCount u = allocatedCount (UKS.columns_ u).
Proof. reflexivity. Qed.







#[local] Arguments Nat.modulo : clear simpl.
#[local] Arguments Nat.div : clear simpl.

(** ** The STDP curve *)

(** X1.  [calculateSTDPDelta] takes three values only: +1 for a causal pair at
    most ten ticks apart, -1 for an anti-causal pair at most ten ticks apart,
    and 0 everywhere else (simultaneous spikes, the outer half of the
    window, and beyond the window). *)

Theorem stdp_delta_closed_form (deltaT : Z) :
  calculateSTDPDelta deltaT
  = if (1 <=? deltaT) && (deltaT <=? 10) then 1
    else if (-10 <=? deltaT) && (deltaT <=? -1) then -1
    else 0.
Proof.
  unfold calculateSTDPDelta, STDP_WINDOW.
  destruct (Z.eqb_spec deltaT 0) as [->|Hnz]; [reflexivity|].
  destruct (Z.gtb_spec (Z.abs deltaT) 20) as [Hout|Hin].
  - destruct (Z.leb_spec 1 deltaT), (Z.leb_spec deltaT 10),
      (Z.leb_spec (-10) deltaT), (Z.leb_spec deltaT (-1)); simpl; lia.
  - assert ((2 * (20 - Z.abs deltaT)) ÷ 20
            = if Z.abs deltaT <=? 10 then 1 else 0) as ->.
    { rewrite Z.quot_div_nonneg by lia.
      destruct (Z.leb_spec (Z.abs deltaT) 10).
      - symmetry.
        apply (Z.div_unique _ _ 1 (2 * (20 - Z.abs deltaT) - 20)); lia.
      - apply Z.div_small. lia. }
    destruct (Z.leb_spec (Z.abs deltaT) 10);
      destruct (Z.gtb_spec deltaT 0);
      destruct (Z.leb_spec 1 deltaT), (Z.leb_spec deltaT 10),
        (Z.leb_spec (-10) deltaT), (Z.leb_spec deltaT (-1));
      simpl; try lia; reflexivity.
Qed.

(** ** The synapse's representation invariant *)

Lemma clampWeight_wf s :
  0 <= Synapse.eligibilityTrace s <= ELIGIBILITY_MAX ->
  Synapse.wf (Synapse.clampWeight s).
Proof.
  intros Ht. split; [|done]. simpl. apply std_clamp_range.
  unfold WEIGHT_MIN, WEIGHT_MAX. lia.
Qed.

Lemma markEligible_wf a b s :
  Synapse.wf s -> Synapse.wf (Synapse.markEligible a b s).
Proof.
  intros [Hw Ht]. unfold Synapse.markEligible.
  destruct (negb _); [done|]. destruct (_ && _); [|done].
  split; simpl; [done|]. unfold ELIGIBILITY_MAX. lia.
Qed.

Lemma updateWeight_wf a b s :
  Synapse.wf s -> Synapse.wf (Synapse.updateWeight a b s).
Proof.
  intros [Hw Ht]. unfold Synapse.updateWeight.
  destruct (negb _); [done|]. by apply clampWeight_wf.
Qed.

Lemma decayEligibility_wf s :
  Synapse.wf s -> Synapse.wf (Synapse.decayEligibility s).
Proof.
  intros [Hw Ht]. unfold Synapse.decayEligibility, ELIGIBILITY_DECAY.
  unfold ELIGIBILITY_MAX in *.
  destruct (Z.gtb_spec (Synapse.eligibilityTrace s) 0); [|done].
  split; simpl; [done|]. rewrite int8_small by lia.
  unfold ELIGIBILITY_MAX.
  destruct (Z.ltb_spec (Synapse.eligibilityTrace s - 1) 0); lia.
Qed.

Lemma applyReward_wf amount s :
  Synapse.wf s -> Synapse.wf (Synapse.applyReward amount s).
Proof.
  intros [Hw Ht]. unfold Synapse.applyReward.
  destruct (_ || _); [done|]. cbv zeta. split; simpl.
  - apply std_clamp_range. unfold WEIGHT_MIN, WEIGHT_MAX. lia.
  - unfold ELIGIBILITY_MAX. lia.
Qed.

Lemma make_wf target w plastic : Synapse.wf (Synapse.make target w plastic).
Proof. apply clampWeight_wf. simpl. unfold ELIGIBILITY_MAX. lia. Qed.



(** ** Eligibility window *)

(** X3.  [n] calls of [decayEligibility] lower the trace by [n], stopping at 0,
    and touch nothing else: a trace marked at 100 lasts exactly 100 decays. *)

Theorem eligibility_trace_decays_linearly s (n : nat) :
  Synapse.wf s ->
  Nat.iter n Synapse.decayEligibility s
  = Synapse.mk (Synapse.targetNeuronIndex s) (Synapse.weight s)
      (Synapse.isHebbian s)
      (Z.max 0 (Synapse.eligibilityTrace s - Z.of_nat n)).
Proof.
  intros [Hw Ht]. unfold ELIGIBILITY_MAX in Ht.
  induction n as [|n IH].
  - simpl. rewrite Z.sub_0_r, Z.max_r by lia. by destruct s.
  - rewrite Nat.iter_succ, IH. unfold Synapse.decayEligibility.
    cbn [Synapse.eligibilityTrace Synapse.targetNeuronIndex Synapse.weight
         Synapse.isHebbian].
    unfold ELIGIBILITY_DECAY.
    destruct (Z.gtb_spec (Z.max 0 (Synapse.eligibilityTrace s - Z.of_nat n)) 0)
      as [Hpos|Hzero].
    + rewrite int8_small by lia.
      destruct (Z.ltb_spec
                  (Z.max 0 (Synapse.eligibilityTrace s - Z.of_nat n) - 1) 0);
        f_equal; lia.
    + f_equal. lia.
Qed.

Lemma eligibility_trace_decays_linearly_witness :
  Synapse.wf (Synapse.mk 1 0 true 100) /\
  Nat.iter 100 Synapse.decayEligibility (Synapse.mk 1 0 true 100)
  = Synapse.mk 1 0 true 0.
Proof.
  assert (Synapse.wf (Synapse.mk 1 0 true 100)) as Hwf.
  { unfold Synapse.wf, WEIGHT_MIN, WEIGHT_MAX, ELIGIBILITY_MAX. simpl. lia. }
  split; [exact Hwf|].
  exact (eligibility_trace_decays_linearly (Synapse.mk 1 0 true 100) 100 Hwf).
Defined.

(** ** Reward is paid once *)

Ltac net_fields :=
  unfold Network.set_currentTick, Network.set_plasticityEnabled,
    Network.set_operantMode, Network.set_razorEnabled,
    Network.set_maxSpikesPerTick, Network.set_lastCandidateCount,
    Network.set_chemicals, Network.set_neurons, Network.set_synapses,
    Network.set_dynamicSynapses, Network.set_spikeQueue,
    Network.set_firedThisTick, Network.set_firedLastTick,
    Network.set_refractoryBits;
  cbn [Network.currentTick_ Network.plasticityEnabled_ Network.operantMode_
       Network.razorEnabled_ Network.maxSpikesPerTick_
       Network.lastCandidateCount_ Network.chemicals_ Network.neurons_
       Network.synapses_ Network.dynamicSynapses_ Network.spikeQueue_
       Network.firedThisTick_ Network.firedLastTick_ Network.refractoryBits_].

Lemma applyReward_twice a b s :
  Synapse.applyReward b (Synapse.applyReward a s) = Synapse.applyReward a s.
Proof.
  destruct (negb (Synapse.isHebbian s) || (Synapse.eligibilityTrace s <=? 0))
    eqn:Hskip.
  - assert (Synapse.applyReward a s = s) as ->.
    { unfold Synapse.applyReward. by rewrite Hskip. }
    unfold Synapse.applyReward. by rewrite Hskip.
  - assert (Synapse.eligibilityTrace (Synapse.applyReward a s) = 0) as Hz.
    { unfold Synapse.applyReward. by rewrite Hskip. }
    unfold Synapse.applyReward at 1. rewrite Hz.
    change (0 <=? 0) with true. by rewrite orb_true_r.
Qed.

(** X4.  A second reward finds every trace spent: [applyReward] after
    [applyReward] changes nothing, whatever the two amounts, and so does
    [injectReward] after [injectReward] on the whole network. *)
Theorem reward_is_paid_once a b s net :
  Synapse.applyReward b (Synapse.applyReward a s) = Synapse.applyReward a s /\
  Network.injectReward b (Network.injectReward a net)
  = Network.injectReward a net.
Proof.
  split; [apply applyReward_twice|].
  destruct net. unfold Network.injectReward. net_fields. f_equal.
  - rewrite <- list_fmap_compose. apply list_fmap_ext.
    intros i x _. apply applyReward_twice.
  - rewrite <- map_fmap_compose. apply map_fmap_ext.
    intros i l _. simpl. rewrite <- list_fmap_compose. apply list_fmap_ext.
    intros j x _. apply applyReward_twice.
Qed.

(** ** The clock and the configuration *)

Lemma run_S_end build k net :
  Network.run build (S k) net = Network.step build (Network.run build k net).
Proof.
  revert net. induction k as [|k IH]; intros net; [done|].
  change (Network.run build (S (S k)) net)
    with (Network.run build (S k) (Network.step build net)).
  by rewrite IH.
Qed.

Lemma step_chemicals build net :
  Network.chemicals_ (Network.step build net)
  = afterChemistry (Network.chemicals_ net).
Proof.
  unfold afterChemistry. cbv zeta.
  destruct (Neuromodulators.norepinephrine
              (Neuromodulators.decay (Network.chemicals_ net)) >=? 95) eqn:Hp.
  - rewrite step_panics by done. simpl. by rewrite beforeDecay_chemicals.
  - rewrite step_calm by done. simpl. by rewrite beforeDecay_chemicals.
Qed.

(** The last three blocks of the tick: chemistry decay, panic test,
    clock. *)
Lemma tick_tail_config X :
  let X' := Network.endTick (Network.panicStage (Network.chemistryStage X)) in
  Network.currentTick_ X' = Network.currentTick_ X + 1 /\
  Network.plasticityEnabled_ X' = Network.plasticityEnabled_ X /\
  Network.operantMode_ X' = Network.operantMode_ X /\
  Network.razorEnabled_ X' = Network.razorEnabled_ X /\
  Network.maxSpikesPerTick_ X' = Network.maxSpikesPerTick_ X.
Proof.
  destruct X. cbv zeta. unfold Network.panicStage.
  cbn [Network.chemistryStage Network.set_chemicals Network.chemicals_].
  destruct (_ >=? 95); simpl; done.
Qed.

Lemma step_config build net :
  Network.currentTick_ (Network.step build net) = Network.currentTick_ net + 1 /\
  Network.plasticityEnabled_ (Network.step build net)
    = Network.plasticityEnabled_ net /\
  Network.operantMode_ (Network.step build net) = Network.operantMode_ net /\
  Network.razorEnabled_ (Network.step build net) = Network.razorEnabled_ net /\
  Network.maxSpikesPerTick_ (Network.step build net)
    = Network.maxSpikesPerTick_ net.
Proof.
  pose proof (beforeDecay_settings build net) as H. unfold settings in H.
  rewrite step_unfold.
  destruct (tick_tail_config (beforeDecay build net)) as (-> & -> & -> & -> & ->).
  split_and!; congruence.
Qed.

Lemma decay1_towards base v :
  Z.abs (Neuromodulators.decay1 base v - base) = Z.max 0 (Z.abs (v - base) - 1).
Proof.
  unfold Neuromodulators.decay1.
  destruct (Z.gtb_spec v base); [lia|]. destruct (Z.ltb_spec v base); lia.
Qed.

Lemma decay1_range base v :
  0 <= base <= 100 -> 0 <= v <= 100 ->
  0 <= Neuromodulators.decay1 base v <= 100.
Proof.
  intros Hb Hv. unfold Neuromodulators.decay1.
  destruct (Z.gtb_spec v base); [lia|]. destruct (Z.ltb_spec v base); lia.
Qed.

Lemma max4_decrease a b c d a' b' c' d' :
  a' <= Z.max 0 (a - 1) -> b' <= Z.max 0 (b - 1) ->
  c' <= Z.max 0 (c - 1) -> d' <= Z.max 0 (d - 1) ->
  Z.max a' (Z.max b' (Z.max c' d'))
  <= Z.max 0 (Z.max a (Z.max b (Z.max c d)) - 1).
Proof. lia. Qed.

Lemma afterChemistry_settles c :
  Neuromodulators.in_range c ->
  Neuromodulators.in_range (afterChemistry c) /\
  imbalance (afterChemistry c) <= Z.max 0 (imbalance c - 1).
Proof.
  intros (Hd & Hn & Hs & Ha).
  pose proof (decay1_towards 50 (Neuromodulators.dopamine c)) as Td.
  pose proof (decay1_towards 30 (Neuromodulators.norepinephrine c)) as Tn.
  pose proof (decay1_towards 50 (Neuromodulators.serotonin c)) as Ts.
  pose proof (decay1_towards 50 (Neuromodulators.acetylcholine c)) as Ta.
  pose proof (decay1_range 50 (Neuromodulators.dopamine c)
                ltac:(lia) Hd) as Rd.
  pose proof (decay1_range 30 (Neuromodulators.norepinephrine c)
                ltac:(lia) Hn) as Rn.
  pose proof (decay1_range 50 (Neuromodulators.serotonin c)
                ltac:(lia) Hs) as Rs.
  pose proof (decay1_range 50 (Neuromodulators.acetylcholine c)
                ltac:(lia) Ha) as Ra.
  unfold afterChemistry. cbv zeta.
  cbn [Neuromodulators.decay Neuromodulators.norepinephrine].
  destruct (Z.geb_spec
              (Neuromodulators.decay1 30 (Neuromodulators.norepinephrine c)) 95)
    as [Hpanic|Hcalm].
  - split.
    + unfold Neuromodulators.in_range. simpl. lia.
    + unfold imbalance. simpl. apply max4_decrease.
      * rewrite Td. lia.
      * assert (65 <= Z.abs (Neuromodulators.decay1 30
                               (Neuromodulators.norepinephrine c) - 30))
          as H65 by lia.
        rewrite Tn in H65. change (Z.abs (70 - 30)) with 40. lia.
      * rewrite Ts. lia.
      * rewrite Ta. lia.
  - split.
    + unfold Neuromodulators.in_range. simpl. lia.
    + unfold imbalance. simpl. apply max4_decrease.
      * rewrite Td. lia.
      * rewrite Tn. lia.
      * rewrite Ts. lia.
      * rewrite Ta. lia.
Qed.

Lemma afterChemistry_iter c (n : nat) :
  Neuromodulators.in_range c ->
  Neuromodulators.in_range (Nat.iter n afterChemistry c) /\
  imbalance (Nat.iter n afterChemistry c)
  <= Z.max 0 (imbalance c - Z.of_nat n).
Proof.
  intros Hc. induction n as [|n [IHr IHd]].
  - simpl. split; [done|]. unfold imbalance. lia.
  - rewrite Nat.iter_succ.
    destruct (afterChemistry_settles _ IHr) as [Hr Hd]. split; [done|]. lia.
Qed.

Lemma balanced_is_baseline c : imbalance c <= 0 -> c = Neuromodulators.init.
Proof.
  unfold imbalance, Neuromodulators.init. destruct c as [d n s a]. simpl.
  intros H. f_equal; lia.
Qed.

Lemma run_chemicals build (n : nat) net :
  Network.chemicals_ (Network.run build n net)
  = Nat.iter n afterChemistry (Network.chemicals_ net).
Proof.
  induction n as [|n IH]; [done|].
  by rewrite run_S_end, step_chemicals, IH.
Qed.

(** X5.  Homeostasis.  Left to itself (ticks only, no external signal), a
    network whose four levels are in [0, 100] is back at the baseline
    DA 50, NE 30, 5-HT 50, ACh 50 after 70 ticks at most, and stays there;
    a panic reset on the way only shortens the return. *)
Theorem chemistry_returns_to_baseline build (n : nat) net :
  Neuromodulators.in_range (Network.chemicals_ net) ->
  (70 <= n)%nat ->
  Network.chemicals_ (Network.run build n net) = Neuromodulators.init.
Proof.
  intros Hr Hn. rewrite run_chemicals. apply balanced_is_baseline.
  destruct (afterChemistry_iter (Network.chemicals_ net) n Hr) as [_ Hd].
  assert (imbalance (Network.chemicals_ net) <= 70).
  { destruct Hr as (? & ? & ? & ?). unfold imbalance. lia. }
  lia.
Qed.

Lemma chemistry_returns_to_baseline_witness :
  Neuromodulators.in_range (Network.chemicals_ (aroused 70)) /\
  Network.chemicals_ (Network.run lowIdBuild 70 (aroused 70))
  = Neuromodulators.init.
Proof.
  assert (Neuromodulators.in_range (Network.chemicals_ (aroused 70))) as Hr.
  { vm_compute. repeat split; discriminate. }
  split; [exact Hr|].
  apply (chemistry_returns_to_baseline lowIdBuild 70 (aroused 70) Hr). lia.
Defined.

(** ** Neurons under a tick *)

Lemma fmap_alter_frame {A B} (g : A -> B) (f : A -> A) (i : nat) (l : list A) :
  (forall x, g (f x) = g x) -> g <$> alter f i l = g <$> l.
Proof.
  intros Hf. apply list_eq. intros j.
  rewrite !list_lookup_fmap, list_lookup_alter.
  destruct (decide (i = j)) as [->|]; [|done].
  destruct (l !! j); simpl; [|done]. by rewrite Hf.
Qed.

Lemma leakagePhase_exceptCharge net :
  exceptCharge <$> Network.neurons_ (Network.leakagePhase net)
  = exceptCharge <$> Network.neurons_ net.
Proof.
  unfold Network.leakagePhase. net_fields.
  rewrite <- list_fmap_compose. apply list_fmap_ext. intros i n _. simpl.
  unfold Network.leakNeuron. destruct (Neuron.isRefractory _ n); [done|].
  by destruct (_ && _).
Qed.

Lemma deliver_exceptCharge bits k ns syn :
  exceptCharge <$> Network.deliver bits k ns syn = exceptCharge <$> ns.
Proof.
  unfold Network.deliver. destruct (_ && _); [|done].
  by apply fmap_alter_frame.
Qed.

Lemma integrateSpike_exceptCharge bits syns dyn ns fired :
  exceptCharge <$> Network.integrateSpike bits syns dyn ns fired
  = exceptCharge <$> ns.
Proof.
  unfold Network.integrateSpike. destruct (ns !! fired); [|done].
  rewrite (foldl_preserves _ (fmap exceptCharge))
    by (intros; apply deliver_exceptCharge).
  apply (foldl_preserves _ (fmap exceptCharge)).
  intros; apply deliver_exceptCharge.
Qed.

Lemma integrationPhase_exceptCharge net :
  exceptCharge <$> Network.neurons_ (Network.integrationPhase net)
  = exceptCharge <$> Network.neurons_ net.
Proof.
  unfold Network.integrationPhase.
  destruct (SpikeQueue.getSpikesForTick _ _) as [spikes q]. net_fields.
  apply (foldl_preserves _ (fmap exceptCharge)).
  intros; apply integrateSpike_exceptCharge.
Qed.

Lemma beforeFiring_exceptCharge net :
  exceptCharge <$> Network.neurons_ (beforeFiring net)
  = exceptCharge <$> Network.neurons_ net.
Proof.
  unfold beforeFiring.
  by rewrite integrationPhase_exceptCharge, leakagePhase_exceptCharge.
Qed.

Lemma fire_fold_parameters tk (winners : list (Z * nat)) net :
  parameters <$> Network.neurons_ (foldl (Network.fire tk) net winners)
  = parameters <$> Network.neurons_ net.
Proof.
  apply (foldl_preserves _ (fun x => parameters <$> Network.neurons_ x)).
  intros a b. unfold Network.fire. net_fields. by apply fmap_alter_frame.
Qed.

Lemma fmap_eq_lookup {A B} (g : A -> B) (l l' : list A) i x :
  g <$> l' = g <$> l -> l !! i = Some x ->
  exists x', l' !! i = Some x' /\ g x' = g x.
Proof.
  intros Heq Hx. apply (f_equal (fun k => k !! i)) in Heq.
  rewrite !list_lookup_fmap, Hx in Heq.
  destruct (l' !! i) as [x'|]; simplify_eq/=. by exists x'.
Qed.

Lemma beforeFiring_tick net :
  Network.currentTick_ (beforeFiring net) = Network.currentTick_ net.
Proof.
  pose proof (beforeFiring_settings net) as H. unfold settings in H.
  congruence.
Qed.

(** What a complete tick does to one neuron. *)
Lemma step_neuron build net id n :
  Network.neurons_ net !! id = Some n ->
  exists n',
    Network.neurons_ (Network.step build net) !! id = Some n' /\
    parameters n' = parameters n /\
    if decide (id ∈ (winnersOf build net).*2)
    then Neuron.lastFiredStep n' = Network.currentTick_ net /\
         Neuron.currentCharge n' = 0
    else Neuron.lastFiredStep n' = Neuron.lastFiredStep n.
Proof.
  intros Hn.
  destruct (fmap_eq_lookup exceptCharge _ _ id n
              (beforeFiring_exceptCharge net) Hn) as (nb & Hnb & Hbe).
  set (fired := Network.firingPhase build (beforeFiring net)).
  assert (exists nf, Network.neurons_ fired !! id = Some nf /\
            parameters nf = parameters n /\
            if decide (id ∈ (winnersOf build net).*2)
            then Neuron.lastFiredStep nf = Network.currentTick_ net /\
                 Neuron.currentCharge nf = 0
            else Neuron.lastFiredStep nf = Neuron.lastFiredStep n)
    as (nf & Hnf & Hpar & Hlast).
  { destruct (fmap_eq_lookup parameters (Network.neurons_ (beforeFiring net))
                (Network.neurons_ fired) id nb)
      as (nf & Hnf & Hpf); [|done|].
    { unfold fired, Network.firingPhase. by rewrite fire_fold_parameters. }
    exists nf. split; [done|]. split.
    { rewrite Hpf. unfold exceptCharge in Hbe. congruence. }
    destruct (decide _) as [Hin|Hout].
    - unfold fired, Network.firingPhase in Hnf.
      destruct (fire_fold_winner _ _ _ id nf Hin Hnf) as [Hc Hl].
      cbn in Hl. rewrite beforeFiring_tick in Hl. done.
    - unfold fired, Network.firingPhase in Hnf.
      rewrite fire_fold_other in Hnf by done. cbn in Hnf.
      unfold exceptCharge in Hbe. congruence. }
  rewrite step_neurons. fold fired. destruct (panics net).
  - exists (Neuron.set_charge 0 nf). rewrite list_lookup_fmap, Hnf.
    split; [done|]. split; [done|].
    destruct (decide _); [|done]. by destruct Hlast.
  - by exists nf.
Qed.

(** ** Who can fire *)

Lemma razor_subset build net candidates w :
  w ∈ Network.razor build net candidates -> w ∈ candidates.
Proof.
  unfold Network.razor. destruct (_ && _); [|done].
  intros Hw. rewrite <- (nth_element_perm build (Network.maxSpikesPerTick_ net)).
  by eapply subseteq_take.
Qed.

Lemma parallelCandidates_awake threads net c :
  c ∈ Network.parallelCandidates threads net ->
  exists n, Network.neurons_ net !! c.2 = Some n /\
            Neuron.isRefractory (Network.currentTick_ net) n = false.
Proof.
  unfold Network.parallelCandidates.
  intros (buf & Hc & Hbuf)%list_elem_of_join.
  apply list_elem_of_fmap in Hbuf as (tid & -> & _).
  destruct c as [v id].
  apply threadScan_spec in Hc as (i & n & -> & Hn & _ & Hr & _).
  exists n. by rewrite Nat.add_0_l.
Qed.

Lemma candidate_awake build net c :
  c ∈ Network.candidatesOf build net ->
  exists n, Network.neurons_ net !! c.2 = Some n /\
            Neuron.isRefractory (Network.currentTick_ net) n = false.
Proof.
  assert (c ∈ Network.sequentialCandidates net ->
          exists n, Network.neurons_ net !! c.2 = Some n /\
                    Neuron.isRefractory (Network.currentTick_ net) n = false)
    as Hseq.
  { destruct c as [v id].
    intros (n & Hn & Hr & _)%sequentialCandidates_spec. by exists n. }
  unfold Network.candidatesOf.
  destruct (openmpThreads build) as [threads|]; [|done].
  destruct (100000 <=? _); [|done]. apply parallelCandidates_awake.
Qed.

(** A winner of the tick was not refractory when the tick began. *)
Lemma winner_awake build net id :
  id ∈ (winnersOf build net).*2 ->
  exists n, Network.neurons_ net !! id = Some n /\
            Neuron.isRefractory (Network.currentTick_ net) n = false.
Proof.
  intros (w & -> & Hw)%list_elem_of_fmap.
  apply razor_subset, candidate_awake in Hw as (nb & Hnb & Hr).
  rewrite beforeFiring_tick in Hr.
  assert (exists n, Network.neurons_ net !! w.2 = Some n) as [n Hn].
  { apply lookup_lt_is_Some. rewrite <- beforeFiring_length.
    by eapply lookup_lt_Some. }
  destruct (fmap_eq_lookup exceptCharge _ _ w.2 n
              (beforeFiring_exceptCharge net) Hn) as (nb' & Hnb' & Hbe).
  simplify_eq. exists n. split; [done|].
  unfold exceptCharge, parameters in Hbe. unfold Neuron.isRefractory in *.
  simplify_eq. congruence.
Qed.

Lemma step_fired_subset build net id :
  id ∈ Network.firedThisTick_ (Network.step build net) ->
  panics net = false /\ id ∈ (winnersOf build net).*2.
Proof.
  rewrite step_fired. destruct (panics net); [set_solver|].
  intros Hid. split; [done|]. unfold winnersOf. set_solver.
Qed.

(** X6.  The refractory period is honoured.  A neuron that fires on a tick is
    in none of the fired sets of the next [refractoryDelay] ticks. *)
Theorem fired_neuron_rests_while_refractory build net id n (k : nat) :
  id ∈ Network.firedThisTick_ (Network.step build net) ->
  Network.neurons_ net !! id = Some n ->
  (1 <= k)%nat -> Z.of_nat k <= Neuron.refractoryDelay n ->
  id ∉ Network.firedThisTick_ (Network.run build k (Network.step build net)).
Proof.
  intros Hfired Hn Hk HkR.
  assert (forall j : nat, Z.of_nat j <= Neuron.refractoryDelay n ->
            Network.currentTick_ (Network.run build j (Network.step build net))
              = Network.currentTick_ net + 1 + Z.of_nat j /\
            (exists nj,
               Network.neurons_ (Network.run build j (Network.step build net))
                 !! id = Some nj /\
               Neuron.lastFiredStep nj = Network.currentTick_ net /\
               Neuron.refractoryDelay nj = Neuron.refractoryDelay n) /\
            ((1 <= j)%nat ->
             id ∉ Network.firedThisTick_
                    (Network.run build j (Network.step build net)))) as Hinv.
  { induction j as [|j IH]; intros Hj.
    - cbn [Network.run]. split; [|split; [|lia]].
      + destruct (step_config build net) as [-> _]. lia.
      + destruct (step_fired_subset build net id Hfired) as [_ Hw].
        destruct (step_neuron build net id n Hn) as (n' & Hn' & Hpar & Hlast).
        destruct (decide _); [|done]. exists n'. split; [done|].
        split; [by destruct Hlast|]. unfold parameters in Hpar. congruence.
    - destruct IH as (Htick & (nj & Hnj & Hlast & Hdelay) & _); [lia|].
      rewrite run_S_end.
      set (netj := Network.run build j (Network.step build net)) in *.
      assert (id ∉ (winnersOf build netj).*2) as Hout.
      { intros (nj' & Hnj' & Hawake)%winner_awake. simplify_eq.
        unfold Neuron.isRefractory in Hawake.
        rewrite Htick, Hlast, Hdelay in Hawake.
        apply Z.leb_gt in Hawake. lia. }
      split; [|split].
      + destruct (step_config build netj) as [-> _]. lia.
      + destruct (step_neuron build netj id nj Hnj)
          as (n' & Hn' & Hpar & Hl).
        destruct (decide _); [done|]. exists n'. split; [done|].
        split; [congruence|]. unfold parameters in Hpar. congruence.
      + intros _ Hin. by apply step_fired_subset in Hin as [_ Hin]. }
  destruct (Hinv k HkR) as (_ & _ & Hnot). by apply Hnot.
Qed.

Lemma fired_neuron_rests_while_refractory_witness :
  (0%nat ∈ Network.firedThisTick_
             (Network.step lowIdBuild
                (Network.injectCharge 0%nat 20
                   (addNeuron' 10 1 2 (Network.make 1))))) /\
  0%nat ∉ Network.firedThisTick_
            (Network.run lowIdBuild 2
               (Network.step lowIdBuild
                  (Network.injectCharge 0%nat 20
                     (addNeuron' 10 1 2 (Network.make 1))))).
Proof.
  assert (0%nat ∈ Network.firedThisTick_
            (Network.step lowIdBuild
               (Network.injectCharge 0%nat 20
                  (addNeuron' 10 1 2 (Network.make 1))))) as Hf.
  { vm_compute. set_solver. }
  split; [exact Hf|].
  apply (fired_neuron_rests_while_refractory lowIdBuild
           (Network.injectCharge 0%nat 20 (addNeuron' 10 1 2 (Network.make 1)))
           0%nat (Neuron.mk 20 1 10 (-3) 2 0 0) 2 Hf).
  - reflexivity.
  - lia.
  - simpl. lia.
Defined.

(** ** What a tick leaves of the structure *)

Lemma step_parameters build net :
  parameters <$> Network.neurons_ (Network.step build net)
  = parameters <$> Network.neurons_ net.
Proof.
  assert (parameters <$> Network.neurons_
                           (Network.firingPhase build (beforeFiring net))
          = parameters <$> Network.neurons_ net) as Hf.
  { unfold Network.firingPhase. rewrite fire_fold_parameters. net_fields.
    pose proof (beforeFiring_exceptCharge net) as H.
    apply (f_equal (fmap fst)) in H.
    by rewrite <- !list_fmap_compose in H. }
  rewrite step_neurons. destruct (panics net); [|done].
  rewrite <- list_fmap_compose. by rewrite <- Hf.
Qed.

Lemma run_switches build (k : nat) net :
  Network.plasticityEnabled_ (Network.run build k net)
    = Network.plasticityEnabled_ net /\
  Network.operantMode_ (Network.run build k net) = Network.operantMode_ net.
Proof.
  induction k as [|k [IHp IHo]]; [done|].
  rewrite run_S_end.
  by destruct (step_config build (Network.run build k net))
    as (_ & -> & -> & _).
Qed.

(** X7.  [run] advances the clock by the number of ticks and never touches the
    configuration: plasticity switch, learning mode, Razor switch and K
    are what they were, whatever happened on the way (panic resets
    included). *)
Theorem run_advances_clock_only build (k : nat) net :
  Network.currentTick_ (Network.run build k net)
    = Network.currentTick_ net + Z.of_nat k /\
  Network.plasticityEnabled_ (Network.run build k net)
    = Network.plasticityEnabled_ net /\
  Network.operantMode_ (Network.run build k net) = Network.operantMode_ net /\
  Network.razorEnabled_ (Network.run build k net) = Network.razorEnabled_ net /\
  Network.maxSpikesPerTick_ (Network.run build k net)
    = Network.maxSpikesPerTick_ net.
Proof.
  induction k as [|k (IHt & IHp & IHo & IHr & IHm)].
  - cbn [Network.run]. split_and!; try done. lia.
  - rewrite run_S_end.
    destruct (step_config build (Network.run build k net))
      as (-> & -> & -> & -> & ->).
    split_and!; try done. lia.
Qed.

Lemma beforeFiring_stores net :
  synapseStores (beforeFiring net) = synapseStores net.
Proof.
  unfold beforeFiring, Network.integrationPhase.
  by destruct (SpikeQueue.getSpikesForTick _ _).
Qed.

Lemma firingPhase_stores build net :
  synapseStores (Network.firingPhase build net) = synapseStores net.
Proof.
  unfold Network.firingPhase.
  by rewrite (foldl_preserves _ synapseStores).
Qed.

Lemma tick_tail_stores X :
  synapseStores
    (Network.endTick (Network.panicStage (Network.chemistryStage X)))
  = synapseStores X.
Proof.
  destruct X. unfold Network.panicStage.
  cbn [Network.chemistryStage Network.set_chemicals Network.chemicals_].
  destruct (_ >=? 95); simpl; done.
Qed.

Lemma step_stores build net :
  synapseStores (Network.step build net) = synapseStores (beforeDecay build net).
Proof. rewrite step_unfold. apply tick_tail_stores. Qed.

Section Pointwise.

Context (R : relation Synapse.t) `{!PreOrder R}.

Lemma evolves_same net net' :
  synapseStores net' = synapseStores net -> evolves R net net'.
Proof.
  unfold synapseStores, evolves. intros [= -> ->]. split; [reflexivity|].
  intros pre. destruct (_ !! pre); constructor. reflexivity.
Qed.

Lemma evolves_trans net1 net2 net3 :
  evolves R net1 net2 -> evolves R net2 net3 -> evolves R net1 net3.
Proof.
  intros [H1 H1'] [H2 H2']. split; [etrans; [exact H1|exact H2]|].
  intros pre. etrans; [apply H1'|apply H2'].
Qed.

Lemma alter_pointwise (f : Synapse.t -> Synapse.t) i l :
  (forall x, R x (f x)) -> Forall2 R l (alter f i l).
Proof.
  intros Hf. revert i. induction l as [|x l IH]; intros [|i]; simpl.
  - constructor.
  - constructor.
  - constructor; [apply Hf|done].
  - constructor; [done|apply IH].
Qed.

Lemma fmap_pointwise (f : Synapse.t -> Synapse.t) l :
  (forall x, R x (f x)) -> Forall2 R l (f <$> l).
Proof.
  intros Hf. induction l as [|x l IH]; simpl; constructor; [apply Hf|done].
Qed.

Lemma mapContiguous_pointwise f pre syns :
  (forall x, R x (f x)) -> Forall2 R syns (Network.mapContiguous f pre syns).
Proof.
  intros Hf. unfold Network.mapContiguous.
  generalize (seq 0 (Neuron.synapseCount pre)). intros ids.
  assert (forall acc, Forall2 R syns acc ->
            Forall2 R syns
              (foldl (fun acc i =>
                        alter f (Neuron.synapseListIndex pre + i)%nat acc)
                 acc ids)) as H.
  { induction ids as [|i ids IH]; intros acc Hacc; simpl; [done|].
    apply IH. etrans; [done|]. by apply alter_pointwise. }
  by apply H.
Qed.

Lemma sweepPre_evolves f net preId :
  (forall id pre s, R s (f id pre s)) ->
  evolves R net (Network.sweepPre f net preId).
Proof.
  intros Hf. unfold Network.sweepPre.
  destruct (Network.neurons_ net !! preId) as [pre|]; [|by apply evolves_same].
  split; net_fields.
  - by apply mapContiguous_pointwise.
  - intros k. rewrite lookup_alter.
    destruct (decide (preId = k)) as [->|]; [|done].
    destruct (Network.dynamicSynapses_ net !! k); simpl; constructor.
    by apply fmap_pointwise.
Qed.

Lemma sweep_fold_evolves f net ids :
  (forall id pre s, R s (f id pre s)) ->
  evolves R net (foldl (Network.sweepPre f) net ids).
Proof.
  intros Hf. revert net. induction ids as [|i ids IH]; intros net; simpl.
  - by apply evolves_same.
  - eapply evolves_trans; [by apply sweepPre_evolves|apply IH].
Qed.

Lemma plasticityPhase_evolves net :
  (Network.operantMode_ net = true ->
   forall a b s, R s (Synapse.markEligible a b s)) ->
  (Network.operantMode_ net = false ->
   forall a b s, R s (Synapse.updateWeight a b s)) ->
  evolves R net (Network.plasticityPhase net).
Proof.
  intros Hmark Hupd. unfold Network.plasticityPhase.
  destruct (_ <? 10); [by apply evolves_same|]. cbv zeta.
  assert (forall id (pre : Neuron.t) s,
            R s (Network.ltpSynapse (Network.operantMode_ net)
                   (Network.neurons_ net) (Network.firedThisTick_ net) id s))
    as Hltp.
  { intros id _ s. unfold Network.ltpSynapse, Network.applySTDP.
    destruct (bool_decide _); [|done]. destruct (negb _); [done|].
    destruct (_ !! id); [|done]. destruct (_ !! _); [|done].
    destruct (Network.operantMode_ net) eqn:Hop; [by apply Hmark|].
    by apply Hupd. }
  destruct (Network.operantMode_ net) eqn:Hop; simpl.
  - apply sweep_fold_evolves. intros id pre s. apply Hltp, pre.
  - eapply evolves_trans.
    + apply sweep_fold_evolves. intros id pre s. apply Hltp, pre.
    + apply sweep_fold_evolves.
      intros _ pre s. unfold Network.ltdSynapse.
      destruct (_ && _); [|done]. destruct (_ !! _); [|done].
      destruct (_ && _); [|done]. by apply Hupd.
Qed.

Lemma decayEligibilityTraces_evolves net :
  (forall s, R s (Synapse.decayEligibility s)) ->
  evolves R net (Network.decayEligibilityTraces net).
Proof.
  intros Hd. unfold Network.decayEligibilityTraces. split; net_fields.
  - by apply fmap_pointwise.
  - intros k. rewrite lookup_fmap.
    destruct (Network.dynamicSynapses_ net !! k); simpl; constructor.
    by apply fmap_pointwise.
Qed.

(** The synapses after a tick, related pointwise to the synapses before
    it, given that the updates the tick can make in its mode respect [R]. *)
Lemma step_evolves build net :
  (Network.plasticityEnabled_ net = true ->
   10 <= Neuromodulators.dopamine (Network.chemicals_ net) ->
   Network.operantMode_ net = true ->
   forall a b s, R s (Synapse.markEligible a b s)) ->
  (Network.plasticityEnabled_ net = true ->
   10 <= Neuromodulators.dopamine (Network.chemicals_ net) ->
   Network.operantMode_ net = false ->
   forall a b s, R s (Synapse.updateWeight a b s)) ->
  (Network.operantMode_ net = true ->
   forall s, R s (Synapse.decayEligibility s)) ->
  evolves R net (Network.step build net).
Proof.
  intros Hmark Hupd Hdec.
  set (F := Network.firingPhase build (beforeFiring net)).
  assert (settings F = settings net) as HF.
  { unfold F. by rewrite firingPhase_settings, beforeFiring_settings. }
  unfold settings in HF.
  assert (evolves R net F) as H1.
  { apply evolves_same. unfold F.
    by rewrite firingPhase_stores, beforeFiring_stores. }
  assert (evolves R F (Network.plasticityStage F)) as H2.
  { unfold Network.plasticityStage.
    destruct (Network.plasticityEnabled_ F) eqn:Hp; [|by apply evolves_same].
    destruct (Z.ltb_spec (Neuromodulators.dopamine (Network.chemicals_ F)) 10)
      as [Hlow|Hhigh].
    { apply evolves_same. unfold Network.plasticityPhase.
      by rewrite (proj2 (Z.ltb_lt _ _) Hlow). }
    apply plasticityPhase_evolves.
    - intros Hop. apply Hmark; congruence.
    - intros Hop. apply Hupd; congruence. }
  assert (evolves R (Network.plasticityStage F)
            (Network.eligibilityStage (Network.plasticityStage F))) as H3.
  { unfold Network.eligibilityStage.
    destruct (Network.operantMode_ (Network.plasticityStage F)) eqn:Hop;
      [|by apply evolves_same].
    apply decayEligibilityTraces_evolves, Hdec.
    pose proof (plasticityStage_settings F) as HP. unfold settings in HP.
    congruence. }
  eapply evolves_trans; [exact H1|].
  eapply evolves_trans; [exact H2|].
  eapply evolves_trans; [exact H3|].
  apply evolves_same. apply step_stores.
Qed.

End Pointwise.

#[local] Instance same_image_preorder {A} (g : Synapse.t -> A) :
  PreOrder (fun s s' => g s' = g s).
Proof. split; [by intros ?|]. intros x y z. congruence. Qed.

Lemma evolves_storesBy {A} (g : Synapse.t -> A) net net' :
  evolves (fun s s' => g s' = g s) net net' ->
  storesBy g net' = storesBy g net.
Proof.
  assert (forall l l', Forall2 (fun s s' => g s' = g s) l l' ->
                       g <$> l' = g <$> l) as Hlist.
  { induction 1 as [|x y l l' Hxy _ IH]; [done|].
    rewrite !fmap_cons. by rewrite Hxy, IH. }
  intros [Hs Hd]. unfold storesBy. f_equal; [by apply Hlist|].
  apply map_eq. intros k. rewrite !lookup_fmap.
  destruct (Hd k) as [l l' Hl|]; simpl; [|done]. f_equal. by apply Hlist.
Qed.

Lemma fixedPart_markEligible a b s :
  fixedPart (Synapse.markEligible a b s) = fixedPart s.
Proof.
  unfold Synapse.markEligible. destruct (Synapse.isHebbian s) eqn:Hh; [|done].
  simpl. destruct (_ && _); [|done]. unfold fixedPart. simpl. by rewrite Hh.
Qed.

Lemma fixedPart_updateWeight a b s :
  fixedPart (Synapse.updateWeight a b s) = fixedPart s.
Proof.
  unfold Synapse.updateWeight. destruct (Synapse.isHebbian s) eqn:Hh; [|done].
  simpl. unfold fixedPart. simpl. by rewrite Hh.
Qed.

Lemma fixedPart_decayEligibility s :
  fixedPart (Synapse.decayEligibility s) = fixedPart s.
Proof.
  unfold Synapse.decayEligibility. by destruct (_ >? 0).
Qed.

(** X8.  No tick rewires the network.  After any number of ticks every neuron
    has the leak rate, threshold, refractory delay and synapse range it
    had, both synapse stores have the shape they had, and every synapse has
    kept its target and its plastic flag; a synapse that is not plastic
    has kept its weight too. *)
Theorem run_keeps_structure build (k : nat) net :
  parameters <$> Network.neurons_ (Network.run build k net)
    = parameters <$> Network.neurons_ net /\
  storesBy fixedPart (Network.run build k net) = storesBy fixedPart net.
Proof.
  induction k as [|k [IHn IHs]]; [done|].
  rewrite run_S_end. split.
  - by rewrite step_parameters.
  - rewrite <- IHs. apply evolves_storesBy, step_evolves; [apply _|..].
    + intros _ _ _ a b s. apply fixedPart_markEligible.
    + intros _ _ _ a b s. apply fixedPart_updateWeight.
    + intros _ s. apply fixedPart_decayEligibility.
Qed.

(** ** When weights can move *)

Lemma step_weights_gated build net :
  Network.operantMode_ net = true \/
  Network.plasticityEnabled_ net = false \/
  Neuromodulators.dopamine (Network.chemicals_ net) < 10 ->
  storesBy Synapse.weight (Network.step build net)
  = storesBy Synapse.weight net.
Proof.
  intros Hgate. apply evolves_storesBy, step_evolves; [apply _|..].
  - intros _ _ _ a b s. unfold Synapse.markEligible.
    destruct (negb _); [done|]. by destruct (_ && _).
  - intros Hp Hd Ho. destruct Hgate as [?|[?|?]]; [congruence..|lia].
  - intros _ s. unfold Synapse.decayEligibility. by destruct (_ >? 0).
Qed.

Lemma step_traces_pavlovian build net :
  Network.operantMode_ net = false ->
  storesBy Synapse.eligibilityTrace (Network.step build net)
  = storesBy Synapse.eligibilityTrace net.
Proof.
  intros Hop. apply evolves_storesBy, step_evolves; [apply _|..].
  - congruence.
  - intros _ _ _ a b s. unfold Synapse.updateWeight. by destruct (negb _).
  - congruence.
Qed.

(** X9.  The learning gates.  A tick changes no weight when the network is in
    operant mode (weights then move only under [injectReward]), when
    plasticity is switched off, or when dopamine is below 10 as the tick
    begins; the first two hold over any number of ticks.  And outside
    operant mode no tick touches an eligibility trace. *)
Theorem weights_move_only_when_gates_open build (k : nat) net :
  (Network.operantMode_ net = true \/
   Network.plasticityEnabled_ net = false \/
   Neuromodulators.dopamine (Network.chemicals_ net) < 10 ->
   storesBy Synapse.weight (Network.step build net)
   = storesBy Synapse.weight net) /\
  (Network.operantMode_ net = true \/
   Network.plasticityEnabled_ net = false ->
   storesBy Synapse.weight (Network.run build k net)
   = storesBy Synapse.weight net) /\
  (Network.operantMode_ net = false ->
   storesBy Synapse.eligibilityTrace (Network.run build k net)
   = storesBy Synapse.eligibilityTrace net).
Proof.
  split; [apply step_weights_gated|]. split.
  - intros Hgate. induction k as [|k IH]; [done|].
    rewrite run_S_end, <- IH. apply step_weights_gated.
    destruct (run_switches build k net) as [-> ->].
    tauto.
  - intros Hop. induction k as [|k IH]; [done|].
    rewrite run_S_end, <- IH. apply step_traces_pavlovian.
    by destruct (run_switches build k net) as [_ ->].
Qed.

Lemma weights_move_only_when_gates_open_witness :
  Network.operantMode_ eligiblePair = true /\
  storesBy Synapse.weight (Network.run lowIdBuild 5 eligiblePair)
  = storesBy Synapse.weight eligiblePair.
Proof.
  split; [reflexivity|].
  apply (proj1 (proj2 (weights_move_only_when_gates_open lowIdBuild 5
                         eligiblePair))).
  left. reflexivity.
Defined.

(** ** The firing rule *)

Lemma effectiveThreshold_no_noise reduction amplitude seed n :
  amplitude <= 0 ->
  Network.effectiveThreshold reduction amplitude seed n
  = Z.max 1 (int32 (Neuron.threshold n - reduction)).
Proof.
  intros Ha. unfold Network.effectiveThreshold. cbv zeta.
  destruct (Z.gtb_spec amplitude 0); [lia|].
  destruct (Z.ltb_spec (int32 (Neuron.threshold n - reduction)) 1); lia.
Qed.

Lemma quiet_no_noise net :
  Neuromodulators.norepinephrine (Network.chemicals_ net) <= 60 ->
  Network.noiseAmplitude net = 0 /\ panics net = false.
Proof.
  intros Hne. split.
  - unfold Network.noiseAmplitude.
    destruct (Z.gtb_spec (Neuromodulators.norepinephrine
                            (Network.chemicals_ net)) 60); [lia|done].
  - unfold panics. simpl. unfold Neuromodulators.decay1.
    destruct (Z.gtb_spec (Neuromodulators.norepinephrine
                            (Network.chemicals_ net)) 30);
      [|destruct (Z.ltb_spec (Neuromodulators.norepinephrine
                                (Network.chemicals_ net)) 30)];
      rewrite Z.geb_leb; apply Z.leb_gt; lia.
Qed.

(** A candidate of the tick, when no noise is drawn. *)
Lemma candidate_without_noise build net v id :
  Network.noiseAmplitude net = 0 ->
  openmpThreads build <> Some 0%nat ->
  (v, id) ∈ Network.candidatesOf build net <->
  exists n,
    Network.neurons_ net !! id = Some n /\
    Neuron.isRefractory (Network.currentTick_ net) n = false /\
    v = Neuron.currentCharge n /\
    Z.max 1 (int32 (Neuron.threshold n - Network.thresholdReduction net))
    <= Neuron.currentCharge n.
Proof.
  intros Hamp Hthreads.
  assert ((v, id) ∈ Network.sequentialCandidates net <->
          exists n,
            Network.neurons_ net !! id = Some n /\
            Neuron.isRefractory (Network.currentTick_ net) n = false /\
            v = Neuron.currentCharge n /\
            Z.max 1 (int32 (Neuron.threshold n
                            - Network.thresholdReduction net))
            <= Neuron.currentCharge n) as Hseq.
  { rewrite sequentialCandidates_spec. rewrite Hamp.
    setoid_rewrite effectiveThreshold_no_noise; [done|lia]. }
  unfold Network.candidatesOf.
  destruct (openmpThreads build) as [threads|]; [|done].
  destruct (100000 <=? _); [|done].
  rewrite parallelCandidates_spec by (destruct threads; [done|lia]).
  rewrite Hamp. setoid_rewrite effectiveThreshold_no_noise; [done|lia].
Qed.

(** X10.  The firing rule.  With norepinephrine at 60 or less (no threshold
    noise, no panic) and the Razor idle, a neuron fires on a tick exactly
    when it is not refractory and its charge after leak and integration is
    at least max(1, threshold - NE/5).  (The Razor is idle when it is
    switched off or there are at most K candidates; an OpenMP build runs
    at least one thread.) *)
Theorem firing_rule_without_noise build net id :
  Neuromodulators.norepinephrine (Network.chemicals_ net) <= 60 ->
  Network.razorEnabled_ net = false \/
  (length (Network.candidatesOf build (beforeFiring net))
   <= Network.maxSpikesPerTick_ net)%nat ->
  openmpThreads build <> Some 0%nat ->
  id ∈ Network.firedThisTick_ (Network.step build net) <->
  exists n,
    Network.neurons_ (beforeFiring net) !! id = Some n /\
    Neuron.isRefractory (Network.currentTick_ net) n = false /\
    Z.max 1 (int32 (Neuron.threshold n
                    - int8 (Neuromodulators.norepinephrine
                              (Network.chemicals_ net) ÷ 5)))
    <= Neuron.currentCharge n.
Proof.
  intros Hne Hidle Hthreads.
  destruct (quiet_no_noise net Hne) as [Hamp Hcalm].
  pose proof (beforeFiring_settings net) as Hset. unfold settings in Hset.
  assert (Network.noiseAmplitude (beforeFiring net) = 0) as Hamp'.
  { unfold Network.noiseAmplitude in *.
    replace (Network.chemicals_ (beforeFiring net))
      with (Network.chemicals_ net) by congruence. done. }
  assert (Network.thresholdReduction (beforeFiring net)
          = int8 (Neuromodulators.norepinephrine (Network.chemicals_ net) ÷ 5))
    as Hred.
  { unfold Network.thresholdReduction.
    replace (Network.chemicals_ (beforeFiring net))
      with (Network.chemicals_ net) by congruence. done. }
  rewrite step_fired, Hcalm.
  rewrite razor_idle
    by (destruct (beforeFiring_razor net) as [-> ->]; exact Hidle).
  rewrite elem_of_list_to_set, list_elem_of_fmap. split.
  - intros ([v id'] & -> & Hc).
    apply (candidate_without_noise build _ v id' Hamp' Hthreads) in Hc
      as (n & Hn & Hr & _ & Hge).
    exists n. rewrite beforeFiring_tick, Hred in *. done.
  - intros (n & Hn & Hr & Hge).
    exists (Neuron.currentCharge n, id). split; [done|].
    apply (candidate_without_noise build _ _ id Hamp' Hthreads).
    exists n. rewrite beforeFiring_tick, Hred. done.
Qed.

Lemma firing_rule_without_noise_witness :
  Neuromodulators.norepinephrine (Network.chemicals_ tenAtThreshold) <= 60 /\
  (3%nat ∈ Network.firedThisTick_
             (Network.step lowIdBuild
                (Network.set_razorEnabled false tenAtThreshold))).
Proof.
  split; [vm_compute; discriminate|].
  apply (firing_rule_without_noise lowIdBuild
           (Network.set_razorEnabled false tenAtThreshold) 3%nat).
  - vm_compute. discriminate.
  - left. reflexivity.
  - discriminate.
  - exists (Neuron.mk 5 0 10 (-3) 2 0 0). split; [vm_compute; reflexivity|].
    split; [reflexivity|]. vm_compute. discriminate.
Defined.

(** ** The spike queue *)

Lemma min_tick_lower l m :
  SpikeQueue.min_tick l = Some m -> Forall (fun e => m <= SpikeQueue.tick e) l.
Proof.
  revert m. induction l as [|e l IH]; intros m; simpl; [done|].
  destruct (SpikeQueue.min_tick l) as [m'|] eqn:Hm.
  - intros [= <-]. constructor; [lia|].
    eapply Forall_impl; [by apply IH|]. simpl. intros. lia.
  - intros [= <-]. destruct l; [|simpl in Hm; by destruct (SpikeQueue.min_tick l)].
    by repeat constructor.
Qed.

Lemma min_tick_attained l m :
  SpikeQueue.min_tick l = Some m -> exists e, e ∈ l /\ SpikeQueue.tick e = m.
Proof.
  revert m. induction l as [|e l IH]; intros m; simpl; [done|].
  destruct (SpikeQueue.min_tick l) as [m'|] eqn:Hm.
  - intros [= <-]. destruct (Z.min_spec (SpikeQueue.tick e) m') as [[_ ->]|[_ ->]].
    + exists e. split; [left|done].
    + destruct (IH m' eq_refl) as (e' & He' & Ht). exists e'.
      split; [by right|done].
  - intros [= <-]. exists e. split; [left|done].
Qed.

Lemma min_tick_None l : SpikeQueue.min_tick l = None -> l = [].
Proof.
  destruct l as [|e l]; [done|]. simpl. by destruct (SpikeQueue.min_tick l).
Qed.

(** With nothing older than [tk] in the queue, its minimum is [tk] as soon
    as one event has tick [tk]. *)
Lemma min_tick_fresh tk l e :
  Forall (fun e => tk <= SpikeQueue.tick e) l ->
  e ∈ l -> SpikeQueue.tick e = tk -> SpikeQueue.min_tick l = Some tk.
Proof.
  intros Hall He Ht.
  destruct (SpikeQueue.min_tick l) as [m|] eqn:Hm.
  - f_equal. pose proof (min_tick_lower l m Hm) as Hlow.
    destruct (min_tick_attained l m Hm) as (e' & He' & Ht').
    rewrite Forall_forall in Hall, Hlow.
    specialize (Hall e' He'). specialize (Hlow e He). lia.
  - apply min_tick_None in Hm. subst. set_solver.
Qed.

Lemma find_first_tick tk l :
  List.find (fun e => SpikeQueue.tick e =? tk) l
  = head (filter (fun e => SpikeQueue.tick e = tk) l).
Proof.
  induction l as [|e l IH]; simpl; [done|]. rewrite filter_cons.
  destruct (Z.eqb_spec (SpikeQueue.tick e) tk);
    destruct (decide (SpikeQueue.tick e = tk)); try done.
Qed.

Lemma remove_first_filter tk l e rest :
  filter (fun e => SpikeQueue.tick e = tk) l = e :: rest ->
  filter (fun e => SpikeQueue.tick e = tk) (SpikeQueue.remove_first tk l) = rest /\
  filter (fun e => SpikeQueue.tick e <> tk) (SpikeQueue.remove_first tk l)
  = filter (fun e => SpikeQueue.tick e <> tk) l /\
  length (SpikeQueue.remove_first tk l) = pred (length l).
Proof.
  revert e rest. induction l as [|x l IH]; intros e rest; simpl; [done|].
  rewrite !filter_cons.
  destruct (Z.eqb_spec (SpikeQueue.tick x) tk) as [Hx|Hx];
    destruct (decide (SpikeQueue.tick x = tk)); try done;
    destruct (decide (SpikeQueue.tick x <> tk)); try done.
  - intros [= <- <-]. done.
  - intros Hf. destruct (IH e rest Hf) as (H1 & H2 & H3).
    rewrite !filter_cons.
    destruct (decide (SpikeQueue.tick x = tk)); [done|].
    destruct (decide (SpikeQueue.tick x <> tk)); [|done].
    split_and!; [done|by f_equal|].
    simpl. rewrite H3. destruct l; [done|]. simpl. done.
Qed.

(** The loop of [getSpikesForTick] on a queue that holds nothing older
    than [tk]: it hands out the events of tick [tk] and leaves the others. *)
Lemma getSpikesLoop_fresh fuel tk l :
  Forall (fun e => tk <= SpikeQueue.tick e) l ->
  (length l <= fuel)%nat ->
  SpikeQueue.getSpikesLoop fuel tk l
  = (SpikeQueue.neuronId <$> filter (fun e => SpikeQueue.tick e = tk) l,
     filter (fun e => SpikeQueue.tick e <> tk) l).
Proof.
  revert l. induction fuel as [|fuel IH]; intros l Hall Hlen.
  - destruct l; [done|simpl in Hlen; lia].
  - simpl. unfold SpikeQueue.top, SpikeQueue.pop.
    destruct (filter (fun e => SpikeQueue.tick e = tk) l) as [|e rest] eqn:Hf.
    + (* no event of tick tk *)
      assert (filter (fun e => SpikeQueue.tick e <> tk) l = l) as Hrest.
      { clear -Hf. induction l as [|x l IHl]; [done|].
        rewrite filter_cons in Hf. rewrite filter_cons.
        destruct (decide (SpikeQueue.tick x = tk)); [done|].
        destruct (decide (SpikeQueue.tick x <> tk)); [|done].
        f_equal. by apply IHl. }
      rewrite Hrest.
      destruct (SpikeQueue.min_tick l) as [m|] eqn:Hm; [|done].
      rewrite find_first_tick.
      destruct (min_tick_attained l m Hm) as (e' & He' & Ht').
      destruct (filter (fun e => SpikeQueue.tick e = m) l) as [|e0 r0] eqn:Hf0.
      { exfalso. assert (e' ∈ filter (fun e => SpikeQueue.tick e = m) l)
          as Hin by (by apply list_elem_of_filter).
        rewrite Hf0 in Hin. set_solver. }
      simpl.
      assert (SpikeQueue.tick e0 = m) as Ht0.
      { assert (e0 ∈ filter (fun e => SpikeQueue.tick e = m) l) as Hin
          by (rewrite Hf0; left).
        by apply list_elem_of_filter in Hin as [? _]. }
      destruct (Z.eqb_spec (SpikeQueue.tick e0) tk) as [Heq|]; [|done].
      exfalso.
      assert (e0 ∈ filter (fun e => SpikeQueue.tick e = tk) l) as Hin.
      { apply list_elem_of_filter. split; [done|].
        assert (e0 ∈ filter (fun e => SpikeQueue.tick e = m) l) as Hin0
          by (rewrite Hf0; left).
        by apply list_elem_of_filter in Hin0 as [_ ?]. }
      rewrite Hf in Hin. set_solver.
    + (* e is the first event of tick tk *)
      assert (e ∈ l /\ SpikeQueue.tick e = tk) as [He Ht].
      { assert (e ∈ filter (fun e => SpikeQueue.tick e = tk) l) as Hin
          by (rewrite Hf; left).
        apply list_elem_of_filter in Hin as [? ?]. done. }
      rewrite (min_tick_fresh tk l e Hall He Ht), find_first_tick, Hf. simpl.
      rewrite (proj2 (Z.eqb_eq _ _) Ht).
      destruct (remove_first_filter tk l e rest Hf) as (H1 & H2 & H3).
      rewrite IH.
      * rewrite H1, H2. done.
      * clear -Hall. induction l as [|x l IHl]; simpl; [done|].
        apply Forall_cons in Hall as [Hx Hl].
        destruct (SpikeQueue.tick x =? tk); [done|].
        constructor; [done|by apply IHl].
      * rewrite H3. destruct l; simpl in *; lia.
Qed.

Lemma top_elem l e : SpikeQueue.top l = Some e -> e ∈ l.
Proof.
  unfold SpikeQueue.top. destruct (SpikeQueue.min_tick l); [|done].
  rewrite find_first_tick. intros Hh.
  assert (e ∈ filter (fun e0 => SpikeQueue.tick e0 = z) l) as Hin.
  { destruct (filter _ l); simplify_eq/=. left. }
  by apply list_elem_of_filter in Hin as [_ ?].
Qed.

Lemma getSpikesLoop_blocked fuel tk l :
  match SpikeQueue.top l with
  | Some e => SpikeQueue.tick e =? tk
  | None => false
  end = false ->
  SpikeQueue.getSpikesLoop fuel tk l = ([], l).
Proof.
  intros Hb. destruct fuel as [|fuel]; [done|]. simpl.
  destruct (SpikeQueue.top l) as [e|]; [|done]. by rewrite Hb.
Qed.

(** X11.  [getSpikesForTick] hands out one tick.  If the queue is empty or its
    earliest event is not of tick [tk], nothing is returned and the queue
    is left as it is (events behind an older one are not reached).  If the
    queue holds nothing older than [tk], the call returns the neurons of
    all events of tick [tk], removes exactly those events, and leaves a
    queue with no spike for [tk]. *)
Theorem getSpikesForTick_hands_out_one_tick tk q :
  (SpikeQueue.hasSpikesForTick tk q = false ->
   SpikeQueue.getSpikesForTick tk q = ([], q)) /\
  (Forall (fun e => tk <= SpikeQueue.tick e) (SpikeQueue.queue_ q) ->
   (SpikeQueue.getSpikesForTick tk q).1
     ≡ₚ SpikeQueue.neuronId
          <$> filter (fun e => SpikeQueue.tick e = tk) (SpikeQueue.queue_ q) /\
   SpikeQueue.queue_ (SpikeQueue.getSpikesForTick tk q).2
     ≡ₚ filter (fun e => SpikeQueue.tick e <> tk) (SpikeQueue.queue_ q) /\
   SpikeQueue.hasSpikesForTick tk (SpikeQueue.getSpikesForTick tk q).2
     = false).
Proof.
  split.
  - unfold SpikeQueue.hasSpikesForTick, SpikeQueue.getSpikesForTick.
    intros Hb. rewrite getSpikesLoop_blocked by done. by destruct q.
  - intros Hfresh. unfold SpikeQueue.getSpikesForTick.
    rewrite getSpikesLoop_fresh by done. simpl. split_and!; [done..|].
    unfold SpikeQueue.hasSpikesForTick. simpl.
    destruct (SpikeQueue.top _) as [e|] eqn:Htop; [|done].
    apply top_elem, list_elem_of_filter in Htop as [Hne _].
    by apply Z.eqb_neq.
Qed.

Lemma getSpikesForTick_hands_out_one_tick_witness :
  Forall (fun e => 3 <= SpikeQueue.tick e)
    (SpikeQueue.queue_
       (SpikeQueue.addSpike 7 4
          (SpikeQueue.addSpike 5 3 SpikeQueue.empty_queue))) /\
  (SpikeQueue.getSpikesForTick 3
     (SpikeQueue.addSpike 7 4
        (SpikeQueue.addSpike 5 3 SpikeQueue.empty_queue))).1
  ≡ₚ [5%nat].
Proof.
  assert (Forall (fun e => 3 <= SpikeQueue.tick e)
            (SpikeQueue.queue_
               (SpikeQueue.addSpike 7 4
                  (SpikeQueue.addSpike 5 3 SpikeQueue.empty_queue)))) as Hf.
  { simpl. repeat constructor; simpl; lia. }
  split; [exact Hf|].
  exact (proj1 (proj2 (getSpikesForTick_hands_out_one_tick 3
                         (SpikeQueue.addSpike 7 4
                            (SpikeQueue.addSpike 5 3 SpikeQueue.empty_queue)))
                  Hf)).
Defined.

(** ** Invariants of the reachable states *)

Lemma uint16_le n : (uint16 n <= n)%nat.
Proof.
  unfold uint16.
  pose proof (Z.mod_pos_bound (Z.of_nat n) 65536 ltac:(lia)).
  pose proof (Z.mod_le (Z.of_nat n) 65536 ltac:(lia) ltac:(lia)). lia.
Qed.

Lemma uint32_le (n : nat) : (Z.to_nat (uint32 (Z.of_nat n)) <= n)%nat.
Proof.
  unfold uint32.
  pose proof (Z.mod_pos_bound (Z.of_nat n) (2 ^ 32) ltac:(lia)).
  pose proof (Z.mod_le (Z.of_nat n) (2 ^ 32) ltac:(lia) ltac:(lia)). lia.
Qed.

Lemma markRefractory_length tk id ns bits :
  length (Network.markRefractory tk id ns bits) = length bits.
Proof.
  revert id bits. induction ns as [|n ns IH]; intros id bits; simpl; [done|].
  rewrite IH. destruct (Neuron.isRefractory tk n); [|done].
  apply set_bit_length.
Qed.

Lemma sweep_fold_bits f net ids :
  Network.refractoryBits_ (foldl (Network.sweepPre f) net ids)
  = Network.refractoryBits_ net.
Proof.
  apply (foldl_preserves _ Network.refractoryBits_).
  intros a b. unfold Network.sweepPre. by destruct (_ !! _).
Qed.

Lemma tick_tail_bits X :
  Network.refractoryBits_
    (Network.endTick (Network.panicStage (Network.chemistryStage X)))
  = Network.refractoryBits_ X.
Proof.
  destruct X. unfold Network.panicStage.
  cbn [Network.chemistryStage Network.set_chemicals Network.chemicals_].
  destruct (_ >=? 95); simpl; done.
Qed.

Lemma step_bits_length build net :
  length (Network.refractoryBits_ (Network.step build net))
  = length (Network.refractoryBits_ net).
Proof.
  rewrite step_unfold, tick_tail_bits. unfold beforeDecay.
  assert (forall X, Network.refractoryBits_ (Network.eligibilityStage X)
                    = Network.refractoryBits_ X) as ->.
  { intros X. unfold Network.eligibilityStage. by destruct (Network.operantMode_ X). }
  assert (forall X, Network.refractoryBits_ (Network.plasticityStage X)
                    = Network.refractoryBits_ X) as ->.
  { intros X. unfold Network.plasticityStage, Network.plasticityPhase.
    destruct (Network.plasticityEnabled_ X); [|done].
    destruct (_ <? 10); [done|]. cbv zeta.
    destruct (negb _); by rewrite ?sweep_fold_bits. }
  unfold Network.firingPhase.
  rewrite (foldl_preserves _ Network.refractoryBits_) by done.
  unfold beforeFiring, Network.integrationPhase.
  destruct (SpikeQueue.getSpikesForTick _ _). simpl.
  by rewrite markRefractory_length, length_fmap.
Qed.

Lemma step_neurons_length build net :
  length (Network.neurons_ (Network.step build net))
  = length (Network.neurons_ net).
Proof.
  pose proof (step_parameters build net) as H.
  apply (f_equal length) in H. by rewrite !length_fmap in H.
Qed.

Lemma step_firedLast build net :
  Network.firedLastTick_ (Network.step build net)
  = if panics net then ∅ else Network.firedThisTick_ net.
Proof.
  assert (Network.firedLastTick_ (beforeDecay build net)
          = Network.firedThisTick_ net) as H.
  { pose proof (beforeDecay_activity build net) as Ha. unfold activity in Ha.
    assert (Network.firedLastTick_ (beforeDecay build net)
            = Network.firedLastTick_
                (Network.firingPhase build (beforeFiring net))) as ->
      by congruence.
    unfold Network.firingPhase.
    rewrite (foldl_preserves _ Network.firedLastTick_) by done.
    unfold beforeFiring, Network.integrationPhase.
    by destruct (SpikeQueue.getSpikesForTick _ _). }
  destruct (panics net) eqn:Hp.
  - by rewrite step_panics.
  - by rewrite step_calm.
Qed.

Lemma fire_fold_queue tk (winners : list (Z * nat)) net :
  SpikeQueue.queue_ (Network.spikeQueue_ (foldl (Network.fire tk) net winners))
  = SpikeQueue.queue_ (Network.spikeQueue_ net)
    ++ ((fun w => SpikeQueue.mkEvent w.2 tk) <$> winners).
Proof.
  revert net. induction winners as [|w ws IH]; intros net; simpl.
  - by rewrite app_nil_r.
  - rewrite IH. simpl. by rewrite <- app_assoc.
Qed.

(** The queue as the plasticity phase finds it: what integration left,
    then this tick's spikes. *)
Lemma beforeDecay_queue build net :
  SpikeQueue.queue_ (Network.spikeQueue_ (beforeDecay build net))
  = SpikeQueue.queue_
      (SpikeQueue.getSpikesForTick (Network.currentTick_ net - 1)
         (Network.spikeQueue_ net)).2
    ++ ((fun w => SpikeQueue.mkEvent w.2 (Network.currentTick_ net))
          <$> winnersOf build net).
Proof.
  pose proof (beforeDecay_activity build net) as Ha. unfold activity in Ha.
  assert (Network.spikeQueue_ (beforeDecay build net)
          = Network.spikeQueue_ (Network.firingPhase build (beforeFiring net)))
    as -> by congruence.
  unfold Network.firingPhase. rewrite fire_fold_queue.
  rewrite beforeFiring_tick. fold (winnersOf build net). f_equal.
  unfold beforeFiring, Network.integrationPhase. simpl.
  unfold SpikeQueue.getSpikesForTick. simpl.
  by destruct (SpikeQueue.getSpikesLoop _ _ _).
Qed.

Lemma step_queue build net :
  SpikeQueue.queue_ (Network.spikeQueue_ (Network.step build net))
  = if panics net then []
    else SpikeQueue.queue_ (Network.spikeQueue_ (beforeDecay build net)).
Proof.
  destruct (panics net) eqn:Hp.
  - by rewrite step_panics.
  - by rewrite step_calm.
Qed.

Lemma step_queueFresh build net :
  queueFresh net -> queueFresh (Network.step build net).
Proof.
  unfold queueFresh. intros Hq.
  destruct (step_config build net) as (-> & _).
  rewrite step_queue. destruct (panics net); [constructor|].
  rewrite beforeDecay_queue. apply Forall_app. split.
  - unfold SpikeQueue.getSpikesForTick.
    rewrite getSpikesLoop_fresh; [|eapply Forall_impl; [exact Hq|]; simpl; lia|done].
    simpl. apply Forall_forall. intros e [Hne He]%list_elem_of_filter.
    rewrite Forall_forall in Hq. specialize (Hq e He). lia.
  - apply Forall_fmap, Forall_true. intros w. simpl. lia.
Qed.

Lemma step_firedValid build net :
  firedValid net -> firedValid (Network.step build net).
Proof.
  unfold firedValid. intros Hf id.
  rewrite step_neurons_length, step_firedLast.
  intros [Hin|Hin].
  - apply step_fired_subset in Hin as [_ Hw].
    apply winner_awake in Hw as (n & Hn & _). by eapply lookup_lt_Some.
  - destruct (panics net); [set_solver|]. apply Hf. by left.
Qed.

Lemma Forall2_Forall (R : relation Synapse.t) (P : Synapse.t -> Prop) l l' :
  (forall s s', R s s' -> P s -> P s') ->
  Forall2 R l l' -> Forall P l -> Forall P l'.
Proof.
  intros HR H2. induction H2 as [|x y l l' Hxy _ IH]; [done|].
  intros [Hx Hl]%Forall_cons. constructor; [by eapply HR|by apply IH].
Qed.

Lemma evolves_everySynapse (R : relation Synapse.t) P net net' :
  (forall s s', R s s' -> P s -> P s') ->
  evolves R net net' -> everySynapse P net -> everySynapse P net'.
Proof.
  intros HR [Hs Hd] [Ps Pd]. split.
  - by eapply Forall2_Forall.
  - intros pre l' Hl'. specialize (Hd pre). rewrite Hl' in Hd.
    inversion Hd as [l ? Hll Heq|]; subst.
    eapply Forall2_Forall; [done..|]. by eapply Pd.
Qed.

#[local] Instance keeps_preorder (P : Synapse.t -> Prop) :
  PreOrder (fun s s' => P s -> P s').
Proof. split; [by intros ?|]. intros x y z. tauto. Qed.

Lemma step_everySynapse build (P : Synapse.t -> Prop) net :
  (forall a b s, P s -> P (Synapse.markEligible a b s)) ->
  (forall a b s, P s -> P (Synapse.updateWeight a b s)) ->
  (forall s, P s -> P (Synapse.decayEligibility s)) ->
  everySynapse P net -> everySynapse P (Network.step build net).
Proof.
  intros Hm Hu Hd. apply (evolves_everySynapse (fun s s' => P s -> P s')).
  - tauto.
  - apply step_evolves; [apply _|..].
    + intros _ _ _ a b s. apply Hm.
    + intros _ _ _ a b s. apply Hu.
    + intros _ s. apply Hd.
Qed.

Lemma step_contiguousInBounds build net :
  contiguousInBounds net -> contiguousInBounds (Network.step build net).
Proof.
  unfold contiguousInBounds. intros Hc.
  assert (length (Network.synapses_ (Network.step build net))
          = length (Network.synapses_ net)) as ->.
  { assert (PreOrder (fun _ _ : Synapse.t => True)) as HP
      by (split; by intros ?).
    destruct (@step_evolves _ HP build net) as [H _]; [done..|].
    symmetry. by eapply Forall2_length. }
  pose proof (step_parameters build net) as Hpar.
  apply Forall_forall. intros n' Hn'.
  apply list_elem_of_lookup in Hn' as [i Hi].
  assert (exists n, Network.neurons_ net !! i = Some n) as [n Hn].
  { apply lookup_lt_is_Some. rewrite <- (step_neurons_length build).
    by eapply lookup_lt_Some. }
  destruct (fmap_eq_lookup parameters _ _ i n Hpar Hn) as (n'' & Hn'' & Heq).
  simplify_eq. rewrite Forall_forall in Hc.
  specialize (Hc n (list_elem_of_lookup_2 _ _ _ Hn)).
  unfold parameters in Heq. simplify_eq. congruence.
Qed.

Lemma bitsCover_same net net' :
  length (Network.neurons_ net') = length (Network.neurons_ net) ->
  length (Network.refractoryBits_ net')
    = length (Network.refractoryBits_ net) ->
  bitsCover net -> bitsCover net'.
Proof. unfold bitsCover. by intros -> ->. Qed.

Lemma contiguousInBounds_same net net' :
  parameters <$> Network.neurons_ net' = parameters <$> Network.neurons_ net ->
  (length (Network.synapses_ net) <= length (Network.synapses_ net'))%nat ->
  contiguousInBounds net -> contiguousInBounds net'.
Proof.
  unfold contiguousInBounds. intros Hpar Hlen Hc.
  apply Forall_forall. intros n' Hn'.
  apply list_elem_of_lookup in Hn' as [i Hi].
  assert (exists n, Network.neurons_ net !! i = Some n) as [n Hn].
  { apply lookup_lt_is_Some.
    apply (f_equal length) in Hpar. rewrite !length_fmap in Hpar.
    rewrite <- Hpar. by eapply lookup_lt_Some. }
  destruct (fmap_eq_lookup parameters _ _ i n Hpar Hn) as (n'' & Hn'' & Heq).
  simplify_eq. rewrite Forall_forall in Hc.
  specialize (Hc n (list_elem_of_lookup_2 _ _ _ Hn)).
  unfold parameters in Heq. simplify_eq. lia.
Qed.

Lemma everySynapse_impl (P Q : Synapse.t -> Prop) net net' :
  (forall s, P s -> Q s) ->
  synapseStores net' = synapseStores net ->
  everySynapse P net -> everySynapse Q net'.
Proof.
  unfold synapseStores, everySynapse. intros HPQ [= -> ->] [Hs Hd]. split.
  - by eapply Forall_impl.
  - intros pre l Hl. eapply Forall_impl; [by eapply Hd|done].
Qed.

Lemma targetsValid_same net net' :
  (length (Network.neurons_ net) <= length (Network.neurons_ net'))%nat ->
  synapseStores net' = synapseStores net ->
  targetsValid net -> targetsValid net'.
Proof.
  intros Hlen Hst. unfold targetsValid. apply everySynapse_impl; [|done].
  simpl. intros s. lia.
Qed.

Lemma invariant_make numNeurons : invariant (Network.make numNeurons).
Proof.
  unfold invariant, bitsCover, contiguousInBounds, firedValid, targetsValid,
    everySynapse, queueFresh. simpl. split_and!; try done.
  - lia.
  - set_solver.
Qed.

Lemma invariant_addNeuron thresh leak refractory net :
  invariant net ->
  invariant (Network.addNeuron thresh leak refractory net).2.
Proof.
  intros (Hb & Hc & Hf & Ht & Hw & Hq). unfold Network.addNeuron. cbv zeta.
  cbn [snd]. split_and!.
  - unfold bitsCover. net_fields.
    destruct (Nat.ltb_spec (length (Network.refractoryBits_ net))
                ((length (Network.neurons_ net
                          ++ [Neuron.make thresh leak refractory]) + 63) / 64)).
    + rewrite (length_app (Network.refractoryBits_ net)), length_replicate.
      lia.
    + lia.
  - unfold contiguousInBounds in *. net_fields.
    apply Forall_app. split; [done|]. constructor; [|constructor]. simpl. lia.
  - unfold firedValid in *. net_fields. intros id Hid.
    specialize (Hf id Hid). rewrite length_app. lia.
  - revert Ht. apply targetsValid_same; [|done]. net_fields.
    rewrite length_app. lia.
  - revert Hw. by apply everySynapse_impl.
  - done.
Qed.

Lemma invariant_connectNeurons from to w plastic net :
  invariant net ->
  invariant (Network.connectNeurons from to w plastic net).2.
Proof.
  intros (Hb & Hc & Hf & Ht & Hw & Hq). unfold Network.connectNeurons.
  cbv zeta.
  destruct (Nat.leb_spec (length (Network.neurons_ net)) from) as [|Hfrom];
    [done|].
  destruct (Nat.leb_spec (length (Network.neurons_ net)) to) as [|Hto];
    [done|]. cbn [orb].
  destruct (Network.neurons_ net !! from) as [src|] eqn:Hsrc; [|done].
  destruct ((Neuron.synapseCount src =? 0)%nat
            || (Neuron.synapseListIndex src + Neuron.synapseCount src
                  =? length (Network.synapses_ net))%nat) eqn:Hcont; cbn [snd].
  - (* contiguous *)
    split_and!.
    + revert Hb. apply bitsCover_same; net_fields; [|done].
      by rewrite length_insert.
    + unfold contiguousInBounds in *. net_fields.
      rewrite length_app. simpl.
      apply Forall_insert.
      * eapply Forall_impl; [exact Hc|]. simpl. intros. lia.
      * simpl. rewrite Forall_forall in Hc.
        specialize (Hc src (list_elem_of_lookup_2 _ _ _ Hsrc)).
        pose proof (uint16_le (Neuron.synapseCount src + 1)).
        pose proof (uint32_le (length (Network.synapses_ net))).
        destruct (Nat.eqb_spec (Neuron.synapseCount src) 0) as [Hz|Hnz]; lia.
    + unfold firedValid in *. net_fields. intros id Hid.
      rewrite length_insert. by apply Hf.
    + destruct Ht as [Hts Htd]. split; net_fields.
      * rewrite length_insert. apply Forall_app. split; [done|].
        constructor; [|constructor]. simpl. done.
      * intros pre l Hl. rewrite length_insert. by eapply Htd.
    + destruct Hw as [Hws Hwd]. split; net_fields; [|done].
      apply Forall_app. split; [done|]. constructor; [|constructor]. apply make_wf.
    + done.
  - (* dynamic *)
    split_and!; try done.
    + destruct Ht as [Hts Htd]. split; net_fields; [done|].
      intros pre l. destruct (decide (pre = from)) as [->|Hne].
      * rewrite lookup_insert_eq. intros [= <-]. apply Forall_app. split.
        -- destruct (Network.dynamicSynapses_ net !! from) eqn:Hd; simpl;
             [by eapply Htd|done].
        -- constructor; [|constructor]. simpl. done.
      * rewrite lookup_insert_ne by done. apply Htd.
    + destruct Hw as [Hws Hwd]. split; net_fields; [done|].
      intros pre l. destruct (decide (pre = from)) as [->|Hne].
      * rewrite lookup_insert_eq. intros [= <-]. apply Forall_app. split.
        -- destruct (Network.dynamicSynapses_ net !! from) eqn:Hd; simpl;
             [by eapply Hwd|done].
        -- constructor; [|constructor]. apply make_wf.
      * rewrite lookup_insert_ne by done. apply Hwd.
Qed.

Lemma invariant_injectSpike neuron net :
  invariant net -> invariant (Network.injectSpike neuron net).
Proof.
  intros (Hb & Hc & Hf & Ht & Hw & Hq). unfold Network.injectSpike.
  destruct (Nat.ltb_spec neuron (length (Network.neurons_ net))); [|done].
  split_and!.
  - revert Hb. apply bitsCover_same; net_fields; [|done].
    by rewrite length_alter.
  - revert Hc. apply contiguousInBounds_same; net_fields; [|done].
    by apply fmap_alter_frame.
  - unfold firedValid in *. net_fields. intros id. rewrite length_alter.
    intros [[->%elem_of_singleton|Hin]%elem_of_union|Hin]; [done|..];
      apply Hf; auto.
  - revert Ht. apply targetsValid_same; [|done]. net_fields.
    by rewrite length_alter.
  - revert Hw. by apply everySynapse_impl.
  - unfold queueFresh in *. net_fields. simpl. apply Forall_app. split; [done|].
    constructor; [|constructor]. simpl. by right.
Qed.

Lemma invariant_injectCharge neuron amount net :
  invariant net -> invariant (Network.injectCharge neuron amount net).
Proof.
  intros (Hb & Hc & Hf & Ht & Hw & Hq). unfold Network.injectCharge.
  destruct (Nat.ltb_spec neuron (length (Network.neurons_ net))); [|done].
  split_and!.
  - revert Hb. apply bitsCover_same; net_fields; [|done].
    by rewrite length_alter.
  - revert Hc. apply contiguousInBounds_same; net_fields; [|done].
    by apply fmap_alter_frame.
  - unfold firedValid in *. net_fields. intros id. rewrite length_alter.
    apply Hf.
  - revert Ht. apply targetsValid_same; [|done]. net_fields.
    by rewrite length_alter.
  - revert Hw. by apply everySynapse_impl.
  - done.
Qed.

Lemma target_unchanged a b s :
  Synapse.targetNeuronIndex (Synapse.markEligible a b s)
    = Synapse.targetNeuronIndex s /\
  Synapse.targetNeuronIndex (Synapse.updateWeight a b s)
    = Synapse.targetNeuronIndex s /\
  Synapse.targetNeuronIndex (Synapse.decayEligibility s)
    = Synapse.targetNeuronIndex s.
Proof.
  unfold Synapse.markEligible, Synapse.updateWeight, Synapse.decayEligibility.
  split_and!.
  - destruct (negb _); [done|]. by destruct (_ && _).
  - by destruct (negb _).
  - by destruct (_ >? 0).
Qed.

Lemma invariant_step build net :
  invariant net -> invariant (Network.step build net).
Proof.
  intros (Hb & Hc & Hf & Ht & Hw & Hq). split_and!.
  - revert Hb. apply bitsCover_same.
    + apply step_neurons_length.
    + apply step_bits_length.
  - by apply step_contiguousInBounds.
  - by apply step_firedValid.
  - unfold targetsValid in *. rewrite step_neurons_length.
    revert Ht. apply step_everySynapse.
    + intros a b s. by rewrite (proj1 (target_unchanged a b s)).
    + intros a b s. by rewrite (proj1 (proj2 (target_unchanged a b s))).
    + intros s. by rewrite (proj2 (proj2 (target_unchanged 0 0 s))).
  - revert Hw. apply step_everySynapse.
    + intros a b s. apply markEligible_wf.
    + intros a b s. apply updateWeight_wf.
    + apply decayEligibility_wf.
  - by apply step_queueFresh.
Qed.

Lemma invariant_reset net : invariant net -> invariant (Network.reset net).
Proof.
  intros (Hb & Hc & Hf & Ht & Hw & Hq). unfold Network.reset. split_and!.
  - revert Hb. apply bitsCover_same; net_fields; [|done].
    by rewrite length_fmap.
  - revert Hc. apply contiguousInBounds_same; net_fields; [|done].
    rewrite <- list_fmap_compose. by apply list_fmap_ext.
  - unfold firedValid. net_fields. set_solver.
  - revert Ht. apply targetsValid_same; [|done]. net_fields.
    by rewrite length_fmap.
  - revert Hw. by apply everySynapse_impl.
  - unfold queueFresh. net_fields. simpl. constructor.
Qed.

Lemma invariant_panicReset net :
  invariant net -> invariant (Network.panicReset net).
Proof.
  intros (Hb & Hc & Hf & Ht & Hw & Hq). unfold Network.panicReset. cbv zeta.
  split_and!.
  - revert Hb. apply bitsCover_same; simpl; [|done]. by rewrite length_fmap.
  - revert Hc. apply contiguousInBounds_same; simpl; [|done].
    rewrite <- list_fmap_compose. by apply list_fmap_ext.
  - unfold firedValid. simpl. set_solver.
  - revert Ht. apply targetsValid_same; [|done]. simpl.
    by rewrite length_fmap.
  - revert Hw. by apply everySynapse_impl.
  - unfold queueFresh. simpl. constructor.
Qed.

Lemma invariant_injectReward amount net :
  invariant net -> invariant (Network.injectReward amount net).
Proof.
  intros (Hb & Hc & Hf & Ht & Hw & Hq). unfold Network.injectReward.
  split_and!; try done.
  - revert Hc. apply contiguousInBounds_same; net_fields; [done|].
    by rewrite length_fmap.
  - destruct Ht as [Hts Htd]. split; net_fields.
    + apply Forall_fmap. eapply Forall_impl; [exact Hts|]. simpl.
      intros s Hs. unfold Synapse.applyReward. by destruct (_ || _).
    + intros pre l. rewrite lookup_fmap.
      destruct (Network.dynamicSynapses_ net !! pre) as [l0|] eqn:Hd;
        [|done]. intros [= <-]. apply Forall_fmap.
      eapply Forall_impl; [by eapply Htd|]. simpl.
      intros s Hs. unfold Synapse.applyReward. by destruct (_ || _).
  - destruct Hw as [Hws Hwd]. split; net_fields.
    + apply Forall_fmap. eapply Forall_impl; [exact Hws|]. simpl.
      intros s. apply applyReward_wf.
    + intros pre l. rewrite lookup_fmap.
      destruct (Network.dynamicSynapses_ net !! pre) as [l0|] eqn:Hd;
        [|done]. intros [= <-]. apply Forall_fmap.
      eapply Forall_impl; [by eapply Hwd|]. simpl.
      intros s. apply applyReward_wf.
Qed.

Lemma invariant_setting net net' :
  (Network.currentTick_ net', Network.neurons_ net', Network.synapses_ net',
   Network.dynamicSynapses_ net', Network.spikeQueue_ net',
   Network.firedThisTick_ net', Network.firedLastTick_ net',
   Network.refractoryBits_ net')
  = (Network.currentTick_ net, Network.neurons_ net, Network.synapses_ net,
     Network.dynamicSynapses_ net, Network.spikeQueue_ net,
     Network.firedThisTick_ net, Network.firedLastTick_ net,
     Network.refractoryBits_ net) ->
  invariant net -> invariant net'.
Proof.
  intros [= Htk Hn Hs Hd Hq Hft Hfl Hb].
  unfold invariant, bitsCover, contiguousInBounds, firedValid, targetsValid,
    everySynapse, queueFresh.
  by rewrite Htk, Hn, Hs, Hd, Hq, Hft, Hfl, Hb.
Qed.

(** Every reachable state satisfies the invariant. *)
Lemma reachable_invariant build net : reachable build net -> invariant net.
Proof.
  induction 1.
  - apply invariant_make.
  - by apply invariant_addNeuron.
  - by apply invariant_connectNeurons.
  - by apply invariant_injectSpike.
  - by apply invariant_injectCharge.
  - by apply invariant_step.
  - by apply invariant_reset.
  - by apply invariant_injectReward.
  - unfold Network.rewardSignal. cbv zeta.
    destruct (Network.operantMode_ net).
    + apply invariant_injectReward. by eapply invariant_setting.
    + by eapply invariant_setting.
  - by eapply invariant_setting.
  - by eapply invariant_setting.
  - by apply invariant_panicReset.
  - by eapply invariant_setting.
  - by eapply invariant_setting.
  - by eapply invariant_setting.
  - by eapply invariant_setting.
  - by eapply invariant_setting.
Qed.

(** X12.  Index safety.  In every reachable state each index the tick
    dereferences is in bounds: the refractory bitset has a word for every
    neuron, every neuron's contiguous synapse range lies inside
    [synapses_] (so the range read for a neuron has exactly
    [synapseCount] synapses), both fired sets name existing neurons, and
    every synapse points at an existing neuron. *)
Theorem reachable_indices_in_bounds build net :
  reachable build net ->
  (forall id, (id < length (Network.neurons_ net))%nat ->
     is_Some (Network.refractoryBits_ net !! (id / 64)%nat)) /\
  (forall id n, Network.neurons_ net !! id = Some n ->
     length (Network.contiguous n (Network.synapses_ net))
     = Neuron.synapseCount n) /\
  (forall id, id ∈ Network.firedThisTick_ net \/
              id ∈ Network.firedLastTick_ net ->
     is_Some (Network.neurons_ net !! id)) /\
  (forall pre s, s ∈ outgoing (Network.synapses_ net)
                       (Network.dynamicSynapses_ net)
                       (Network.neurons_ net) pre ->
     is_Some (Network.neurons_ net !! Synapse.targetNeuronIndex s)).
Proof.
  intros (Hb & Hc & Hf & [Hts Htd] & _ & _)%reachable_invariant. split_and!.
  - intros id Hid. apply lookup_lt_is_Some. unfold bitsCover in Hb.
    eapply Nat.lt_le_trans; [|exact Hb].
    apply Nat.Div0.div_lt_upper_bound.
    pose proof (Nat.div_mod_eq (length (Network.neurons_ net) + 63) 64).
    pose proof (Nat.mod_upper_bound (length (Network.neurons_ net) + 63) 64).
    lia.
  - intros id n Hn. unfold Network.contiguous, contiguousInBounds in *.
    rewrite Forall_forall in Hc.
    specialize (Hc n (list_elem_of_lookup_2 _ _ _ Hn)).
    rewrite length_take, length_drop. lia.
  - intros id Hid. apply lookup_lt_is_Some. by apply Hf.
  - intros pre s Hs. apply lookup_lt_is_Some. unfold outgoing in Hs.
    destruct (Network.neurons_ net !! pre) as [p|]; [|set_solver].
    apply elem_of_app in Hs as [Hs|Hs].
    + unfold Network.contiguous in Hs.
      apply subseteq_take, subseteq_drop in Hs.
      rewrite Forall_forall in Hts. by apply Hts.
    + unfold Network.dynamicOf in Hs.
      destruct (Network.dynamicSynapses_ net !! pre) as [l|] eqn:Hl;
        simpl in Hs; [|set_solver].
      specialize (Htd pre l Hl). rewrite Forall_forall in Htd. by apply Htd.
Qed.

Lemma reachable_indices_in_bounds_witness :
  reachable lowIdBuild (Network.step lowIdBuild inhibitedPair) /\
  length (Network.contiguous (Neuron.mk 0 1 10 0 2 0 1)
            (Network.synapses_ (Network.step lowIdBuild inhibitedPair)))
  = 1%nat.
Proof.
  assert (reachable lowIdBuild (Network.step lowIdBuild inhibitedPair)) as Hr.
  { apply reach_step, reach_injectSpike, reach_connectNeurons,
      reach_addNeuron, reach_addNeuron, reach_make. }
  split; [exact Hr|].
  apply (proj1 (proj2 (reachable_indices_in_bounds lowIdBuild _ Hr)) 0%nat).
  vm_compute. reflexivity.
Defined.

(** X13.  Weights stay in range.  In every reachable state every stored synapse
    has its weight in [-16, 16] and its eligibility trace in [0, 100], so
    [getSynapseWeight] answers in [-16, 16] for every pair of ids. *)
Theorem reachable_weights_bounded build net source target :
  reachable build net ->
  everySynapse Synapse.wf net /\
  WEIGHT_MIN <= Network.getSynapseWeight source target net <= WEIGHT_MAX.
Proof.
  intros (_ & _ & _ & _ & [Hws Hwd] & _)%reachable_invariant.
  split; [done|]. unfold Network.getSynapseWeight.
  destruct (Network.neurons_ net !! source) as [pre|];
    [|unfold WEIGHT_MIN, WEIGHT_MAX; lia].
  cbv zeta.
  destruct (List.find _ (Network.contiguous pre _)) as [s|] eqn:Hfind.
  - apply find_some in Hfind as [Hin _]. apply list_elem_of_In in Hin.
    unfold Network.contiguous in Hin.
    apply subseteq_take, subseteq_drop in Hin.
    rewrite Forall_forall in Hws. by apply Hws.
  - destruct (List.find _ (Network.dynamicOf source _)) as [s|] eqn:Hfind2;
      [|unfold WEIGHT_MIN, WEIGHT_MAX; lia].
    apply find_some in Hfind2 as [Hin _]. apply list_elem_of_In in Hin.
    unfold Network.dynamicOf in Hin.
    destruct (Network.dynamicSynapses_ net !! source) as [l|] eqn:Hl;
      simpl in Hin; [|set_solver].
    specialize (Hwd source l Hl). rewrite Forall_forall in Hwd.
    by apply Hwd.
Qed.

Lemma reachable_weights_bounded_witness :
  reachable lowIdBuild (Network.injectReward 30000000 eligiblePair) /\
  WEIGHT_MIN
  <= Network.getSynapseWeight 0 1 (Network.injectReward 30000000 eligiblePair)
  <= WEIGHT_MAX.
Proof.
  assert (reachable lowIdBuild (Network.injectReward 30000000 eligiblePair))
    as Hr.
  { apply reach_injectReward, reach_step, reach_injectCharge, reach_step,
      reach_injectCharge, reach_setOperantMode, reach_connectNeurons,
      reach_addNeuron, reach_addNeuron, reach_make. }
  split; [exact Hr|].
  exact (proj2 (reachable_weights_bounded lowIdBuild _ 0%nat 1%nat Hr)).
Defined.

(** X14.  Spikes are delivered on the next tick, once.  In every reachable state
    the queue holds events of the previous and of the current tick only;
    the tick's integration phase is handed the neurons of all events of the
    previous tick, and when the tick is over every event left in the queue
    carries the tick that has just run. *)
Theorem reachable_queue_is_fresh build net :
  reachable build net ->
  queueFresh net /\
  (SpikeQueue.getSpikesForTick (Network.currentTick_ net - 1)
     (Network.spikeQueue_ net)).1
  ≡ₚ SpikeQueue.neuronId
       <$> filter (fun e => SpikeQueue.tick e = Network.currentTick_ net - 1)
             (SpikeQueue.queue_ (Network.spikeQueue_ net)) /\
  Forall (fun e => SpikeQueue.tick e = Network.currentTick_ net)
    (SpikeQueue.queue_ (Network.spikeQueue_ (Network.step build net))).
Proof.
  intros Hr. pose proof (reachable_invariant build net Hr)
    as (_ & _ & _ & _ & _ & Hq).
  split; [done|]. split.
  - unfold SpikeQueue.getSpikesForTick.
    rewrite getSpikesLoop_fresh; [done| |done].
    eapply Forall_impl; [exact Hq|]. simpl. lia.
  - pose proof (step_queueFresh build net Hq) as Hq'. unfold queueFresh in *.
    destruct (step_config build net) as (Htick & _). rewrite Htick in Hq'.
    rewrite step_queue in *. destruct (panics net); [constructor|].
    rewrite beforeDecay_queue in *. apply Forall_app. split.
    + unfold SpikeQueue.getSpikesForTick.
      rewrite getSpikesLoop_fresh; [|eapply Forall_impl; [exact Hq|]; simpl; lia|done].
      simpl. apply Forall_forall. intros e [Hne He]%list_elem_of_filter.
      rewrite Forall_forall in Hq. specialize (Hq e He). lia.
    + apply Forall_fmap, Forall_true. intros w. done.
Qed.

Lemma reachable_queue_is_fresh_witness :
  reachable lowIdBuild inhibitedPair /\
  Forall (fun e => SpikeQueue.tick e = Network.currentTick_ inhibitedPair)
    (SpikeQueue.queue_
       (Network.spikeQueue_ (Network.step lowIdBuild inhibitedPair))).
Proof.
  assert (reachable lowIdBuild inhibitedPair) as Hr.
  { apply reach_injectSpike, reach_connectNeurons, reach_addNeuron,
      reach_addNeuron, reach_make. }
  split; [exact Hr|].
  exact (proj2 (proj2 (reachable_queue_is_fresh lowIdBuild _ Hr))).
Defined.

(** ** Connecting and looking up *)

Lemma overflow_evolves (R : relation Synapse.t) net net' :
  evolves R net net' ->
  parameters <$> Network.neurons_ net' = parameters <$> Network.neurons_ net ->
  overflowOrdered net -> overflowOrdered net'.
Proof.
  intros [Hs Hd] Hpar Ho id Hid.
  destruct (Ho id) as (n & Hn & Hcount & Hlt).
  { intros Hnil. apply Hid. unfold Network.dynamicOf in *.
    destruct (Hd id) as [l l' Hl|]; simpl in *; [|done].
    subst l. by inversion Hl. }
  destruct (fmap_eq_lookup parameters _ _ id n Hpar Hn) as (n' & Hn' & Heq).
  exists n'. split; [done|]. unfold parameters in Heq. simplify_eq.
  rewrite <- (Forall2_length _ _ _ Hs). split; [congruence|]. lia.
Qed.

Lemma overflow_same net net' :
  synapseStores net' = synapseStores net ->
  parameters <$> Network.neurons_ net' = parameters <$> Network.neurons_ net ->
  overflowOrdered net -> overflowOrdered net'.
Proof.
  intros Hst. apply (overflow_evolves eq).
  apply evolves_same; [apply _|exact Hst].
Qed.

Lemma overflow_injectReward amount net :
  overflowOrdered net -> overflowOrdered (Network.injectReward amount net).
Proof.
  apply (overflow_evolves (fun _ _ => True)); [|done].
  unfold Network.injectReward, evolves. net_fields. split.
  - apply Forall2_fmap_r, Forall_Forall2_diag, Forall_forall. done.
  - intros pre. rewrite lookup_fmap.
    destruct (Network.dynamicSynapses_ net !! pre); constructor.
    apply Forall2_fmap_r, Forall_Forall2_diag, Forall_forall. done.
Qed.

Lemma overflow_connectNeurons from to w plastic net :
  contiguousInBounds net ->
  overflowOrdered net ->
  overflowOrdered (Network.connectNeurons from to w plastic net).2.
Proof.
  intros Hc Ho. unfold Network.connectNeurons. cbv zeta.
  destruct (_ || _); [done|].
  destruct (Network.neurons_ net !! from) as [src|] eqn:Hsrc; [|done].
  unfold contiguousInBounds in Hc. rewrite Forall_forall in Hc.
  pose proof (Hc src (list_elem_of_lookup_2 _ _ _ Hsrc)) as Hsrcb.
  destruct ((Neuron.synapseCount src =? 0)%nat
            || (Neuron.synapseListIndex src + Neuron.synapseCount src
                  =? length (Network.synapses_ net))%nat) eqn:Hcont; cbn [snd];
    intros id; net_fields; intros Hid.
  - destruct (Ho id Hid) as (n & Hn & Hcount & Hlt).
    destruct (decide (id = from)) as [->|Hne].
    + simplify_eq. apply orb_true_iff in Hcont as [H%Nat.eqb_eq|H%Nat.eqb_eq];
        lia.
    + exists n. rewrite list_lookup_insert_ne by done.
      rewrite length_app. simpl. split; [done|]. split; [done|]. lia.
  - apply orb_false_iff in Hcont as [H1%Nat.eqb_neq H2%Nat.eqb_neq].
    destruct (decide (id = from)) as [->|Hne].
    + exists src. split; [done|]. split; [done|]. lia.
    + apply Ho. unfold Network.dynamicOf in *.
      by rewrite lookup_insert_ne in Hid.
Qed.

Lemma reachable_overflow build net :
  reachable build net -> overflowOrdered net.
Proof.
  induction 1 as [numNeurons|thresh leak refractory net Hr IH
                  |from to w plastic net Hr IH|neuron net Hr IH
                  |neuron amount net Hr IH|net Hr IH|net Hr IH
                  |amount net Hr IH|amount net Hr IH|amount net Hr IH
                  |amount net Hr IH|net Hr IH|enabled net Hr IH
                  |enabled net Hr IH|enabled net Hr IH|k net Hr IH
                  |c net Hr IH].
  - intros id Hid. by destruct Hid.
  - intros id Hid. destruct (IH id Hid) as (n & Hn & Hrest).
    exists n. split; [|done]. unfold Network.addNeuron. cbv zeta.
    cbn [snd]. net_fields. by apply lookup_app_l_Some.
  - apply overflow_connectNeurons; [|done].
    by apply reachable_invariant in Hr as (_ & Hc & _).
  - revert IH. unfold Network.injectSpike. destruct (_ <? _)%nat; [|done].
    apply overflow_same; [done|]. net_fields. by apply fmap_alter_frame.
  - revert IH. unfold Network.injectCharge. destruct (_ <? _)%nat; [|done].
    apply overflow_same; [done|]. net_fields. by apply fmap_alter_frame.
  - revert IH. apply (overflow_evolves (fun _ _ => True)).
    + assert (PreOrder (fun _ _ : Synapse.t => True)) as HP
        by (split; by intros ?).
      by apply (@step_evolves _ HP build net).
    + apply step_parameters.
  - revert IH. apply overflow_same; [done|]. unfold Network.reset.
    net_fields. rewrite <- list_fmap_compose. by apply list_fmap_ext.
  - by apply overflow_injectReward.
  - unfold Network.rewardSignal. cbv zeta.
    destruct (Network.operantMode_ net); [apply overflow_injectReward|];
      revert IH; by apply overflow_same.
  - revert IH. by apply overflow_same.
  - revert IH. by apply overflow_same.
  - revert IH. apply overflow_same; [done|]. unfold Network.panicReset.
    cbv zeta. simpl. rewrite <- list_fmap_compose. by apply list_fmap_ext.
  - revert IH. by apply overflow_same.
  - revert IH. by apply overflow_same.
  - revert IH. by apply overflow_same.
  - revert IH. by apply overflow_same.
  - revert IH. by apply overflow_same.
Qed.

Lemma find_app {A} (f : A -> bool) (l k : list A) :
  List.find f (l ++ k)
  = match List.find f l with Some x => Some x | None => List.find f k end.
Proof.
  induction l as [|x l IH]; simpl; [done|]. by destruct (f x).
Qed.

Lemma getSynapseWeight_outgoing source target net :
  Network.getSynapseWeight source target net
  = match List.find
            (fun s => (Synapse.targetNeuronIndex s =? target)%nat)
            (outgoingOf net source) with
    | Some s => Synapse.weight s
    | None => 0
    end.
Proof.
  unfold Network.getSynapseWeight, outgoingOf, outgoing.
  destruct (Network.neurons_ net !! source) as [pre|]; [|done]. cbv zeta.
  rewrite find_app. by destruct (List.find _ (Network.contiguous pre _)).
Qed.

Lemma contiguous_app pre syns extra :
  (Neuron.synapseListIndex pre + Neuron.synapseCount pre <= length syns)%nat ->
  Network.contiguous pre (syns ++ extra) = Network.contiguous pre syns.
Proof.
  intros Hle. unfold Network.contiguous.
  rewrite drop_app_le by lia. rewrite take_app_le; [done|].
  rewrite length_drop. lia.
Qed.

Lemma uint16_small n : Z.of_nat n < 65536 -> uint16 n = n.
Proof. intros H. unfold uint16. rewrite Z.mod_small by lia. lia. Qed.

Lemma uint32_small (n : nat) :
  Z.of_nat n < 2 ^ 32 -> Z.to_nat (uint32 (Z.of_nat n)) = n.
Proof. intros H. unfold uint32. rewrite Z.mod_small by lia. lia. Qed.

(** What a successful [connectNeurons] does to the outgoing lists. *)
Lemma connectNeurons_outgoing from to w plastic net src :
  contiguousInBounds net ->
  overflowOrdered net ->
  Network.neurons_ net !! from = Some src ->
  (to < length (Network.neurons_ net))%nat ->
  Z.of_nat (Neuron.synapseCount src) < 65535 ->
  Z.of_nat (length (Network.synapses_ net)) < 2 ^ 32 ->
  (Network.connectNeurons from to w plastic net).1 = true /\
  outgoingOf (Network.connectNeurons from to w plastic net).2 from
  = outgoingOf net from ++ [Synapse.make to w plastic] /\
  forall pre, pre <> from ->
    outgoingOf (Network.connectNeurons from to w plastic net).2 pre
    = outgoingOf net pre.
Proof.
  intros Hc Ho Hsrc Hto Hcount Hlen.
  pose proof (lookup_lt_Some _ _ _ Hsrc) as Hfrom.
  unfold contiguousInBounds in Hc. rewrite Forall_forall in Hc.
  pose proof (Hc src (list_elem_of_lookup_2 _ _ _ Hsrc)) as Hsrcb.
  unfold Network.connectNeurons. cbv zeta.
  destruct (Nat.leb_spec (length (Network.neurons_ net)) from); [lia|].
  destruct (Nat.leb_spec (length (Network.neurons_ net)) to); [lia|].
  cbn [orb]. rewrite Hsrc.
  destruct ((Neuron.synapseCount src =? 0)%nat
            || (Neuron.synapseListIndex src + Neuron.synapseCount src
                  =? length (Network.synapses_ net))%nat) eqn:Hcont;
    cbn [fst snd]; (split; [done|]); unfold outgoingOf, outgoing; net_fields.
  - split.
    + assert (Network.dynamicOf from (Network.dynamicSynapses_ net) = [])
        as ->.
      { destruct (Network.dynamicOf from (Network.dynamicSynapses_ net))
          as [|s0 l0] eqn:Hdyn; [done|].
        destruct (Ho from) as (n & Hn & Hnz & Hlt); [by rewrite Hdyn|].
        simplify_eq.
        apply orb_true_iff in Hcont as [H1%Nat.eqb_eq|H1%Nat.eqb_eq]; lia. }
      rewrite list_lookup_insert_eq by done. rewrite Hsrc.
      unfold Network.contiguous. simpl.
      rewrite uint16_small by lia. rewrite !app_nil_r.
      destruct (Nat.eqb_spec (Neuron.synapseCount src) 0) as [Hz|Hnz].
      * rewrite Hz. rewrite uint32_small by done.
        by rewrite drop_app_length.
      * simpl in Hcont. apply Nat.eqb_eq in Hcont.
        rewrite drop_app_le by lia.
        rewrite take_app_ge by (rewrite length_drop; lia).
        rewrite length_drop.
        replace (Neuron.synapseCount src + 1
                 - (length (Network.synapses_ net)
                    - Neuron.synapseListIndex src))%nat with 1%nat by lia.
        simpl. f_equal. rewrite take_ge; [done|]. rewrite length_drop. lia.
    + intros pre Hne. rewrite list_lookup_insert_ne by done.
      destruct (Network.neurons_ net !! pre) as [p|] eqn:Hp; [|done].
      rewrite contiguous_app; [done|].
      apply Hc. by eapply list_elem_of_lookup_2.
  - split.
    + rewrite Hsrc. unfold Network.dynamicOf at 1.
      rewrite lookup_insert_eq. simpl. unfold Network.dynamicOf.
      by rewrite app_assoc.
    + intros pre Hne.
      destruct (Network.neurons_ net !! pre) as [p|] eqn:Hp; [|done].
      unfold Network.dynamicOf. by rewrite lookup_insert_ne.
Qed.

(** X15.  Connect, then look up.  On a reachable network, connecting two
    existing neurons succeeds and appends exactly one synapse (with the
    weight clamped to [-16, 16]) to the source's outgoing list, leaving
    every other neuron's list alone: [getSynapseWeight] then answers the
    clamped weight if the pair had no synapse yet and the weight of the
    older synapse otherwise, and its answer for every other pair is
    unchanged.  With an id that names no neuron the call fails and changes
    nothing.  (The source must hold fewer than 65535 contiguous synapses
    and the store fewer than 2^32: the widths of [synapseCount] and
    [synapseListIndex].) *)
Theorem connect_then_lookup build from to w plastic net src :
  reachable build net ->
  Network.neurons_ net !! from = Some src ->
  (to < length (Network.neurons_ net))%nat ->
  Z.of_nat (Neuron.synapseCount src) < 65535 ->
  Z.of_nat (length (Network.synapses_ net)) < 2 ^ 32 ->
  let net' := (Network.connectNeurons from to w plastic net).2 in
  (Network.connectNeurons from to w plastic net).1 = true /\
  outgoingOf net' from = outgoingOf net from ++ [Synapse.make to w plastic] /\
  (forall pre, pre <> from -> outgoingOf net' pre = outgoingOf net pre) /\
  Network.getSynapseWeight from to net'
  = match List.find (fun s => (Synapse.targetNeuronIndex s =? to)%nat)
            (outgoingOf net from) with
    | Some _ => Network.getSynapseWeight from to net
    | None => std_clamp w WEIGHT_MIN WEIGHT_MAX
    end /\
  (forall source target, (source, target) <> (from, to) ->
     Network.getSynapseWeight source target net'
     = Network.getSynapseWeight source target net) /\
  (forall bad, (length (Network.neurons_ net) <= bad)%nat ->
     Network.connectNeurons bad to w plastic net = (false, net) /\
     Network.connectNeurons from bad w plastic net = (false, net)).
Proof.
  intros Hr Hsrc Hto Hcount Hlen net'.
  pose proof (reachable_overflow _ _ Hr) as Ho.
  apply reachable_invariant in Hr as (_ & Hc & _).
  destruct (connectNeurons_outgoing from to w plastic net src)
    as (Hok & Hfrom & Hother); [done..|].
  fold net' in Hfrom, Hother.
  split; [done|]. split; [done|]. split; [done|]. split; [|split].
  - rewrite !getSynapseWeight_outgoing, Hfrom, find_app.
    destruct (List.find _ (outgoingOf net from)); [done|]. simpl.
    by rewrite Nat.eqb_refl.
  - intros source target Hne. rewrite !getSynapseWeight_outgoing.
    destruct (decide (source = from)) as [->|Hs].
    + rewrite Hfrom, find_app.
      destruct (List.find _ (outgoingOf net from)); [done|]. simpl.
      destruct (Nat.eqb_spec to target); [congruence|done].
    + by rewrite Hother.
  - intros bad Hbad. unfold Network.connectNeurons. cbv zeta. split.
    + by rewrite (proj2 (Nat.leb_le _ _) Hbad).
    + rewrite (proj2 (Nat.leb_le _ _) Hbad). by rewrite orb_true_r.
Qed.

Lemma connect_then_lookup_witness :
  reachable lowIdBuild restingPair /\
  Network.getSynapseWeight 0 1
    (Network.connectNeurons 0 1 40 true restingPair).2 = 16.
Proof.
  assert (reachable lowIdBuild restingPair) as Hr.
  { apply reach_addNeuron, reach_addNeuron, reach_make. }
  split; [exact Hr|].
  pose proof (connect_then_lookup lowIdBuild 0 1 40 true restingPair
                (Neuron.mk 0 0 40 (-3) 2 0 0) Hr) as H.
  destruct H as (_ & _ & _ & Hw & _);
    [reflexivity | simpl; lia | simpl; lia | simpl; lia |].
  exact Hw.
Defined.

(** ** Counting synapses *)

Lemma count_fold_same_lengths (m m' : gmap nat (list Synapse.t)) (b : nat) :
  (forall k, option_Forall2 (fun l l' => length l = length l')
               (m !! k) (m' !! k)) ->
  map_fold (fun _ l count => (count + length l)%nat) b m
  = map_fold (fun _ l count => (count + length l)%nat) b m'.
Proof.
  revert m'. induction m as [|i x m Hi IH] using map_ind; intros m' Hm.
  - assert (m' = ∅) as ->; [|done].
    apply map_eq. intros k. specialize (Hm k).
    rewrite lookup_empty in Hm |- *. by inversion Hm.
  - pose proof (Hm i) as Hmi. rewrite lookup_insert_eq in Hmi.
    inversion Hmi as [l l' Hlen Hl Hl'|]; subst.
    rewrite map_fold_insert_L; [|intros; lia|done].
    rewrite (map_fold_delete_L _ _ i l' m'); [|intros; lia|done].
    rewrite Hlen. f_equal. apply IH. intros k.
    destruct (decide (k = i)) as [->|Hne].
    + rewrite Hi, lookup_delete_eq. constructor.
    + rewrite lookup_delete_ne by done. specialize (Hm k).
      by rewrite lookup_insert_ne in Hm by done.
Qed.

Lemma evolves_counts (R : relation Synapse.t) net net' id :
  evolves R net net' ->
  parameters <$> Network.neurons_ net' = parameters <$> Network.neurons_ net ->
  Network.getSynapseCount net' = Network.getSynapseCount net /\
  Network.getNeuronSynapseCount id net'
  = Network.getNeuronSynapseCount id net.
Proof.
  intros [Hs Hd] Hpar. split.
  - unfold Network.getSynapseCount.
    rewrite <- (Forall2_length _ _ _ Hs). symmetry.
    apply count_fold_same_lengths. intros k.
    destruct (Hd k) as [l l' Hl|]; constructor. by eapply Forall2_length.
  - unfold Network.getNeuronSynapseCount.
    apply (f_equal (fun l => l !! id)) in Hpar.
    rewrite !list_lookup_fmap in Hpar.
    destruct (Network.neurons_ net' !! id) as [n'|],
      (Network.neurons_ net !! id) as [n|]; simplify_eq/=; [|done].
    unfold parameters in Hpar. simplify_eq.
    destruct (Hd id) as [l l' Hl|]; [|lia].
    rewrite (Forall2_length _ _ _ Hl). lia.
Qed.

Lemma step_counts build net id :
  Network.getSynapseCount (Network.step build net)
  = Network.getSynapseCount net /\
  Network.getNeuronSynapseCount id (Network.step build net)
  = Network.getNeuronSynapseCount id net.
Proof.
  assert (PreOrder (fun _ _ : Synapse.t => True)) as HP
    by (split; by intros ?).
  apply (evolves_counts (fun _ _ => True)).
  - by apply (@step_evolves _ HP build net).
  - apply step_parameters.
Qed.

Lemma count_fold_base (m : gmap nat (list Synapse.t)) (b : nat) :
  map_fold (fun _ l count => (count + length l)%nat) (S b) m
  = S (map_fold (fun _ l count => (count + length l)%nat) b m).
Proof. apply (map_fold_comm_acc _ S). intros. lia. Qed.

Lemma count_fold_insert (m : gmap nat (list Synapse.t)) (b : nat) k s :
  map_fold (fun _ l count => (count + length l)%nat) b
    (<[k := default [] (m !! k) ++ [s]]> m)
  = S (map_fold (fun _ l count => (count + length l)%nat) b m).
Proof.
  rewrite <- insert_delete_eq.
  rewrite map_fold_insert_L; [|intros; lia|apply lookup_delete_eq].
  rewrite length_app. simpl.
  destruct (m !! k) as [l|] eqn:Hk; simpl.
  - rewrite (map_fold_delete_L _ _ k l m); [lia|intros; lia|done].
  - rewrite delete_id by done. lia.
Qed.

(** X16.  Counting synapses.  On a reachable network [getNeuronSynapseCount]
    is the number of synapses a spike of that neuron is delivered over; a
    successful [connectNeurons] raises [getSynapseCount] by exactly one
    and a failed one leaves it alone; and no number of ticks changes
    either count. *)
Theorem synapse_counts build net id from to w plastic (k : nat) :
  reachable build net ->
  Network.getNeuronSynapseCount id net = length (outgoingOf net id) /\
  Network.getSynapseCount (Network.connectNeurons from to w plastic net).2
  = (Network.getSynapseCount net
     + if (Network.connectNeurons from to w plastic net).1 then 1 else 0)%nat /\
  Network.getSynapseCount (Network.run build k net)
  = Network.getSynapseCount net /\
  Network.getNeuronSynapseCount id (Network.run build k net)
  = Network.getNeuronSynapseCount id net.
Proof.
  intros Hr. split_and!.
  - apply reachable_invariant in Hr as (_ & Hc & _).
    unfold Network.getNeuronSynapseCount, outgoingOf, outgoing.
    destruct (Network.neurons_ net !! id) as [n|] eqn:Hn; [|done].
    rewrite length_app. unfold Network.contiguous, Network.dynamicOf.
    rewrite length_take, length_drop.
    unfold contiguousInBounds in Hc. rewrite Forall_forall in Hc.
    specialize (Hc n (list_elem_of_lookup_2 _ _ _ Hn)).
    destruct (Network.dynamicSynapses_ net !! id); simpl; lia.
  - unfold Network.connectNeurons. cbv zeta.
    destruct (_ || _); [simpl; lia|].
    destruct (Network.neurons_ net !! from) as [src|]; [|simpl; lia].
    destruct (_ || _); cbn [fst snd]; unfold Network.getSynapseCount;
      net_fields.
    + rewrite length_app. simpl. rewrite Nat.add_1_r, count_fold_base. lia.
    + rewrite count_fold_insert. lia.
  - clear Hr. induction k as [|k IH]; [done|].
    rewrite run_S_end, <- IH. exact (proj1 (step_counts build _ id)).
  - clear Hr. induction k as [|k IH]; [done|].
    rewrite run_S_end, <- IH. exact (proj2 (step_counts build _ id)).
Qed.

Lemma synapse_counts_witness :
  reachable lowIdBuild inhibitedPair /\
  Network.getSynapseCount (Network.run lowIdBuild 3 inhibitedPair) = 1%nat.
Proof.
  assert (reachable lowIdBuild inhibitedPair) as Hr.
  { apply reach_injectSpike, reach_connectNeurons, reach_addNeuron,
      reach_addNeuron, reach_make. }
  split; [exact Hr|].
  exact (proj1 (proj2 (proj2
    (synapse_counts lowIdBuild inhibitedPair 0 0 1 0 false 3 Hr)))).
Defined.

(** ** Popping the spike queue *)

Lemma remove_first_perm m l e :
  List.find (fun e => SpikeQueue.tick e =? m) l = Some e ->
  l ≡ₚ e :: SpikeQueue.remove_first m l.
Proof.
  induction l as [|x l IH]; simpl; [done|].
  destruct (SpikeQueue.tick x =? m); [by intros [= ->]|].
  intros Hf. rewrite (IH Hf) at 1. apply Permutation_swap.
Qed.

(** X17.  [popSpike] takes an earliest event.  On an empty queue it returns
    [INVALID_NEURON] and changes nothing, and [peekNextTick] is -1.
    Otherwise it returns the neuron of an event whose tick is
    [peekNextTick], no queued event is earlier than that tick, and the
    queue loses exactly that one event. *)
Theorem popSpike_takes_an_earliest_event q :
  match SpikeQueue.queue_ q with
  | [] =>
      SpikeQueue.popSpike q = (SpikeQueue.INVALID_NEURON, q) /\
      SpikeQueue.peekNextTick q = -1 /\
      SpikeQueue.empty q = true
  | _ :: _ =>
      exists e,
        (SpikeQueue.popSpike q).1 = SpikeQueue.neuronId e /\
        SpikeQueue.tick e = SpikeQueue.peekNextTick q /\
        Forall (fun e' => SpikeQueue.peekNextTick q <= SpikeQueue.tick e')
          (SpikeQueue.queue_ q) /\
        SpikeQueue.queue_ q
          ≡ₚ e :: SpikeQueue.queue_ (SpikeQueue.popSpike q).2 /\
        SpikeQueue.size q = S (SpikeQueue.size (SpikeQueue.popSpike q).2) /\
        SpikeQueue.empty q = false
  end.
Proof.
  destruct q as [l fired tk].
  unfold SpikeQueue.popSpike, SpikeQueue.peekNextTick, SpikeQueue.size,
    SpikeQueue.empty, SpikeQueue.top, SpikeQueue.pop.
  cbn [SpikeQueue.queue_ SpikeQueue.currentFired_ SpikeQueue.currentTick_].
  destruct l as [|x l]; [done|].
  destruct (SpikeQueue.min_tick (x :: l)) as [m|] eqn:Hm;
    [|by apply min_tick_None in Hm].
  destruct (min_tick_attained _ _ Hm) as (e0 & He0 & Ht0).
  destruct (List.find (fun e => SpikeQueue.tick e =? m) (x :: l))
    as [e|] eqn:Hfind.
  - pose proof (find_some _ _ Hfind) as [_ Ht%Z.eqb_eq].
    pose proof (remove_first_perm _ _ _ Hfind) as Hperm.
    exists e. cbn [fst snd SpikeQueue.queue_]. split_and!; try done.
    + rewrite Ht. by apply min_tick_lower.
    + by rewrite Hperm at 1.
  - exfalso. apply list_elem_of_In in He0.
    pose proof (find_none _ _ Hfind e0 He0) as Hno. simpl in Hno.
    apply Z.eqb_neq in Hno. done.
Qed.

(** ** Reading the motor neurons after a tick *)

Lemma step_fired_discharged build net id :
  id ∈ Network.firedThisTick_ (Network.step build net) ->
  Network.getCharge id (Network.step build net) = 0.
Proof.
  intros [_ Hw]%step_fired_subset.
  destruct (winner_awake build net id Hw) as (n & Hn & _).
  destruct (step_neuron build net id n Hn) as (n' & Hn' & _ & Hc).
  destruct (decide _); [|done]. unfold Network.getCharge. rewrite Hn'.
  by destruct Hc.
Qed.

Lemma getAction_discharged m :
  (forall id, Network.didFire id (MotorSystem.network_ m) = true ->
              Network.getCharge id (MotorSystem.network_ m) = 0) ->
  (MotorSystem.getAction m).1
  = (if MotorSystem.didFire MotorSystem.LEFT m then MotorSystem.LEFT
     else if MotorSystem.didFire MotorSystem.RIGHT m then MotorSystem.RIGHT
     else MotorSystem.NONE).
Proof.
  intros Hzero. unfold MotorSystem.getAction, MotorSystem.didFire.
  cbn [fst].
  destruct (Network.didFire (MotorSystem.motorLeft_ m) _) eqn:Hl,
    (Network.didFire (MotorSystem.motorRight_ m) _) eqn:Hr;
    cbn [andb negb]; try reflexivity.
  by rewrite (Hzero _ Hl), (Hzero _ Hr).
Qed.

(** X18.  A neuron that fired on a tick reads charge 0 after it, so the
    charge tie-break of [getAction] never separates two motor neurons that
    fired on the same tick: read right after a tick, the action is LEFT
    whenever the left motor neuron fired, RIGHT when only the right one
    fired, and NONE when neither did. *)
Theorem motor_action_after_a_tick build m id :
  (Network.didFire id (Network.step build (MotorSystem.network_ m)) = true ->
   Network.getCharge id (Network.step build (MotorSystem.network_ m)) = 0) /\
  (MotorSystem.getAction
     (MotorSystem.set_network
        (Network.step build (MotorSystem.network_ m)) m)).1
  = (if MotorSystem.didFire MotorSystem.LEFT
          (MotorSystem.set_network
             (Network.step build (MotorSystem.network_ m)) m)
     then MotorSystem.LEFT
     else if MotorSystem.didFire MotorSystem.RIGHT
               (MotorSystem.set_network
                  (Network.step build (MotorSystem.network_ m)) m)
          then MotorSystem.RIGHT
          else MotorSystem.NONE).
Proof.
  assert (forall i,
            Network.didFire i (Network.step build (MotorSystem.network_ m))
              = true ->
            Network.getCharge i (Network.step build (MotorSystem.network_ m))
              = 0) as Hzero.
  { intros i. unfold Network.didFire. intros Hf%bool_decide_eq_true.
    by apply step_fired_discharged. }
  split; [apply Hzero|].
  apply getAction_discharged. exact Hzero.
Qed.

(** ** The life of a column *)

(** What the store's tick does to its columns: it either keeps every
    allocation flag, or allocates the lowest free column. *)

Lemma step_columns_cases u :
  (CorticalColumn.isAllocated <$> UKS.columns_ (UKS.step u)
   = CorticalColumn.isAllocated <$> UKS.columns_ u /\
   CorticalColumn.allocatedAtTick <$> UKS.columns_ (UKS.step u)
   = CorticalColumn.allocatedAtTick <$> UKS.columns_ u /\
   UKS.totalAllocations_ (UKS.step u) = UKS.totalAllocations_ u) \/
  (exists c col,
     UKS.findFreeColumn u = Some c /\
     UKS.columns_ u !! c = Some col /\
     CorticalColumn.isAllocated col = false /\
     (forall j cj, (j < c)%nat -> UKS.columns_ u !! j = Some cj ->
                   CorticalColumn.isAllocated cj = true) /\
     CorticalColumn.isAllocated <$> UKS.columns_ (UKS.step u)
     = <[c := true]> (CorticalColumn.isAllocated <$> UKS.columns_ u) /\
     CorticalColumn.allocatedAtTick <$> UKS.columns_ (UKS.step u)
     = <[c := Network.currentTick_ (UKS.network_ u)]>
         (CorticalColumn.allocatedAtTick <$> UKS.columns_ u) /\
     UKS.totalAllocations_ (UKS.step u) = UKS.totalAllocations_ u + 1 /\
     UKS.activeColumn_ (UKS.step u) = Some c).
Proof.
  unfold UKS.step. cbv zeta. unfold UKS.updateActiveFlags.
  cbn [UKS.columns_ UKS.set_columns UKS.totalAllocations_
       UKS.activeColumn_].
  rewrite <- !list_fmap_compose.
  destruct (UKS.getRespondingColumns u) as [|first rest].
  - cbn [UKS.requestFired_ UKS.set_requestFired].
    destruct (Network.didFire _ _); [|by left].
    unfold UKS.novelty. cbv zeta.
    cbn [UKS.config_ UKS.currentInput_ UKS.set_network
         UKS.set_requestFired].
    destruct (_ && _); [|by left].
    change (UKS.findFreeColumn (UKS.set_network _ _))
      with (UKS.findFreeColumn u).
    destruct (UKS.findFreeColumn u) as [c|] eqn:Hfree; [|by left].
    destruct (findFreeFrom_spec 0 (UKS.columns_ u) c Hfree)
      as (_ & col & Hcol & Hcolfree & Hbefore).
    rewrite Nat.sub_0_r in Hcol, Hbefore.
    right. exists c, col. split; [done|]. split; [done|].
    split; [done|]. split; [done|].
    unfold UKS.allocateColumn.
    cbn [UKS.columns_ UKS.set_network UKS.set_requestFired].
    rewrite Hcol. cbn. rewrite !list_fmap_insert. done.
  - left. unfold UKS.recognize.
    cbn [UKS.columns_ UKS.set_network UKS.set_requestFired
         UKS.set_totalRecognitions UKS.set_columns UKS.totalAllocations_
         UKS.set_activeColumn].
    split_and!; [| |done].
    + etrans; [apply list_fmap_ext; intros ? c _; reflexivity|].
      by apply fmap_alter_frame.
    + etrans; [apply list_fmap_ext; intros ? c _; reflexivity|].
      by apply fmap_alter_frame.
Qed.

Lemma allocatedCount_flags cols cols' :
  CorticalColumn.isAllocated <$> cols' = CorticalColumn.isAllocated <$> cols ->
  allocatedCount cols' = allocatedCount cols.
Proof.
  unfold allocatedCount. revert cols'.
  induction cols as [|c cols IH]; intros [|c' cols']; try done.
  rewrite !fmap_cons. intros [= Hc Hrest]. rewrite !filter_cons, Hc.
  destruct (decide _); simpl; by rewrite (IH cols').
Qed.

Lemma allocatedFirst_flags cols cols' :
  CorticalColumn.isAllocated <$> cols' = CorticalColumn.isAllocated <$> cols ->
  allocatedFirst cols -> allocatedFirst cols'.
Proof.
  intros Hflags Hfirst i j ci cj Hij Hi Hj Hcj.
  destruct (fmap_eq_lookup CorticalColumn.isAllocated cols' cols i ci)
    as (di & Hdi & Hai); [done..|].
  destruct (fmap_eq_lookup CorticalColumn.isAllocated cols' cols j cj)
    as (dj & Hdj & Haj); [done..|].
  rewrite <- Hai. apply (Hfirst i j di dj); [done..|]. congruence.
Qed.

Lemma allocatedCount_all cols :
  Forall (fun c => CorticalColumn.isAllocated c = true) cols ->
  allocatedCount cols = length cols.
Proof.
  unfold allocatedCount. induction 1 as [|c cols Hc _ IH]; [done|].
  rewrite filter_cons. destruct (decide _); [|done]. simpl. by rewrite IH.
Qed.

Lemma allocatedCount_none cols :
  Forall (fun c => CorticalColumn.isAllocated c = false) cols ->
  allocatedCount cols = 0%nat.
Proof.
  unfold allocatedCount. induction 1 as [|c cols Hc _ IH]; [done|].
  rewrite filter_cons. destruct (decide _); [congruence|done].
Qed.

Lemma allocatedCount_app cols1 cols2 :
  allocatedCount (cols1 ++ cols2)
  = (allocatedCount cols1 + allocatedCount cols2)%nat.
Proof. unfold allocatedCount. by rewrite filter_app, length_app. Qed.

(** With the allocated columns first, the lowest free column has as its
    index the number of allocated columns. *)
Lemma allocatedFirst_count cols c col :
  allocatedFirst cols ->
  cols !! c = Some col ->
  CorticalColumn.isAllocated col = false ->
  (forall j cj, (j < c)%nat -> cols !! j = Some cj ->
                CorticalColumn.isAllocated cj = true) ->
  allocatedCount cols = c.
Proof.
  intros Hfirst Hc Hfree Hbefore.
  pose proof (lookup_lt_Some _ _ _ Hc) as Hlt.
  rewrite <- (take_drop_middle cols c col Hc).
  rewrite allocatedCount_app, allocatedCount_all, allocatedCount_none.
  - rewrite length_take. lia.
  - constructor; [done|]. apply Forall_forall. intros cj Hcj.
    apply list_elem_of_lookup in Hcj as [k Hk]. rewrite lookup_drop in Hk.
    destruct (CorticalColumn.isAllocated cj) eqn:Hj; [|done].
    rewrite <- Hfree. symmetry.
    apply (Hfirst c (S c + k)%nat col cj); [lia|done..].
  - apply Forall_forall. intros cj Hcj.
    apply list_elem_of_lookup in Hcj as [k Hk].
    pose proof (lookup_lt_Some _ _ _ Hk) as Hk'. rewrite length_take in Hk'.
    rewrite lookup_take_lt in Hk by lia. apply (Hbefore k); [lia|done].
Qed.

Lemma allocatedCount_set cols cols' c col :
  cols !! c = Some col ->
  CorticalColumn.isAllocated col = false ->
  CorticalColumn.isAllocated <$> cols'
  = <[c := true]> (CorticalColumn.isAllocated <$> cols) ->
  allocatedCount cols' = S (allocatedCount cols).
Proof.
  intros Hc Hfree Hflags.
  rewrite <- (allocatedCount_insert c col (UKS.markAllocated 0 col) cols)
    by done.
  apply allocatedCount_flags. by rewrite list_fmap_insert.
Qed.

Lemma scanAllocated_first c count i cols col :
  cols !! c = Some col ->
  CorticalColumn.isAllocated col = true ->
  (forall j cj, (j < c)%nat -> cols !! j = Some cj ->
                CorticalColumn.isAllocated cj = true) ->
  BrainStep.scanAllocated (S (count + c)) count i cols = Some (i + c)%nat.
Proof.
  revert count i cols.
  induction c as [|c IH]; intros count i [|x cols] Hc Hcol Hbefore;
    simplify_eq/=.
  - rewrite Hcol. rewrite Nat.add_0_r, Nat.eqb_refl. by rewrite Nat.add_0_r.
  - rewrite (Hbefore 0%nat x) by (done || lia).
    destruct (Nat.eqb_spec count (count + S c)) as [|_]; [lia|].
    replace (S (count + S c)) with (S (S count + c)) by lia.
    rewrite (IH (S count) (S i) cols).
    + apply (f_equal Some). lia.
    + done.
    + done.
    + intros j cj Hj Hl. apply (Hbefore (S j)); [lia|done].
Qed.

(** X19.  Columns fill in order, for good.  If the allocated columns come
    first (as they do after construction and after [reset]), then after the
    store's tick they still do; every allocated column is still allocated
    and keeps its allocation tick; and either the count and
    [totalAllocations_] are unchanged, or both have grown by one and the
    new column, whose index is the old count, is the active column. *)
Theorem columns_fill_in_order u :
  allocatedFirst (UKS.columns_ u) ->
  allocatedFirst (UKS.columns_ (UKS.step u)) /\
  length (UKS.columns_ (UKS.step u)) = length (UKS.columns_ u) /\
  (forall i c, UKS.columns_ u !! i = Some c ->
     CorticalColumn.isAllocated c = true ->
     exists c', UKS.columns_ (UKS.step u) !! i = Some c' /\
       CorticalColumn.isAllocated c' = true /\
       CorticalColumn.allocatedAtTick c' = CorticalColumn.allocatedAtTick c) /\
  ((UKS.getAllocatedCount (UKS.step u) = UKS.getAllocatedCount u /\
    UKS.totalAllocations_ (UKS.step u) = UKS.totalAllocations_ u) \/
   (UKS.getAllocatedCount (UKS.step u) = S (UKS.getAllocatedCount u) /\
    UKS.totalAllocations_ (UKS.step u) = UKS.totalAllocations_ u + 1 /\
    UKS.activeColumn_ (UKS.step u) = Some (UKS.getAllocatedCount u) /\
    UKS.findFreeColumn u = Some (UKS.getAllocatedCount u))).
Proof.
  intros Hfirst.
  assert (forall (A : Type) (g : CorticalColumn.t -> A) i c,
            UKS.columns_ u !! i = Some c ->
            (g <$> UKS.columns_ (UKS.step u)) !! i = Some (g c) ->
            exists c', UKS.columns_ (UKS.step u) !! i = Some c' /\ g c' = g c)
    as Hlook.
  { intros A g i c _. rewrite list_lookup_fmap.
    destruct (UKS.columns_ (UKS.step u) !! i) as [c'|]; [|done].
    intros [= Hg]. by exists c'. }
  destruct (step_columns_cases u)
    as [(Hflags & Hticks & Htotal)
       |(c & col & Hfree & Hcol & Hcolfree & Hbefore & Hflags & Hticks
         & Htotal & Hactive)].
  - split_and!.
    + by apply (allocatedFirst_flags (UKS.columns_ u)).
    + apply (f_equal length) in Hflags. by rewrite !length_fmap in Hflags.
    + intros i ci Hi Hai.
      destruct (fmap_eq_lookup CorticalColumn.isAllocated _ _ i ci Hflags Hi)
        as (c' & Hc' & Ha').
      destruct (fmap_eq_lookup CorticalColumn.allocatedAtTick _ _ i ci
                  Hticks Hi) as (c'' & Hc'' & Ht').
      simplify_eq. exists c'. split_and!; [done| |done]. congruence.
    + left. split; [|done]. rewrite !getAllocatedCount_columns.
      by apply allocatedCount_flags.
  - assert (allocatedCount (UKS.columns_ u) = c) as Hcount
        by by apply (allocatedFirst_count _ c col).
    split_and!.
    + intros i j ci cj Hij Hi Hj Hcj.
      apply (f_equal (fun l => l !! i)) in Hflags as Hfi.
      apply (f_equal (fun l => l !! j)) in Hflags as Hfj.
      rewrite !list_lookup_fmap, Hi in Hfi.
      rewrite !list_lookup_fmap, Hj in Hfj. simpl in Hfi, Hfj.
      destruct (decide (i = c)) as [Hic|Hic].
      { rewrite Hic, list_lookup_insert_eq in Hfi; [congruence|].
        rewrite length_fmap. by eapply lookup_lt_Some. }
      rewrite list_lookup_insert_ne in Hfi by done.
      rewrite list_lookup_fmap in Hfi.
      destruct (UKS.columns_ u !! i) as [di|] eqn:Hdi; [|done].
      simpl in Hfi. injection Hfi as Hfi. rewrite Hfi.
      destruct (decide (j = c)) as [Hjc|Hjc].
      { apply (Hbefore i); [lia|done]. }
      rewrite list_lookup_insert_ne in Hfj by done.
      rewrite list_lookup_fmap in Hfj.
      destruct (UKS.columns_ u !! j) as [dj|] eqn:Hdj; [|done].
      simpl in Hfj. injection Hfj as Hfj.
      apply (Hfirst i j di dj); [done..|]. congruence.
    + apply (f_equal length) in Hflags.
      by rewrite length_insert, !length_fmap in Hflags.
    + intros i ci Hi Hai.
      assert (i <> c) as Hic by (intros ->; congruence).
      destruct (Hlook _ CorticalColumn.isAllocated i ci Hi) as (c' & Hc' & Ha').
      { rewrite Hflags, list_lookup_insert_ne by done.
        by rewrite list_lookup_fmap, Hi. }
      destruct (Hlook _ CorticalColumn.allocatedAtTick i ci Hi)
        as (c'' & Hc'' & Ht').
      { rewrite Hticks, list_lookup_insert_ne by done.
        by rewrite list_lookup_fmap, Hi. }
      simplify_eq. exists c'. split_and!; [done| |done]. congruence.
    + right. rewrite !getAllocatedCount_columns, Hcount.
      split_and!; [|done..].
      rewrite <- Hcount. by apply (allocatedCount_set _ _ c col).
Qed.

Lemma all_free_allocatedFirst cols :
  Forall (fun c => CorticalColumn.isAllocated c = false) cols ->
  allocatedFirst cols.
Proof.
  intros Hfree i j ci cj _ _ Hj Hcj. rewrite Forall_forall in Hfree.
  rewrite (Hfree cj) in Hcj; [done|]. by eapply list_elem_of_lookup_2.
Qed.

Lemma columns_fill_in_order_witness :
  allocatedFirst
    (UKS.columns_
       (hostSpike (UKS.requestNeuron_ smallStore)
          (UKS.present [0%nat; 1%nat] smallStore))) /\
  allocatedFirst
    (UKS.columns_
       (UKS.step
          (hostSpike (UKS.requestNeuron_ smallStore)
             (UKS.present [0%nat; 1%nat] smallStore)))).
Proof.
  assert (allocatedFirst
            (UKS.columns_
               (hostSpike (UKS.requestNeuron_ smallStore)
                  (UKS.present [0%nat; 1%nat] smallStore)))) as Hfirst.
  { apply all_free_allocatedFirst. vm_compute.
    constructor; [reflexivity|]. constructor; [reflexivity|]. constructor. }
  split; [exact Hfirst|].
  exact (proj1 (columns_fill_in_order _ Hfirst)).
Defined.

(** X20.  [Brain::step] finds the column it has just learned.  With the
    allocated columns first, whenever the store's tick raises the allocated
    count, the scan for "the N-th allocated column" sets
    [lastAllocatedColumn_] to the column that has just been allocated: the
    active column the tick reports, stamped with the current tick. *)
Theorem brain_finds_the_new_column u last :
  allocatedFirst (UKS.columns_ u) ->
  (UKS.getAllocatedCount u < UKS.getAllocatedCount (UKS.step u))%nat ->
  BrainStep.trackAllocation (UKS.getAllocatedCount u) last (UKS.step u)
  = (true, UKS.activeColumn_ (UKS.step u)) /\
  exists c col,
    UKS.activeColumn_ (UKS.step u) = Some c /\
    UKS.columns_ (UKS.step u) !! c = Some col /\
    CorticalColumn.isAllocated col = true /\
    CorticalColumn.allocatedAtTick col
    = Network.currentTick_ (UKS.network_ u).
Proof.
  intros Hfirst Hgrow.
  destruct (step_columns_cases u)
    as [(Hflags & _ & _)
       |(c & col & Hfree & Hcol & Hcolfree & Hbefore & Hflags & Hticks
         & Htotal & Hactive)].
  { rewrite !getAllocatedCount_columns in Hgrow.
    rewrite (allocatedCount_flags _ _ Hflags) in Hgrow. lia. }
  pose proof (lookup_lt_Some _ _ _ Hcol) as Hlt.
  assert (allocatedCount (UKS.columns_ u) = c) as Hcount
      by by apply (allocatedFirst_count _ c col).
  assert (allocatedCount (UKS.columns_ (UKS.step u)) = S c) as Hcount'.
  { rewrite <- Hcount. by apply (allocatedCount_set _ _ c col). }
  assert (exists col', UKS.columns_ (UKS.step u) !! c = Some col' /\
            CorticalColumn.isAllocated col' = true /\
            CorticalColumn.allocatedAtTick col'
            = Network.currentTick_ (UKS.network_ u)) as (col' & Hcol' & Ha & Ht).
  { apply (f_equal (fun l => l !! c)) in Hflags.
    apply (f_equal (fun l => l !! c)) in Hticks.
    rewrite list_lookup_fmap in Hflags. rewrite list_lookup_fmap in Hticks.
    rewrite list_lookup_insert_eq in Hflags by by rewrite length_fmap.
    rewrite list_lookup_insert_eq in Hticks by by rewrite length_fmap.
    destruct (UKS.columns_ (UKS.step u) !! c) as [col'|]; [|done].
    exists col'. simpl in *. split; [done|]. split; congruence. }
  split; [|by exists c, col'].
  unfold BrainStep.trackAllocation. cbv zeta.
  rewrite !getAllocatedCount_columns, Hcount, Hcount'.
  rewrite (proj2 (Nat.ltb_lt c (S c))) by lia.
  rewrite (scanAllocated_first c 0 0 _ col'); [by rewrite Hactive|done..|].
  intros j cj Hj Hlj.
  apply (f_equal (fun l => l !! j)) in Hflags.
  rewrite list_lookup_fmap, Hlj in Hflags.
  rewrite list_lookup_insert_ne, list_lookup_fmap in Hflags by lia.
  destruct (UKS.columns_ u !! j) as [dj|] eqn:Hdj; [|done].
  simpl in Hflags. injection Hflags as ->. by apply (Hbefore j).
Qed.

Lemma brain_finds_the_new_column_witness :
  (BrainStep.trackAllocation 0 None oneAllocated).2 = Some 0%nat.
Proof.
  assert (allocatedFirst
            (UKS.columns_
               (hostSpike (UKS.requestNeuron_ smallStore)
                  (UKS.present [0%nat; 1%nat] smallStore)))) as Hfirst.
  { apply all_free_allocatedFirst. vm_compute.
    constructor; [reflexivity|]. constructor; [reflexivity|]. constructor. }
  pose proof (brain_finds_the_new_column
                (hostSpike (UKS.requestNeuron_ smallStore)
                   (UKS.present [0%nat; 1%nat] smallStore)) None Hfirst)
    as H.
  destruct H as [Htrack _]; [vm_compute; lia|].
  change (UKS.step _) with oneAllocated in Htrack.
  change (UKS.getAllocatedCount _) with 0%nat in Htrack at 1.
  rewrite Htrack. vm_compute. reflexivity.
Defined.

(** ** The layout of a new store *)

Lemma connect_neuron_count from to w net :
  length (Network.neurons_ (UKS.connect from to w net))
  = length (Network.neurons_ net).
Proof.
  unfold UKS.connect, Network.connectNeurons. cbv zeta.
  destruct (_ || _); [done|].
  destruct (Network.neurons_ net !! from); [|done].
  destruct (_ || _); cbn [snd]; net_fields; [|done].
  by rewrite length_insert.
Qed.

Lemma addNeuron_spec thresh leak refractory net :
  (Network.addNeuron thresh leak refractory net).1
  = length (Network.neurons_ net) /\
  length (Network.neurons_ (Network.addNeuron thresh leak refractory net).2)
  = S (length (Network.neurons_ net)).
Proof.
  unfold Network.addNeuron. cbv zeta. cbn [fst snd]. net_fields.
  split; [done|]. rewrite length_app. simpl. lia.
Qed.

Lemma addNeurons_spec count thresh leak refractory net :
  (UKS.addNeurons count thresh leak refractory net).1
  = seq (length (Network.neurons_ net)) count /\
  length (Network.neurons_
            (UKS.addNeurons count thresh leak refractory net).2)
  = (length (Network.neurons_ net) + count)%nat.
Proof.
  revert net. induction count as [|count IH]; intros net.
  - simpl. split; [done|]. lia.
  - cbn [UKS.addNeurons].
    pose proof (addNeuron_spec thresh leak refractory net) as [Hid Hlen].
    destruct (Network.addNeuron thresh leak refractory net) as [id net1].
    cbn [fst snd] in Hid, Hlen.
    specialize (IH net1) as [Hids Hlen2].
    destruct (UKS.addNeurons count thresh leak refractory net1)
      as [ids net2].
    cbn [fst snd] in *. rewrite Hid, Hids, Hlen, Hlen2. split; [done|]. lia.
Qed.

Lemma wireColumn_neuron_count inputs pyramidals output inhibitory net :
  length (Network.neurons_
            (UKS.wireColumn inputs pyramidals output inhibitory net))
  = length (Network.neurons_ net).
Proof.
  unfold UKS.wireColumn. cbv zeta.
  repeat (rewrite (foldl_preserves _
                     (fun n => length (Network.neurons_ n)));
          [|intros a b;
            try (rewrite (foldl_preserves _
                            (fun n => length (Network.neurons_ n)));
                 [done|intros a' b']);
            try destruct (_ <? _); try destruct (_ && _);
            by rewrite ?connect_neuron_count]).
  done.
Qed.

Lemma buildColumns_spec remaining col net :
  (UKS.buildColumns remaining col net).1
  = columnAt (length (Network.neurons_ net)) col <$> seq 0 remaining /\
  length (Network.neurons_ (UKS.buildColumns remaining col net).2)
  = (length (Network.neurons_ net) + 72 * remaining)%nat.
Proof.
  revert col net. induction remaining as [|r IH]; intros col net.
  - simpl. split; [done|]. lia.
  - cbn [UKS.buildColumns].
    pose proof (addNeurons_spec COLUMN_INPUT_NEURONS COLUMN_INPUT_THRESHOLD
                  1 2 net) as [Hin Hlen1].
    destruct (UKS.addNeurons COLUMN_INPUT_NEURONS _ _ _ net)
      as [inputs net1]. cbn [fst snd] in Hin, Hlen1.
    pose proof (addNeurons_spec COLUMN_PYRAMIDAL_NEURONS
                  COLUMN_PYRAMIDAL_THRESHOLD 1 3 net1) as [Hpyr Hlen2].
    destruct (UKS.addNeurons COLUMN_PYRAMIDAL_NEURONS _ _ _ net1)
      as [pyramidals net2]. cbn [fst snd] in Hpyr, Hlen2.
    pose proof (addNeuron_spec COLUMN_OUTPUT_THRESHOLD 0 2 net2)
      as [Hout Hlen3].
    destruct (Network.addNeuron COLUMN_OUTPUT_THRESHOLD 0 2 net2)
      as [output net3]. cbn [fst snd] in Hout, Hlen3.
    pose proof (addNeuron_spec COLUMN_INHIBITORY_THRESHOLD 0 2 net3)
      as [Hinh Hlen4].
    destruct (Network.addNeuron COLUMN_INHIBITORY_THRESHOLD 0 2 net3)
      as [inhibitory net4]. cbn [fst snd] in Hinh, Hlen4.
    cbv zeta.
    pose proof (wireColumn_neuron_count inputs pyramidals output inhibitory
                  net4) as Hlen5.
    specialize (IH (S col)
                  (UKS.wireColumn inputs pyramidals output inhibitory net4))
      as [Hcols Hlen6].
    destruct (UKS.buildColumns r (S col) _) as [cols net6].
    cbn [fst snd] in *.
    unfold COLUMN_INPUT_NEURONS, COLUMN_PYRAMIDAL_NEURONS in *.
    split.
    + rewrite Hcols. cbn [seq fmap list_fmap]. f_equal.
      * unfold columnAt, COLUMN_INPUT_NEURONS, COLUMN_PYRAMIDAL_NEURONS.
        rewrite Hin, Hpyr, Hout, Hinh, Hlen3, Hlen2, Hlen1.
        f_equal; try (f_equal; lia); lia.
      * rewrite <- fmap_S_seq, <- list_fmap_compose.
        apply list_fmap_ext. intros _ k _. simpl.
        unfold columnAt. rewrite Hlen5, Hlen4, Hlen3, Hlen2, Hlen1.
        f_equal; try (f_equal; lia); lia.
    + rewrite Hlen6, Hlen5, Hlen4, Hlen3, Hlen2, Hlen1. lia.
Qed.

Lemma buildWTACircuit_spec bus cols net :
  (UKS.buildWTACircuit bus cols net).1
  = (length (Network.neurons_ net), S (length (Network.neurons_ net))) /\
  length (Network.neurons_ (UKS.buildWTACircuit bus cols net).2)
  = S (S (length (Network.neurons_ net))).
Proof.
  unfold UKS.buildWTACircuit.
  pose proof (addNeuron_spec 130 3 25 net) as [Hreq Hlen1].
  destruct (Network.addNeuron 130 3 25 net) as [request net1].
  cbn [fst snd] in Hreq, Hlen1.
  pose proof (addNeuron_spec 3 0 2 net1) as [Hinh Hlen2].
  destruct (Network.addNeuron 3 0 2 net1) as [inhibitor net2].
  cbn [fst snd] in Hinh, Hlen2. cbv zeta. cbn [fst snd].
  split; [by rewrite Hreq, Hinh, Hlen1|].
  repeat (rewrite (foldl_preserves _
                     (fun n => length (Network.neurons_ n)));
          [|intros a b;
            try (rewrite (foldl_preserves _
                            (fun n => length (Network.neurons_ n)));
                 [done|intros a' b']);
            try destruct (negb _);
            by rewrite ?connect_neuron_count]).
  by rewrite Hlen2, Hlen1.
Qed.

Lemma make_spec net cfg :
  UKS.config_ (UKS.make net cfg) = cfg /\
  UKS.busNeurons_ (UKS.make net cfg)
  = seq (length (Network.neurons_ net)) (UKS.busWidth cfg) /\
  UKS.columns_ (UKS.make net cfg)
  = columnAt (length (Network.neurons_ net) + UKS.busWidth cfg) 0
      <$> seq 0 (UKS.numColumns cfg) /\
  UKS.requestNeuron_ (UKS.make net cfg)
  = (length (Network.neurons_ net) + UKS.busWidth cfg
     + 72 * UKS.numColumns cfg)%nat /\
  UKS.globalInhibitor_ (UKS.make net cfg)
  = (length (Network.neurons_ net) + UKS.busWidth cfg
     + 72 * UKS.numColumns cfg + 1)%nat /\
  length (Network.neurons_ (UKS.network_ (UKS.make net cfg)))
  = (length (Network.neurons_ net) + UKS.busWidth cfg
     + 72 * UKS.numColumns cfg + 2)%nat /\
  UKS.totalAllocations_ (UKS.make net cfg) = 0.
Proof.
  unfold UKS.make, UKS.buildBus.
  pose proof (addNeurons_spec (UKS.busWidth cfg) 2 0 1 net) as [Hbus Hlen1].
  destruct (UKS.addNeurons (UKS.busWidth cfg) 2 0 1 net) as [bus net1].
  cbn [fst snd] in Hbus, Hlen1.
  pose proof (buildColumns_spec (UKS.numColumns cfg) 0 net1)
    as [Hcols Hlen2].
  destruct (UKS.buildColumns (UKS.numColumns cfg) 0 net1) as [cols net2].
  cbn [fst snd] in Hcols, Hlen2.
  pose proof (buildWTACircuit_spec bus cols net2) as [Hwta Hlen3].
  destruct (UKS.buildWTACircuit bus cols net2) as [[request inhibitor] net3].
  cbn [fst snd] in Hwta, Hlen3. injection Hwta as -> ->.
  cbn [UKS.busNeurons_ UKS.columns_ UKS.requestNeuron_ UKS.globalInhibitor_
       UKS.network_ UKS.config_ UKS.totalAllocations_].
  rewrite Hlen1 in Hcols, Hlen2.
  split_and!; try done; lia.
Qed.

Lemma columnAt_free base k :
  CorticalColumn.isAllocated (columnAt base 0 k) = false.
Proof. done. Qed.

(** X21.  The layout of a new store.  [UKS(network, config)] on a network of
    [base] neurons appends, in this order, the [busWidth] bus neurons, 72
    neurons per column (20 input, 50 pyramidal, the output, the
    inhibitory) and the Request neuron and the global inhibitor; every
    column is free. *)
Theorem new_store_layout net cfg :
  let base := length (Network.neurons_ net) in
  let width := UKS.busWidth cfg in
  let count := UKS.numColumns cfg in
  let u := UKS.make net cfg in
  UKS.busNeurons_ u = seq base width /\
  UKS.columns_ u = columnAt (base + width) 0 <$> seq 0 count /\
  UKS.requestNeuron_ u = (base + width + 72 * count)%nat /\
  UKS.globalInhibitor_ u = (base + width + 72 * count + 1)%nat /\
  length (Network.neurons_ (UKS.network_ u))
  = (base + width + 72 * count + 2)%nat /\
  UKS.getAllocatedCount u = 0%nat /\
  UKS.getFreeCount u = count /\
  UKS.findFreeColumn u = (if count is O then None else Some 0%nat).
Proof.
  intros base width count u.
  destruct (make_spec net cfg)
    as (Hcfg & Hbus & Hcols & Hreq & Hinh & Hlen & Htot).
  fold base width count u in Hbus, Hcols, Hreq, Hinh, Hlen.
  assert (allocatedCount (UKS.columns_ u) = 0%nat) as Hzero.
  { apply allocatedCount_none. rewrite Hcols. apply Forall_fmap.
    by apply Forall_forall. }
  unfold UKS.getFreeCount, UKS.findFreeColumn.
  rewrite !getAllocatedCount_columns, Hzero.
  split_and!; try done.
  - rewrite Hcols, length_fmap, length_seq. lia.
  - rewrite Hcols. by destruct count.
Qed.

Lemma step_fixedStore u : fixedStore (UKS.step u) = fixedStore u.
Proof.
  unfold fixedStore, UKS.step. cbv zeta. unfold UKS.updateActiveFlags.
  cbn [UKS.columns_ UKS.set_columns UKS.config_ UKS.busNeurons_
       UKS.requestNeuron_ UKS.globalInhibitor_].
  rewrite <- list_fmap_compose.
  destruct (UKS.getRespondingColumns u) as [|first rest].
  - cbn [UKS.requestFired_ UKS.set_requestFired].
    destruct (Network.didFire _ _); [|done].
    unfold UKS.novelty. cbv zeta.
    cbn [UKS.config_ UKS.currentInput_ UKS.set_network
         UKS.set_requestFired].
    destruct (_ && _); [|done].
    change (UKS.findFreeColumn (UKS.set_network _ _))
      with (UKS.findFreeColumn u).
    destruct (UKS.findFreeColumn u) as [c|] eqn:Hfree; [|done].
    destruct (findFreeFrom_spec 0 (UKS.columns_ u) c Hfree)
      as (_ & col & Hcol & _).
    rewrite Nat.sub_0_r in Hcol.
    unfold UKS.allocateColumn.
    cbn [UKS.columns_ UKS.set_network UKS.set_requestFired].
    rewrite Hcol. cbn. f_equal.
    etrans; [apply list_fmap_ext; intros ? x _; reflexivity|].
    rewrite list_fmap_insert. apply list_insert_id.
    by rewrite list_lookup_fmap, Hcol.
  - unfold UKS.recognize.
    cbn [UKS.columns_ UKS.set_network UKS.set_requestFired
         UKS.set_totalRecognitions UKS.set_columns UKS.set_activeColumn
         UKS.config_ UKS.busNeurons_ UKS.requestNeuron_
         UKS.globalInhibitor_].
    f_equal.
    etrans; [apply list_fmap_ext; intros ? x _; reflexivity|].
    by apply fmap_alter_frame.
Qed.

Lemma allocatedCount_le cols : (allocatedCount cols <= length cols)%nat.
Proof. apply length_filter. Qed.

Lemma allocatedFirst_prefix cols i c :
  allocatedFirst cols -> cols !! i = Some c ->
  CorticalColumn.isAllocated c = bool_decide (i < allocatedCount cols)%nat.
Proof.
  revert i. induction cols as [|x cols IH]; intros i Hfirst Hi; [done|].
  assert (allocatedFirst cols) as Htail.
  { intros a b ca cb Hab Ha Hb.
    apply (Hfirst (S a) (S b) ca cb); [lia|done..]. }
  unfold allocatedCount. rewrite filter_cons.
  destruct (CorticalColumn.isAllocated x) eqn:Hx.
  - destruct (decide (true = true)); [|done]. simpl.
    destruct i as [|i]; simpl in Hi.
    + simplify_eq. rewrite Hx. symmetry. apply bool_decide_eq_true. lia.
    + rewrite (IH i Htail Hi). apply bool_decide_ext.
      unfold allocatedCount. lia.
  - destruct (decide (false = true)); [done|].
    assert (allocatedCount cols = 0%nat) as Hzero.
    { apply allocatedCount_none, Forall_forall. intros cj Hcj.
      apply list_elem_of_lookup in Hcj as [k Hk].
      destruct (CorticalColumn.isAllocated cj) eqn:Hj; [|done].
      rewrite <- Hx. symmetry.
      apply (Hfirst 0%nat (S k) x cj); [lia|done..]. }
    fold (allocatedCount cols). rewrite Hzero.
    destruct i as [|i]; simpl in Hi.
    + simplify_eq. rewrite Hx. symmetry. apply bool_decide_eq_false. lia.
    + rewrite (IH i Htail Hi), Hzero. apply bool_decide_ext. lia.
Qed.

(** X22.  The invariants of a store.  In every state reached through the
    store's interface the wiring of the store is the one it was built
    with, the allocated columns are the first [getAllocatedCount] columns,
    [totalAllocations_] is the number of allocated columns, and the
    allocated and the free columns together are [numColumns]. *)
Theorem store_invariants u :
  storeReachable u ->
  (exists net cfg, fixedStore u = fixedStore (UKS.make net cfg)) /\
  allocatedFirst (UKS.columns_ u) /\
  (forall i c, UKS.columns_ u !! i = Some c ->
     CorticalColumn.isAllocated c
     = bool_decide (i < UKS.getAllocatedCount u)%nat) /\
  UKS.totalAllocations_ u = Z.of_nat (UKS.getAllocatedCount u) /\
  (UKS.getAllocatedCount u + UKS.getFreeCount u
   = UKS.numColumns (UKS.config_ u))%nat.
Proof.
  intros Hr.
  assert ((exists net cfg, fixedStore u = fixedStore (UKS.make net cfg)) /\
          allocatedFirst (UKS.columns_ u) /\
          UKS.totalAllocations_ u = Z.of_nat (UKS.getAllocatedCount u))
    as (Hfixed & Hfirst & Htotal).
  { induction Hr as [net cfg|pattern u Hr IH|u Hr IH|u Hr IH|net u Hr IH].
    - split; [by exists net, cfg|].
      destruct (make_spec net cfg) as (_ & _ & Hcols & _ & _ & _ & Htot).
      assert (Forall (fun c => CorticalColumn.isAllocated c = false)
                (UKS.columns_ (UKS.make net cfg))) as Hfree.
      { rewrite Hcols. apply Forall_fmap. by apply Forall_forall. }
      split; [by apply all_free_allocatedFirst|].
      by rewrite Htot, getAllocatedCount_columns, allocatedCount_none.
    - done.
    - destruct IH as (Hfixed & Hfirst & Htotal).
      split; [by rewrite step_fixedStore|].
      destruct (step_columns_cases u)
        as [(Hflags & _ & Htot)
           |(c & col & Hfree & Hcol & Hcolfree & Hbefore & Hflags & _
             & Htot & _)].
      + split; [by apply (allocatedFirst_flags (UKS.columns_ u))|].
        rewrite Htot, Htotal, !getAllocatedCount_columns.
        by rewrite (allocatedCount_flags _ _ Hflags).
      + split.
        * intros i j ci cj Hij Hi Hj Hcj.
          apply (f_equal (fun l => l !! i)) in Hflags as Hfi.
          apply (f_equal (fun l => l !! j)) in Hflags as Hfj.
          rewrite !list_lookup_fmap, Hi in Hfi.
          rewrite !list_lookup_fmap, Hj in Hfj. simpl in Hfi, Hfj.
          destruct (decide (i = c)) as [Hic|Hic].
          { rewrite Hic, list_lookup_insert_eq in Hfi; [congruence|].
            rewrite length_fmap. by eapply lookup_lt_Some. }
          rewrite list_lookup_insert_ne in Hfi by done.
          rewrite list_lookup_fmap in Hfi.
          destruct (UKS.columns_ u !! i) as [di|] eqn:Hdi; [|done].
          simpl in Hfi. injection Hfi as Hfi. rewrite Hfi.
          destruct (decide (j = c)) as [Hjc|Hjc].
          { apply (Hbefore i); [lia|done]. }
          rewrite list_lookup_insert_ne in Hfj by done.
          rewrite list_lookup_fmap in Hfj.
          destruct (UKS.columns_ u !! j) as [dj|] eqn:Hdj; [|done].
          simpl in Hfj. injection Hfj as Hfj.
          apply (Hfirst i j di dj); [done..|]. congruence.
        * rewrite Htot, Htotal, !getAllocatedCount_columns.
          rewrite (allocatedCount_set _ _ c col Hcol Hcolfree Hflags). lia.
    - destruct IH as (Hfixed & Hfirst & Htotal).
      assert (Forall (fun c => CorticalColumn.isAllocated c = false)
                (UKS.columns_ (UKS.reset u))) as Hfree.
      { unfold UKS.reset. cbn [UKS.columns_]. apply Forall_fmap.
        by apply Forall_forall. }
      split_and!.
      + destruct Hfixed as (net & cfg & Hfixed). exists net, cfg.
        rewrite <- Hfixed. unfold fixedStore, UKS.reset.
        cbn [UKS.columns_ UKS.config_ UKS.busNeurons_ UKS.requestNeuron_
             UKS.globalInhibitor_].
        f_equal. rewrite <- list_fmap_compose. by apply list_fmap_ext.
      + by apply all_free_allocatedFirst.
      + rewrite getAllocatedCount_columns, allocatedCount_none; done.
    - done. }
  split; [done|]. split; [done|]. split; [|split; [done|]].
  - intros i c Hi. rewrite getAllocatedCount_columns.
    by apply allocatedFirst_prefix.
  - destruct Hfixed as (net & cfg & Hfixed).
    destruct (make_spec net cfg) as (Hcfg & _ & Hcols & _).
    unfold fixedStore in Hfixed. injection Hfixed as Hc _ _ _ Hw.
    apply (f_equal length) in Hw. rewrite !length_fmap, Hcols in Hw.
    rewrite length_fmap, length_seq in Hw.
    rewrite Hc, Hcfg. unfold UKS.getFreeCount.
    rewrite getAllocatedCount_columns.
    pose proof (allocatedCount_le (UKS.columns_ u)). lia.
Qed.

Lemma store_invariants_witness :
  storeReachable oneAllocated /\
  UKS.totalAllocations_ oneAllocated
  = Z.of_nat (UKS.getAllocatedCount oneAllocated).
Proof.
  assert (storeReachable oneAllocated) as Hr.
  { unfold oneAllocated, hostSpike, smallStore.
    apply store_step, store_host, store_present, store_make. }
  split; [exact Hr|].
  exact (proj1 (proj2 (proj2 (proj2 (store_invariants oneAllocated Hr))))).
Defined.

(** ** Noise stays within its amplitude *)

Lemma noiseDraw_range seed amplitude :
  0 <= amplitude ->
  - amplitude <= Brain.noiseDraw seed amplitude <= amplitude.
Proof.
  intros Ha. unfold Brain.noiseDraw.
  assert (0 <= Z.land (Z.shiftr seed 16) 32767) as Hnn
    by (apply Z.land_nonneg; lia).
  pose proof (Z.rem_bound_pos (Z.land (Z.shiftr seed 16) 32767)
                (2 * amplitude + 1) Hnn ltac:(lia)). lia.
Qed.

Lemma injectNoiseToHiddenLoop_spec retinaSet amplitude remaining i seed net :
  0 <= amplitude ->
  (i + remaining = length (Network.neurons_ net))%nat ->
  length (Network.neurons_
            (Brain.injectNoiseToHiddenLoop retinaSet amplitude remaining i
               seed net).2)
  = length (Network.neurons_ net) /\
  forall j n, Network.neurons_ net !! j = Some n ->
    exists d, - amplitude <= d <= amplitude /\
      Network.neurons_
        (Brain.injectNoiseToHiddenLoop retinaSet amplitude remaining i
           seed net).2 !! j
      = Some (if decide ((i <= j)%nat /\ j ∉ retinaSet)
              then Neuron.addCharge d n else n).
Proof.
  intros Ha. revert i seed net.
  induction remaining as [|r IH]; intros i seed net Hlen.
  - simpl. split; [done|]. intros j n Hj. exists 0. split; [lia|].
    pose proof (lookup_lt_Some _ _ _ Hj).
    destruct (decide _) as [[? _]|]; [lia|done].
  - cbn [Brain.injectNoiseToHiddenLoop].
    destruct (decide (i ∈ retinaSet)) as [Hin|Hout].
    + destruct (IH (S i) seed net) as [Hl Hn]; [lia|]. split; [done|].
      intros j n Hj. destruct (Hn j n Hj) as (d & Hd & Hres).
      exists d. split; [done|]. rewrite Hres.
      destruct (decide ((S i <= j)%nat /\ j ∉ retinaSet)) as [[? ?]|Hno],
        (decide ((i <= j)%nat /\ j ∉ retinaSet)) as [[? ?]|Hno'];
        try done; try (exfalso; apply Hno'; split; [lia|done]).
      exfalso. apply Hno. split; [|done].
      destruct (decide (j = i)) as [->|]; [done|lia].
    + cbv zeta. set (seed' := Network.lcg seed).
      set (net1 := Network.injectCharge i
                     (Brain.noiseDraw seed' amplitude) net).
      assert (Network.neurons_ net1
              = alter (Neuron.addCharge (Brain.noiseDraw seed' amplitude)) i
                  (Network.neurons_ net)) as Hns1.
      { unfold net1, Network.injectCharge.
        by destruct (Nat.ltb_spec i (length (Network.neurons_ net)));
          [|lia]. }
      destruct (IH (S i) seed' net1) as [Hl Hn].
      { rewrite Hns1, length_alter. lia. }
      split; [by rewrite Hl, Hns1, length_alter|].
      intros j n Hj. destruct (decide (j = i)) as [->|Hne].
      * destruct (Hn i (Neuron.addCharge
                          (Brain.noiseDraw seed' amplitude) n))
          as (d & Hd & Hres).
        { by rewrite Hns1, list_lookup_alter_eq, Hj. }
        exists (Brain.noiseDraw seed' amplitude).
        split; [by apply noiseDraw_range|]. rewrite Hres.
        destruct (decide ((S i <= i)%nat /\ i ∉ retinaSet)) as [[? _]|_];
          [lia|].
        destruct (decide ((i <= i)%nat /\ i ∉ retinaSet)) as [_|Hno];
          [done|]. exfalso. by apply Hno.
      * destruct (Hn j n) as (d & Hd & Hres).
        { by rewrite Hns1, list_lookup_alter_ne. }
        exists d. split; [done|]. rewrite Hres.
        destruct (decide ((S i <= j)%nat /\ j ∉ retinaSet)) as [[? ?]|Hno],
          (decide ((i <= j)%nat /\ j ∉ retinaSet)) as [[? ?]|Hno'];
          try done; try (exfalso; apply Hno'; split; [lia|done]).
        exfalso. apply Hno. split; [lia|done].
Qed.

(** X23.  Noise stays within its amplitude.  For an amplitude that is not
    negative, [injectNoise] adds to every neuron's charge a value between
    [-amplitude] and [+amplitude], and [injectNoiseToHidden] does so for
    every neuron outside the retina and leaves the retina's neurons as
    they were; a neuron is otherwise unchanged. *)
Theorem noise_stays_within_amplitude amplitude seed net retina j n :
  0 <= amplitude ->
  Network.neurons_ net !! j = Some n ->
  (exists d, - amplitude <= d <= amplitude /\
     Network.neurons_ (Brain.injectNoise amplitude (seed, net)).2 !! j
     = Some (Neuron.addCharge d n)) /\
  (exists d, - amplitude <= d <= amplitude /\
     Network.neurons_
       (Brain.injectNoiseToHidden retina amplitude (seed, net)).2 !! j
     = Some (if decide (j ∈ retina) then n else Neuron.addCharge d n)).
Proof.
  intros Ha Hj. split.
  - unfold Brain.injectNoise. cbn [fst snd].
    destruct (injectNoiseLoop_spec amplitude
                (length (Network.neurons_ net)) 0 seed net) as [_ Hn];
      [done|].
    rewrite (Hn j n Hj). destruct (decide (0 <= j)%nat); [|lia].
    eexists. split; [|done]. by apply noiseDraw_range.
  - unfold Brain.injectNoiseToHidden. cbn [fst snd].
    destruct (injectNoiseToHiddenLoop_spec (list_to_set retina) amplitude
                (length (Network.neurons_ net)) 0 seed net) as [_ Hn];
      [done..|].
    destruct (Hn j n Hj) as (d & Hd & Hres). exists d. split; [done|].
    rewrite Hres.
    destruct (decide ((0 <= j)%nat /\ j ∉ (list_to_set retina : gset nat)))
      as [[_ Hout]|Hno], (decide (j ∈ retina)) as [Hin|Hnin];
      try done.
    + exfalso. apply Hout. by apply elem_of_list_to_set.
    + exfalso. apply Hno. split; [lia|]. by rewrite elem_of_list_to_set.
Qed.

Lemma noise_stays_within_amplitude_witness :
  exists d, -10 <= d <= 10 /\
    Network.neurons_
      (Brain.injectNoiseToHidden [0%nat] 10
         (Brain.hiddenInitialSeed, restingPair)).2 !! 1%nat
    = Some (Neuron.addCharge d (Neuron.mk 0 0 40 (-3) 2 0 0)).
Proof.
  destruct (noise_stays_within_amplitude 10 Brain.hiddenInitialSeed
              restingPair [0%nat] 1%nat (Neuron.mk 0 0 40 (-3) 2 0 0))
    as [_ (d & Hd & Hres)]; [lia|reflexivity|].
  exists d. split; [exact Hd|]. rewrite Hres.
  destruct (decide (1%nat ∈ [0%nat])) as [Hin|_]; [|reflexivity].
  exfalso. apply list_elem_of_singleton in Hin. discriminate.
Defined.

(** ** The bus pattern *)

Lemma insertAbove_spec count bound idx acc x :
  x ∈ Brain.insertAbove count bound idx acc
  <-> ((bound < count)%nat /\ x = idx) \/ x ∈ acc.
Proof.
  unfold Brain.insertAbove.
  destruct (Nat.ltb_spec bound count); set_solver by lia.
Qed.

Lemma foldl_grows (f : gset nat -> nat -> gset nat) l acc :
  (forall a t, a ⊆ f a t) -> acc ⊆ foldl f acc l.
Proof.
  intros Hf. revert acc. induction l as [|t l IH]; intros acc; simpl; [done|].
  etrans; [apply (Hf acc t)|apply IH].
Qed.

Lemma foldl_bounded (P : nat -> Prop) (f : gset nat -> nat -> gset nat)
  l acc x :
  (forall a t y, t ∈ l -> y ∈ f a t -> y ∈ a \/ P y) ->
  x ∈ foldl f acc l -> x ∈ acc \/ P x.
Proof.
  revert acc. induction l as [|t l IH]; intros acc Hf; simpl; [by left|].
  intros Hx. destruct (IH (f acc t)) as [Hin|HP]; [|done| |by right].
  - intros a t' y Ht'. apply Hf. by right.
  - apply (Hf acc t x); [left|done].
Qed.

Lemma encodeCorners_spec count acc :
  acc ⊆ Brain.encodeCorners count acc /\
  forall x, x ∈ Brain.encodeCorners count acc -> x ∈ acc \/ (x < 8)%nat.
Proof.
  split.
  - apply foldl_grows. intros a t x Hx. cbv zeta.
    rewrite !insertAbove_spec. auto.
  - intros x. apply (foldl_bounded (fun y => (y < 8)%nat)).
    intros a t y Ht%elem_of_seq. cbv zeta.
    rewrite !insertAbove_spec. unfold Brain.NUM_CORNER_TYPES in Ht.
    intros [[_ ->]|[[_ ->]|Hy]]; [right; lia|right; lia|by left].
Qed.

Lemma encodeAcuteVertices_spec count acc :
  acc ⊆ Brain.encodeAcuteVertices count acc /\
  forall x, x ∈ Brain.encodeAcuteVertices count acc ->
    x ∈ acc \/ (8 <= x < 16)%nat.
Proof.
  split.
  - apply foldl_grows. intros a t x Hx. cbv zeta.
    destruct (_ <? _)%nat; set_solver.
  - intros x. apply (foldl_bounded (fun y => (8 <= y < 16)%nat)).
    intros a t y Ht%elem_of_seq. cbv zeta.
    unfold Brain.NUM_ACUTE_VERTEX_TYPES in Ht.
    destruct (_ <? _)%nat; [|by left].
    rewrite !elem_of_union, !elem_of_singleton.
    intros [->|[->|[->|[->|Hy]]]]; [right; lia..|by left].
Qed.

Lemma encodeBoundaries_spec count acc :
  acc ⊆ Brain.encodeBoundaries count acc /\
  forall x, x ∈ Brain.encodeBoundaries count acc ->
    x ∈ acc \/ (16 <= x < 64)%nat.
Proof.
  split.
  - apply foldl_grows. intros a t x Hx. cbv zeta.
    rewrite !insertAbove_spec. auto 20.
  - intros x. apply (foldl_bounded (fun y => (16 <= y < 64)%nat)).
    intros a t y Ht%elem_of_seq. cbv zeta.
    unfold Brain.NUM_BOUNDARY_TYPES in Ht.
    rewrite !insertAbove_spec.
    intros Hy. repeat (destruct Hy as [[_ ->]|Hy]; [right; lia|]).
    by left.
Qed.

(** X24.  The bus pattern.  [updateBusPattern] only adds to the accumulated
    pattern; every index it adds is below 64 (corners below 8, acute
    vertices in 8..15, boundaries in 16..63); and the current pattern is
    the accumulated set in increasing order, each index once. *)
Theorem bus_pattern_stays_on_the_bus corners acute boundaries accumulated :
  let result :=
    Brain.updateBusPattern corners acute boundaries accumulated in
  accumulated ⊆ result.1 /\
  (forall x, x ∈ result.1 -> x ∈ accumulated \/ (x < 64)%nat) /\
  (forall x, x ∈ result.2 <-> x ∈ result.1) /\
  NoDup result.2 /\
  Sorted Nat.le result.2.
Proof.
  unfold Brain.updateBusPattern. cbv zeta. cbn [fst snd].
  split_and!.
  - etrans; [apply (encodeCorners_spec corners)|].
    etrans; [apply (encodeAcuteVertices_spec acute)|].
    apply (encodeBoundaries_spec boundaries).
  - intros x Hx.
    apply (encodeBoundaries_spec boundaries) in Hx as [Hx|Hx]; [|right; lia].
    apply (encodeAcuteVertices_spec acute) in Hx as [Hx|Hx]; [|right; lia].
    apply (encodeCorners_spec corners) in Hx as [Hx|Hx]; [by left|right; lia].
  - intros x. rewrite merge_sort_Permutation. apply elem_of_elements.
  - rewrite merge_sort_Permutation. apply NoDup_elements.
  - apply (Sorted_merge_sort Nat.le).
Qed.

(** ** C2: what a tick leaves of the charge *)

(** [Neuron::checkAndFire], the firing primitive of the neuron, raises a
    negative charge of a neuron that is not refractory to [CHARGE_MIN]
    before it compares; [Network::firingPhase] compares the charge as
    integration left it. *)

Lemma checkAndFire_clamps tk n :
  Neuron.isRefractory tk n = false ->
  0 <= Neuron.currentCharge (Neuron.checkAndFire tk n).1.
Proof.
  intros Hr. unfold Neuron.checkAndFire, CHARGE_MIN. rewrite Hr.
  destruct (Z.ltb_spec (Neuron.currentCharge n) 0); simpl;
    destruct (_ >=? _); simpl; lia.
Qed.

(** C2 as stated fails.  A refractory neuron is skipped by the leak, by
    integration and by the firing scan, so a negative charge injected into
    it ([injectCharge] does not clamp; [UKS::suppressOthers] injects -10)
    is still there after the tick. *)
Lemma negative_charge_after_step_counterexample :
  Neuron.isRefractory (Network.currentTick_ refractoryDebt)
    <$> Network.neurons_ refractoryDebt = [true] /\
  Neuron.currentCharge <$> Network.neurons_ refractoryDebt = [-10] /\
  Neuron.currentCharge
    <$> Network.neurons_ (Network.step lowIdBuild refractoryDebt)
  = [-10].
Proof. vm_compute. done. Qed.

(** The weight delivered in the integration phase is added after the leak,
    and [Network::firingPhase] keeps the sum as it is: an inhibitory
    synapse of weight -16 leaves its resting target at V = -16 at the end
    of the tick, where [Neuron::checkAndFire] would have raised it to
    [CHARGE_MIN]. *)
Example unclamped_sum_after_integration :
  Neuron.currentCharge
    <$> Network.neurons_
          (Network.step lowIdBuild
             (Network.step lowIdBuild inhibitedPair))
  = [0; -16] /\
  Neuron.currentCharge
    (Neuron.checkAndFire 1 (Neuron.mk (-16) 1 10 (-3) 2 0 0)).1 = 0.
Proof. vm_compute. done. Qed.

(** C2, amended.  What a complete [step] leaves as the V of a neuron:
    - 0 if the neuron fired on the tick, and 0 for every neuron if the tick
      ended in the panic reset;
    - otherwise, for a neuron that is refractory at the tick, the V it had,
      negative or not: leak, integration and the firing scan all skip it,
      and it cannot fire;
    - otherwise, for a neuron that is not refractory: the leakage phase
      leaves V >= 0, and the tick ends with V >= 0 when no negative weight
      is delivered to it in the integration phase and the sum fits in 32
      bits.  The value is given in full: the charge the leakage phase left
      plus the weights delivered, added one by one in 32 bits. *)
Theorem charge_clamped_by_leak_and_fire build net id n0 :
  Network.neurons_ net !! id = Some n0 ->
  bitsCover net ->
  exists n1 n,
    afterLeak net !! id = Some n1 /\
    Network.neurons_ (Network.step build net) !! id = Some n /\
    (id ∈ Network.firedThisTick_ (Network.step build net) ->
     Neuron.currentCharge n = 0) /\
    (panics net = true -> Neuron.currentCharge n = 0) /\
    (Neuron.isRefractory (Network.currentTick_ net) n0 = true ->
     n1 = n0 /\
     (id ∉ Network.firedThisTick_ (Network.step build net)) /\
     (panics net = false ->
      Neuron.currentCharge n = Neuron.currentCharge n0)) /\
    (Neuron.isRefractory (Network.currentTick_ net) n0 = false ->
     0 <= Neuron.currentCharge n1 /\
     (panics net = false ->
      id ∉ Network.firedThisTick_ (Network.step build net) ->
      Neuron.currentCharge n
      = foldl (fun v w => int32 (v + w)) (Neuron.currentCharge n1)
          (deliveredTo net id)) /\
     (Forall (fun w => 0 <= w) (deliveredTo net id) ->
      Neuron.currentCharge n1 + foldr Z.add 0 (deliveredTo net id)
        <= 2147483647 ->
      0 <= Neuron.currentCharge n)).
Proof.
  intros Hn0 Hcover.
  destruct (beforeFiring_lookup net id n0 Hcover Hn0) as (n1 & Hn1 & Hbf).
  assert (Neuron.isRefractory (Network.currentTick_ net) n0 = false ->
          0 <= Neuron.currentCharge n1) as Hleak.
  { intros Hr. rewrite afterLeak_lookup, Hn0 in Hn1. simplify_eq/=.
    by apply leakNeuron_nonneg. }
  assert (Neuron.isRefractory (Network.currentTick_ net) n0 = true ->
          n1 = n0) as Hskip.
  { intros Hr. rewrite afterLeak_lookup, Hn0 in Hn1. simplify_eq/=.
    unfold Network.leakNeuron. by rewrite Hr. }
  assert (Neuron.isRefractory (Network.currentTick_ net) n0 = true ->
          id ∉ (winnersOf build net).*2) as Hrest.
  { intros Hr Hwin. destruct (winner_awake build net id Hwin) as (n & Hn & Ha).
    simplify_eq. congruence. }
  exists n1. rewrite step_fired, step_neurons. fold (winnersOf build net).
  destruct (panics net).
  { (* the tick ends in the panic reset *)
    destruct (lookup_lt_is_Some_2
                (Network.neurons_ (Network.firingPhase build (beforeFiring net)))
                id) as [n Hn].
    { unfold Network.firingPhase. rewrite fire_fold_length. simpl.
      rewrite beforeFiring_length. by eapply lookup_lt_Some. }
    exists (Neuron.set_charge 0 n). rewrite list_lookup_fmap, Hn. simpl.
    split_and!; try done.
    - intros Hr. split_and!; [by apply Hskip|set_solver|done].
    - intros Hr. split_and!; [by apply Hleak|done|]. intros _ _. lia. }
  unfold Network.firingPhase. cbv zeta.
  fold (winnersOf build net).
  destruct (decide (id ∈ (winnersOf build net).*2)) as [Hwin|Hlose].
  - (* the neuron fires *)
    destruct (lookup_lt_is_Some_2
                (Network.neurons_
                   (foldl (Network.fire (Network.currentTick_ (beforeFiring net)))
                      (Network.set_lastCandidateCount
                         (length (Network.candidatesOf build (beforeFiring net)))
                         (beforeFiring net)) (winnersOf build net))) id)
      as [n Hn].
    { rewrite fire_fold_length. simpl.
      rewrite beforeFiring_length. by eapply lookup_lt_Some. }
    exists n. destruct (fire_fold_winner _ _ _ _ _ Hwin Hn) as [Hzero _].
    rewrite Hzero. split_and!; try done.
    + intros Hr. by destruct (Hrest Hr).
    + intros Hr. split_and!; [by apply Hleak| |intros _ _; lia].
      intros _ Hout. exfalso. apply Hout. by apply elem_of_list_to_set.
  - (* the neuron keeps what integration left *)
    eexists. rewrite fire_fold_other by done. simpl. rewrite Hbf.
    split_and!; try done.
    + intros Hin%elem_of_list_to_set. done.
    + intros Hr. rewrite Hr. split_and!; [by apply Hskip| |done].
      by intros Hin%elem_of_list_to_set.
    + intros Hr. rewrite Hr. split_and!; [by apply Hleak|done|].
      intros Hws Hsum. simpl. rewrite fold_int32_nonneg; [|by apply Hleak|done..].
      assert (0 <= foldr Z.add 0 (deliveredTo net id)).
      { clear -Hws. induction Hws; simpl; lia. }
      specialize (Hleak Hr). lia.
Qed.

Lemma charge_clamped_by_leak_and_fire_witness :
  exists n, Network.neurons_ (Network.step lowIdBuild refractoryDebt)
              !! 0%nat = Some n /\
            Neuron.currentCharge n = -10.
Proof.
  destruct (charge_clamped_by_leak_and_fire lowIdBuild refractoryDebt
              0%nat (Neuron.mk (-10) 1 10 0 2 0 0))
    as (n1 & n & _ & Hn & _ & _ & Hrefractory & _);
    [reflexivity | unfold bitsCover; vm_compute; lia |].
  exists n. split; [exact Hn|].
  destruct Hrefractory as (_ & _ & Hkeep); [reflexivity|].
  apply Hkeep. reflexivity.
Defined.

(** ** Engines that differ in the order of their queues *)

Lemma sameEvents_refl q : sameEvents q q.
Proof. by split_and!. Qed.

Lemma equalUpToQueueOrder_refl net : equalUpToQueueOrder net net.
Proof. split; [done|apply sameEvents_refl]. Qed.

(** A network is its queue put back on the rest. *)
Lemma queue_put_back net :
  Network.set_spikeQueue (Network.spikeQueue_ net) (withoutQueue net) = net.
Proof. by destruct net. Qed.

Lemma equal_rest net1 net2 :
  withoutQueue net1 = withoutQueue net2 ->
  net1 = Network.set_spikeQueue (Network.spikeQueue_ net1) net2.
Proof.
  intros Heq. rewrite <- (queue_put_back net1) at 1. rewrite Heq.
  by destruct net2.
Qed.

(** A method that does not look at the queue keeps two such engines
    together. *)
Lemma queue_blind_method (f : Network.t -> Network.t) net1 net2 :
  (forall q net,
     f (Network.set_spikeQueue q net) = Network.set_spikeQueue q (f net)) ->
  equalUpToQueueOrder net1 net2 ->
  equalUpToQueueOrder (f net1) (f net2).
Proof.
  intros Hf [Hrest Hq].
  rewrite (equal_rest net1 net2 Hrest), Hf.
  assert (Network.spikeQueue_ (f net2) = Network.spikeQueue_ net2) as Hq2.
  { assert (net2 = Network.set_spikeQueue (Network.spikeQueue_ net2) net2)
      as Hn by by destruct net2.
    rewrite Hn at 1. by rewrite Hf. }
  split; [by destruct (f net2)|]. by rewrite Hq2.
Qed.

(** *** The queue under a reordering *)

Lemma min_tick_perm l1 l2 :
  l1 ≡ₚ l2 -> SpikeQueue.min_tick l1 = SpikeQueue.min_tick l2.
Proof.
  intros Hperm.
  destruct (SpikeQueue.min_tick l1) as [m1|] eqn:H1,
    (SpikeQueue.min_tick l2) as [m2|] eqn:H2.
  - f_equal.
    pose proof (min_tick_lower _ _ H1) as Hlow1.
    pose proof (min_tick_lower _ _ H2) as Hlow2.
    destruct (min_tick_attained _ _ H1) as (e1 & He1 & Ht1).
    destruct (min_tick_attained _ _ H2) as (e2 & He2 & Ht2).
    rewrite Forall_forall in Hlow1, Hlow2.
    rewrite Hperm in He1. rewrite <- Hperm in He2.
    specialize (Hlow1 e2 He2). specialize (Hlow2 e1 He1). lia.
  - apply min_tick_None in H2. subst l2.
    apply Permutation_nil_r in Hperm. by subst l1.
  - apply min_tick_None in H1. subst l1.
    apply Permutation_nil_l in Hperm. by subst l2.
  - done.
Qed.

(** [getSpikesForTick] in closed form: when the earliest tick of the queue
    is [tk] all events of that tick are handed out, otherwise none. *)
Lemma getSpikesLoop_closed tk l :
  SpikeQueue.getSpikesLoop (length l) tk l
  = if decide (SpikeQueue.min_tick l = Some tk)
    then (SpikeQueue.neuronId
            <$> filter (fun e => SpikeQueue.tick e = tk) l,
          filter (fun e => SpikeQueue.tick e <> tk) l)
    else ([], l).
Proof.
  destruct (decide (SpikeQueue.min_tick l = Some tk)) as [Hmin|Hmin].
  - apply getSpikesLoop_fresh; [by apply min_tick_lower|done].
  - apply getSpikesLoop_blocked. unfold SpikeQueue.top.
    destruct (SpikeQueue.min_tick l) as [m|]; [|done].
    destruct (List.find _ l) as [e|] eqn:Hfind; [|done].
    apply find_some in Hfind as [_ Ht%Z.eqb_eq].
    apply Z.eqb_neq. congruence.
Qed.

Lemma getSpikesForTick_sameEvents tk q1 q2 :
  sameEvents q1 q2 ->
  (SpikeQueue.getSpikesForTick tk q1).1
    ≡ₚ (SpikeQueue.getSpikesForTick tk q2).1 /\
  sameEvents (SpikeQueue.getSpikesForTick tk q1).2
    (SpikeQueue.getSpikesForTick tk q2).2.
Proof.
  intros (Hq & Hf & Ht). unfold SpikeQueue.getSpikesForTick.
  rewrite !getSpikesLoop_closed, (min_tick_perm _ _ Hq).
  destruct (decide _); cbn [fst snd]; unfold sameEvents;
    cbn [SpikeQueue.queue_ SpikeQueue.currentFired_ SpikeQueue.currentTick_].
  - by rewrite Hq.
  - done.
Qed.

(** *** Integration does not depend on the order of the spikes *)

Lemma int32_add_l x y : int32 (int32 x + y) = int32 (x + y).
Proof.
  unfold int32, wrap_signed. f_equal.
  replace ((x + 2 ^ (32 - 1)) mod 2 ^ 32 - 2 ^ (32 - 1) + y + 2 ^ (32 - 1))
    with ((x + 2 ^ (32 - 1)) mod 2 ^ 32 + y) by lia.
  rewrite Zplus_mod_idemp_l. f_equal. lia.
Qed.

Lemma absorb_comm bits k id v s1 s2 :
  absorb bits k id (absorb bits k id v s1) s2
  = absorb bits k id (absorb bits k id v s2) s1.
Proof.
  unfold absorb.
  destruct (_ && _), (_ && _); try done.
  rewrite !int32_add_l. f_equal. lia.
Qed.

Lemma absorb_fold_perm bits k id v syns syns' :
  syns ≡ₚ syns' ->
  foldl (absorb bits k id) v syns = foldl (absorb bits k id) v syns'.
Proof.
  intros Hperm. revert v.
  induction Hperm as [|s l l' _ IH|s1 s2 l|l1 l2 l3 _ IH1 _ IH2]; intros v.
  - done.
  - simpl. apply IH.
  - simpl. by rewrite absorb_comm.
  - by rewrite IH1, IH2.
Qed.

Lemma integrate_fold_perm bits syns dyn ns spikes spikes' :
  spikes ≡ₚ spikes' ->
  foldl (Network.integrateSpike bits syns dyn) ns spikes
  = foldl (Network.integrateSpike bits syns dyn) ns spikes'.
Proof.
  intros Hperm. apply list_eq. intros id.
  destruct (ns !! id) as [n|] eqn:Hn.
  - rewrite !(integrate_fold_lookup _ _ _ _ _ _ _ Hn). do 2 f_equal.
    apply absorb_fold_perm. by rewrite Hperm.
  - apply lookup_ge_None in Hn.
    rewrite !(proj2 (lookup_ge_None _ _)); [done|..];
      rewrite (foldl_preserves _ (@length Neuron.t));
      try done; intros; apply integrateSpike_length.
Qed.

Lemma integrationPhase_twins net1 net2 :
  equalUpToQueueOrder net1 net2 ->
  equalUpToQueueOrder (Network.integrationPhase net1)
    (Network.integrationPhase net2).
Proof.
  intros [Hrest Hq]. rewrite (equal_rest net1 net2 Hrest).
  unfold Network.integrationPhase.
  cbn [Network.set_spikeQueue Network.currentTick_ Network.spikeQueue_
       Network.refractoryBits_ Network.synapses_ Network.dynamicSynapses_
       Network.neurons_].
  destruct (getSpikesForTick_sameEvents (Network.currentTick_ net2 - 1)
              _ _ Hq) as [Hids Hq'].
  destruct (SpikeQueue.getSpikesForTick _ (Network.spikeQueue_ net1))
    as [ids1 q1'].
  destruct (SpikeQueue.getSpikesForTick _ (Network.spikeQueue_ net2))
    as [ids2 q2'].
  cbn [fst snd] in Hids, Hq'.
  rewrite (integrate_fold_perm _ _ _ _ ids1 ids2 Hids).
  split; [by destruct net2|done].
Qed.

(** *** The winners of a clean cut *)

Lemma filter_all {A} (P : A -> Prop) `{!forall x, Decision (P x)} (l : list A) :
  Forall P l -> filter P l = l.
Proof.
  induction 1 as [|x l Hx _ IH]; [done|].
  rewrite filter_cons. destruct (decide (P x)); [|done]. by rewrite IH.
Qed.

Lemma filter_none {A} (P : A -> Prop) `{!forall x, Decision (P x)}
  (l : list A) :
  Forall (fun x => ~ P x) l -> filter P l = [].
Proof.
  induction 1 as [|x l Hx _ IH]; [done|].
  rewrite filter_cons. by destruct (decide (P x)).
Qed.

Lemma filter_length_all {A} (P : A -> Prop) `{!forall x, Decision (P x)}
  (l : list A) :
  length (filter P l) = length l -> Forall P l.
Proof.
  induction l as [|x l IH]; [done|]. rewrite filter_cons.
  pose proof (length_filter P l).
  destruct (decide (P x)); simpl; intros Hlen; [|lia].
  constructor; [done|]. apply IH. lia.
Qed.

(** With a clean cut every conforming [nth_element] puts the same
    candidates in the first K places: those above the cut. *)
Lemma clean_cut_winners build K candidates theta :
  (K < length candidates)%nat ->
  length (filter (fun c : Z * nat => theta < c.1) candidates) = K ->
  take K (nth_element build K candidates)
  ≡ₚ filter (fun c : Z * nat => theta < c.1) candidates.
Proof.
  intros HK Hcut.
  set (l := nth_element build K candidates).
  pose proof (nth_element_perm build K candidates) as Hperm. fold l in Hperm.
  assert (length l = length candidates) as Hlen
      by by apply Permutation_length.
  assert (length (filter (fun c : Z * nat => theta < c.1) l) = K) as Hcount.
  { rewrite <- Hcut. apply Permutation_length. by rewrite Hperm. }
  assert (filter (fun c : Z * nat => theta < c.1) l = filter (fun c : Z * nat => theta < c.1) (take K l) ++ filter (fun c : Z * nat => theta < c.1) (drop K l)) as Hsplit.
  { by rewrite <- filter_app, take_drop. }
  assert (Forall (fun c : Z * nat => theta < c.1) (take K l)) as Hall.
  { apply Forall_forall. intros a Ha.
    destruct (decide (theta < a.1)) as [|Hna]; [done|exfalso].
    apply elem_of_take in Ha as (i & Hi & HiK).
    assert (filter (fun c : Z * nat => theta < c.1) (drop K l) = []) as Hnone.
    { apply (filter_none (fun c : Z * nat => theta < c.1)), Forall_forall.
      intros b Hb. simpl.
      apply list_elem_of_lookup in Hb as [j Hj]. rewrite lookup_drop in Hj.
      pose proof (nth_element_part build K candidates i (K + j) a b
                    HiK ltac:(lia) Hi Hj). lia. }
    rewrite Hsplit, Hnone, app_nil_r in Hcount.
    assert (Forall (fun c : Z * nat => theta < c.1) (take K l)) as Hcontra.
    { apply (filter_length_all (fun c : Z * nat => theta < c.1)).
      rewrite Hcount, length_take. lia. }
    rewrite Forall_forall in Hcontra. apply Hna, Hcontra.
    apply elem_of_take. eauto. }
  rewrite (filter_all _ _ Hall) in Hsplit.
  assert (filter (fun c : Z * nat => theta < c.1) (drop K l) = []) as Hnone.
  { apply length_zero_iff_nil. apply (f_equal length) in Hsplit.
    rewrite length_app, length_take, Hcount in Hsplit. lia. }
  rewrite Hnone, app_nil_r in Hsplit.
  rewrite <- Hsplit. by rewrite Hperm.
Qed.

(** Whatever the build, a decided selection fires the same candidates. *)
Lemma decided_winners build1 build2 net candidates :
  Network.razorEnabled_ net = false \/
  (length candidates <= Network.maxSpikesPerTick_ net)%nat \/
  cleanCut (Network.maxSpikesPerTick_ net) candidates ->
  Network.razor build1 net candidates ≡ₚ Network.razor build2 net candidates.
Proof.
  intros Hdec. unfold Network.razor.
  destruct (Network.razorEnabled_ net); [|done]. cbn [andb].
  destruct (Nat.ltb_spec (Network.maxSpikesPerTick_ net) (length candidates))
    as [HK|HK]; [|done].
  destruct Hdec as [?|[?|[theta Hcut]]]; [done|lia|].
  by rewrite !(clean_cut_winners _ _ _ theta).
Qed.

(** *** The firing loop under a reordering of the winners *)

Lemma sameEvents_addSpike id tk q1 q2 :
  sameEvents q1 q2 ->
  sameEvents (SpikeQueue.addSpike id tk q1) (SpikeQueue.addSpike id tk q2).
Proof.
  intros (Hq & Hf & Ht). unfold sameEvents, SpikeQueue.addSpike.
  cbn [SpikeQueue.queue_ SpikeQueue.currentFired_ SpikeQueue.currentTick_].
  rewrite Ht. split_and!; [by rewrite Hq| |done].
  destruct (_ =? _); by rewrite Hf.
Qed.

Lemma addSpike_swap a b tk q :
  sameEvents (SpikeQueue.addSpike a tk (SpikeQueue.addSpike b tk q))
    (SpikeQueue.addSpike b tk (SpikeQueue.addSpike a tk q)).
Proof.
  unfold sameEvents, SpikeQueue.addSpike.
  cbn [SpikeQueue.queue_ SpikeQueue.currentFired_ SpikeQueue.currentTick_].
  split_and!; [|destruct (_ =? _)|]; try done;
    rewrite <- !app_assoc; apply Permutation_app_head, Permutation_swap.
Qed.

#[local] Instance sameEvents_equiv : Equivalence sameEvents.
Proof.
  split.
  - intros q. apply sameEvents_refl.
  - intros q1 q2 (Hq & Hf & Ht). by split_and!.
  - intros q1 q2 q3 (Hq & Hf & Ht) (Hq' & Hf' & Ht').
    split_and!; [by rewrite Hq|by rewrite Hf|congruence].
Qed.

#[local] Instance equalUpToQueueOrder_equiv : Equivalence equalUpToQueueOrder.
Proof.
  split.
  - intros net. apply equalUpToQueueOrder_refl.
  - intros n1 n2 [Hrest Hq]. by split.
  - intros n1 n2 n3 [Hrest Hq] [Hrest' Hq'].
    split; [congruence|by etrans].
Qed.

Lemma fire_twins tk w net1 net2 :
  equalUpToQueueOrder net1 net2 ->
  equalUpToQueueOrder (Network.fire tk net1 w) (Network.fire tk net2 w).
Proof.
  intros [Hrest Hq]. rewrite (equal_rest net1 net2 Hrest).
  unfold Network.fire. cbv zeta.
  cbn [Network.set_spikeQueue Network.spikeQueue_ Network.neurons_
       Network.firedThisTick_].
  split; [by destruct net2|]. by apply sameEvents_addSpike.
Qed.

Lemma alter_fire_idem tk (n : Neuron.t) :
  Neuron.set_lastFired tk
    (Neuron.set_charge 0 (Neuron.set_lastFired tk (Neuron.set_charge 0 n)))
  = Neuron.set_lastFired tk (Neuron.set_charge 0 n).
Proof. done. Qed.

Lemma alter_swap {A} (f g : A -> A) i j (l : list A) :
  i <> j -> alter f i (alter g j l) = alter g j (alter f i l).
Proof.
  intros Hne. apply list_eq. intros k.
  destruct (decide (k = i)) as [Hki|Hki], (decide (k = j)) as [Hkj|Hkj].
  - congruence.
  - subst k. by rewrite list_lookup_alter_eq, list_lookup_alter_ne,
      list_lookup_alter_ne, list_lookup_alter_eq by done.
  - subst k. by rewrite list_lookup_alter_ne, list_lookup_alter_eq,
      list_lookup_alter_eq, list_lookup_alter_ne by done.
  - by rewrite !list_lookup_alter_ne by done.
Qed.

Lemma withoutQueue_fields net1 net2 :
  settings net1 = settings net2 ->
  Network.lastCandidateCount_ net1 = Network.lastCandidateCount_ net2 ->
  Network.neurons_ net1 = Network.neurons_ net2 ->
  synapseStores net1 = synapseStores net2 ->
  Network.firedThisTick_ net1 = Network.firedThisTick_ net2 ->
  Network.firedLastTick_ net1 = Network.firedLastTick_ net2 ->
  Network.refractoryBits_ net1 = Network.refractoryBits_ net2 ->
  withoutQueue net1 = withoutQueue net2.
Proof.
  destruct net1, net2. unfold settings, synapseStores, withoutQueue. simpl.
  intros [= -> -> -> -> -> ->] -> -> [= -> ->] -> -> ->. done.
Qed.

Lemma fire_swap tk a b net :
  equalUpToQueueOrder (Network.fire tk (Network.fire tk net a) b)
    (Network.fire tk (Network.fire tk net b) a).
Proof.
  split; [|apply addSpike_swap].
  apply withoutQueue_fields; try done.
  - simpl. destruct (decide (a.2 = b.2)) as [->|Hne]; [done|].
    by apply alter_swap.
  - simpl. set_solver.
Qed.

Lemma fire_fold_twins tk ws net1 net2 :
  equalUpToQueueOrder net1 net2 ->
  equalUpToQueueOrder (foldl (Network.fire tk) net1 ws)
    (foldl (Network.fire tk) net2 ws).
Proof.
  revert net1 net2. induction ws as [|w ws IH]; intros net1 net2 H; [done|].
  simpl. by apply IH, fire_twins.
Qed.

Lemma fire_fold_perm tk ws ws' net :
  ws ≡ₚ ws' ->
  equalUpToQueueOrder (foldl (Network.fire tk) net ws)
    (foldl (Network.fire tk) net ws').
Proof.
  intros Hperm. revert net.
  induction Hperm as [|w l l' _ IH|a b l|l1 l2 l3 _ IH1 _ IH2]; intros net.
  - done.
  - simpl. apply IH.
  - simpl. apply fire_fold_twins, fire_swap.
  - etrans; [apply IH1|apply IH2].
Qed.

(** *** The phases that do not look at the queue *)

Lemma sweepPre_blind f q net preId :
  Network.sweepPre f (Network.set_spikeQueue q net) preId
  = Network.set_spikeQueue q (Network.sweepPre f net preId).
Proof.
  unfold Network.sweepPre.
  cbn [Network.set_spikeQueue Network.neurons_].
  by destruct (Network.neurons_ net !! preId).
Qed.

Lemma sweep_fold_blind f q net ids :
  foldl (Network.sweepPre f) (Network.set_spikeQueue q net) ids
  = Network.set_spikeQueue q (foldl (Network.sweepPre f) net ids).
Proof.
  revert net. induction ids as [|id ids IH]; intros net; [done|].
  simpl. by rewrite sweepPre_blind, IH.
Qed.

Lemma plasticityPhase_blind q net :
  Network.plasticityPhase (Network.set_spikeQueue q net)
  = Network.set_spikeQueue q (Network.plasticityPhase net).
Proof.
  unfold Network.plasticityPhase.
  cbn [Network.set_spikeQueue Network.chemicals_ Network.neurons_
       Network.operantMode_ Network.firedThisTick_ Network.firedLastTick_].
  destruct (_ <? 10); [done|]. cbv zeta.
  change (Network.mk (Network.currentTick_ net)
            (Network.plasticityEnabled_ net) (Network.operantMode_ net)
            (Network.razorEnabled_ net) (Network.maxSpikesPerTick_ net)
            (Network.lastCandidateCount_ net) (Network.chemicals_ net)
            (Network.neurons_ net) (Network.synapses_ net)
            (Network.dynamicSynapses_ net) q (Network.firedThisTick_ net)
            (Network.firedLastTick_ net) (Network.refractoryBits_ net))
    with (Network.set_spikeQueue q net).
  destruct (negb _); by rewrite !sweep_fold_blind.
Qed.

Lemma plasticityStage_blind q net :
  Network.plasticityStage (Network.set_spikeQueue q net)
  = Network.set_spikeQueue q (Network.plasticityStage net).
Proof.
  unfold Network.plasticityStage.
  cbn [Network.set_spikeQueue Network.plasticityEnabled_].
  destruct (Network.plasticityEnabled_ net); [|done].
  apply plasticityPhase_blind.
Qed.

Lemma eligibilityStage_blind q net :
  Network.eligibilityStage (Network.set_spikeQueue q net)
  = Network.set_spikeQueue q (Network.eligibilityStage net).
Proof.
  unfold Network.eligibilityStage.
  cbn [Network.set_spikeQueue Network.operantMode_].
  by destruct (Network.operantMode_ net).
Qed.

Lemma injectCharge_blind neuron amount q net :
  Network.injectCharge neuron amount (Network.set_spikeQueue q net)
  = Network.set_spikeQueue q (Network.injectCharge neuron amount net).
Proof.
  unfold Network.injectCharge. cbn [Network.set_spikeQueue Network.neurons_].
  by destruct (_ <? _)%nat.
Qed.

Lemma injectNoiseLoop_blind amplitude remaining i seed q net :
  (Brain.injectNoiseLoop amplitude remaining i seed
     (Network.set_spikeQueue q net)).2
  = Network.set_spikeQueue q
      (Brain.injectNoiseLoop amplitude remaining i seed net).2.
Proof.
  revert i seed net. induction remaining as [|r IH]; intros i seed net.
  - done.
  - cbn [Brain.injectNoiseLoop]. cbv zeta.
    by rewrite injectCharge_blind, IH.
Qed.

Lemma connectNeurons_blind from to w plastic q net :
  (Network.connectNeurons from to w plastic (Network.set_spikeQueue q net)).2
  = Network.set_spikeQueue q
      (Network.connectNeurons from to w plastic net).2.
Proof.
  unfold Network.connectNeurons. cbv zeta.
  cbn [Network.set_spikeQueue Network.neurons_ Network.synapses_
       Network.dynamicSynapses_].
  destruct (_ || _); [done|].
  destruct (Network.neurons_ net !! from); [|done].
  by destruct (_ || _).
Qed.

Lemma rewardSignal_blind amount q net :
  Network.rewardSignal amount (Network.set_spikeQueue q net)
  = Network.set_spikeQueue q (Network.rewardSignal amount net).
Proof.
  unfold Network.rewardSignal. cbv zeta.
  cbn [Network.set_spikeQueue Network.operantMode_].
  by destruct (Network.operantMode_ net).
Qed.

(** *** The methods that write the queue *)

Lemma beginTick_twins net1 net2 :
  equalUpToQueueOrder net1 net2 ->
  equalUpToQueueOrder (Network.beginTick net1) (Network.beginTick net2).
Proof.
  intros [Hrest (Hq & Hf & Ht)]. rewrite (equal_rest net1 net2 Hrest).
  split; [by destruct net2|]. by split_and!.
Qed.

Lemma injectSpike_twins neuron net1 net2 :
  equalUpToQueueOrder net1 net2 ->
  equalUpToQueueOrder (Network.injectSpike neuron net1)
    (Network.injectSpike neuron net2).
Proof.
  intros [Hrest Hq]. rewrite (equal_rest net1 net2 Hrest).
  unfold Network.injectSpike.
  cbn [Network.set_spikeQueue Network.neurons_ Network.currentTick_
       Network.spikeQueue_ Network.firedThisTick_].
  destruct (_ <? _)%nat.
  - split; [by destruct net2|]. by apply sameEvents_addSpike.
  - split; [by destruct net2|done].
Qed.

Lemma reset_twins net1 net2 :
  equalUpToQueueOrder net1 net2 ->
  equalUpToQueueOrder (Network.reset net1) (Network.reset net2).
Proof.
  intros [Hrest Hq]. rewrite (equal_rest net1 net2 Hrest).
  split; [by destruct net2|done].
Qed.

Lemma panicReset_twins net1 net2 :
  equalUpToQueueOrder net1 net2 ->
  equalUpToQueueOrder (Network.panicReset net1) (Network.panicReset net2).
Proof.
  intros [Hrest Hq]. rewrite (equal_rest net1 net2 Hrest).
  split; [by destruct net2|done].
Qed.

Lemma panicStage_twins net1 net2 :
  equalUpToQueueOrder net1 net2 ->
  equalUpToQueueOrder (Network.panicStage net1) (Network.panicStage net2).
Proof.
  intros Heq. unfold Network.panicStage.
  assert (Network.chemicals_ net1 = Network.chemicals_ net2) as ->.
  { destruct Heq as [Hrest _].
    apply (f_equal Network.chemicals_) in Hrest. by destruct net1, net2. }
  destruct (_ >=? 95); [by apply panicReset_twins|done].
Qed.

(** *** The firing phase on two builds *)

Lemma candidatesOf_blind build q net :
  Network.candidatesOf build (Network.set_spikeQueue q net)
  = Network.candidatesOf build net.
Proof. reflexivity. Qed.

Lemma razor_blind build q net candidates :
  Network.razor build (Network.set_spikeQueue q net) candidates
  = Network.razor build net candidates.
Proof. reflexivity. Qed.

Lemma firingPhase_twins build1 build2 net1 net2 :
  openmpThreads build1 = openmpThreads build2 ->
  equalUpToQueueOrder net1 net2 ->
  Network.razorEnabled_ net1 = false \/
  (length (Network.candidatesOf build1 net1)
   <= Network.maxSpikesPerTick_ net1)%nat \/
  cleanCut (Network.maxSpikesPerTick_ net1)
    (Network.candidatesOf build1 net1) ->
  equalUpToQueueOrder (Network.firingPhase build1 net1)
    (Network.firingPhase build2 net2).
Proof.
  intros Hthreads Heq Hdec.
  pose proof Heq as [Hrest _].
  rewrite (equal_rest net1 net2 Hrest) in Hdec |- *.
  rewrite candidatesOf_blind in Hdec.
  unfold Network.firingPhase. cbv zeta.
  rewrite !candidatesOf_blind, !razor_blind.
  rewrite (candidatesOf_threads build1 build2 net2 Hthreads) in Hdec |- *.
  change (Network.currentTick_ (Network.set_spikeQueue _ net2))
    with (Network.currentTick_ net2).
  etrans.
  - apply fire_fold_perm.
    apply (decided_winners build1 build2 net2). exact Hdec.
  - apply fire_fold_twins.
    apply (queue_blind_method
             (Network.set_lastCandidateCount
                (length (Network.candidatesOf build2 net2))));
      [done|].
    rewrite <- (equal_rest net1 net2 Hrest). exact Heq.
Qed.

Lemma beforeFiring_twins net1 net2 :
  equalUpToQueueOrder net1 net2 ->
  equalUpToQueueOrder (beforeFiring net1) (beforeFiring net2).
Proof.
  intros Heq. unfold beforeFiring.
  apply integrationPhase_twins.
  apply (queue_blind_method Network.leakagePhase); [done|].
  apply (queue_blind_method Network.updateRefractoryBits); [done|].
  by apply beginTick_twins.
Qed.

(** One tick keeps two engines together, whatever [nth_element] each
    build links, when the selection of the tick is decided. *)
Lemma step_twins build1 build2 net1 net2 :
  openmpThreads build1 = openmpThreads build2 ->
  equalUpToQueueOrder net1 net2 ->
  selectionDecided build1 net1 ->
  equalUpToQueueOrder (Network.step build1 net1) (Network.step build2 net2).
Proof.
  intros Hthreads Heq Hdec. unfold Network.step.
  fold (beforeFiring net1). fold (beforeFiring net2).
  apply (queue_blind_method Network.endTick); [done|].
  apply panicStage_twins.
  apply (queue_blind_method Network.chemistryStage); [done|].
  apply (queue_blind_method Network.eligibilityStage);
    [intros; apply eligibilityStage_blind|].
  apply (queue_blind_method Network.plasticityStage);
    [intros; apply plasticityStage_blind|].
  apply firingPhase_twins; [done|by apply beforeFiring_twins|].
  destruct (beforeFiring_razor net1) as [-> ->]. exact Hdec.
Qed.

Lemma twins_stay_together build1 build2 net1 net2 :
  openmpThreads build1 = openmpThreads build2 ->
  twins build1 build2 net1 net2 ->
  equalUpToQueueOrder net1 net2.
Proof.
  intros Hthreads.
  induction 1 as [numNeurons|thresh leak refractory net1 net2 _ IH
                  |from to w plastic net1 net2 _ IH|neuron net1 net2 _ IH
                  |neuron amount net1 net2 _ IH
                  |amplitude seed net1 net2 _ IH|net1 net2 _ IH Hdec
                  |net1 net2 _ IH|amount net1 net2 _ IH
                  |amount net1 net2 _ IH|amount net1 net2 _ IH
                  |amount net1 net2 _ IH|net1 net2 _ IH
                  |enabled net1 net2 _ IH|enabled net1 net2 _ IH
                  |enabled net1 net2 _ IH|k net1 net2 _ IH
                  |c net1 net2 _ IH].
  - reflexivity.
  - by apply (queue_blind_method
                (fun net => (Network.addNeuron thresh leak refractory net).2)).
  - apply (queue_blind_method
             (fun net => (Network.connectNeurons from to w plastic net).2));
      [intros; apply connectNeurons_blind|done].
  - by apply injectSpike_twins.
  - apply (queue_blind_method (Network.injectCharge neuron amount));
      [intros; apply injectCharge_blind|done].
  - unfold Brain.injectNoise. cbn [fst snd].
    assert (length (Network.neurons_ net1) = length (Network.neurons_ net2))
      as ->.
    { destruct IH as [Hrest _].
      apply (f_equal Network.neurons_) in Hrest. simpl in Hrest.
      by rewrite Hrest. }
    apply (queue_blind_method
             (fun net => (Brain.injectNoiseLoop amplitude
                            (length (Network.neurons_ net2)) 0 seed net).2));
      [intros; apply injectNoiseLoop_blind|done].
  - by apply step_twins.
  - by apply reset_twins.
  - by apply (queue_blind_method (Network.injectReward amount)).
  - apply (queue_blind_method (Network.rewardSignal amount));
      [intros; apply rewardSignal_blind|done].
  - by apply (queue_blind_method (Network.surpriseSignal amount)).
  - by apply (queue_blind_method (Network.calmSignal amount)).
  - by apply panicReset_twins.
  - by apply (queue_blind_method (Network.set_plasticityEnabled enabled)).
  - by apply (queue_blind_method (Network.set_operantMode enabled)).
  - by apply (queue_blind_method (Network.set_razorEnabled enabled)).
  - by apply (queue_blind_method (Network.set_maxSpikesPerTick k)).
  - by apply (queue_blind_method (Network.set_chemicals c)).
Qed.

(** ** C1: twin engines and the noise generators *)

(** C1 as stated fails.
    - In the sequential firing scan the seed is advanced once per
      non-refractory neuron, so the draw a neuron receives depends on how
      many neurons before it are awake: the two networks below agree on the
      tick, the chemistry and the whole state of neuron 1, and differ only
      in neuron 0 being refractory; neuron 1 fires in one and not in the
      other.
    - [Brain::injectNoise] draws from a static generator state that every
      call advances: the same call on the same network adds different noise
      the second time.
    - No tie-break is derived from the tick, the id or a seed: on ten
      candidates of equal charge with K = 3, two selections that both meet
      the postcondition of [std::nth_element] fire different neurons. *)

Lemma noise_purity_counterexample :
  (Network.currentTick_ (Network.injectSpike 0%nat noisyPair)
     = Network.currentTick_ noisyPair /\
   Network.chemicals_ (Network.injectSpike 0%nat noisyPair)
     = Network.chemicals_ noisyPair /\
   Network.neurons_ (Network.injectSpike 0%nat noisyPair) !! 1%nat
     = Network.neurons_ noisyPair !! 1%nat /\
   Network.didFire 1%nat
     (Network.step lowIdBuild (Network.injectSpike 0%nat noisyPair)) = true /\
   Network.didFire 1%nat (Network.step lowIdBuild noisyPair) = false)
  /\
  (let first := Brain.injectNoise 10 (Brain.initialSeed, restingPair) in
   let second := Brain.injectNoise 10 (first.1, restingPair) in
   Neuron.currentCharge <$> Network.neurons_ first.2 = [-4; 3] /\
   Neuron.currentCharge <$> Network.neurons_ second.2 = [-6; 2])
  /\
  (openmpThreads lowIdBuild = openmpThreads highIdBuild /\
   Network.didFire 0%nat (Network.step lowIdBuild tenAtThreshold) = true /\
   Network.didFire 0%nat (Network.step highIdBuild tenAtThreshold) = false /\
   Network.didFire 9%nat (Network.step lowIdBuild tenAtThreshold) = false /\
   Network.didFire 9%nat (Network.step highIdBuild tenAtThreshold) = true).
Proof. vm_compute. done. Qed.

(** C1, amended.  Two engines constructed identically and driven by the
    same calls, on builds with the same OpenMP thread count, stay equal in
    every field but the order in which the events are stored inside the
    spike queue, whichever [std::nth_element] each build links, as long as
    every tick is taken with the Razor idle or with a clean cut (exactly K
    candidates strictly above some charge): every [step] then gives the
    two engines the same fired sets, the same neurons and the same synapse
    weights.  With the Razor idle one [step] gives equal states outright.
    The noise is deterministic but it is a function of (tick, neuron id)
    only in the OpenMP scan.
    - Firing phase, sequential scan (builds without OpenMP, and networks
      below 100000 neurons): a pair (V, id) is a candidate exactly when
      neuron [id] is not refractory and its V reaches the effective
      threshold computed with the k-th value of the generator
      [s -> s * 1103515245 + 12345 (mod 2^32)] started from
      [tick * 1103515245 + 12345], where k is the number of non-refractory
      neurons of index at most [id] (no draw at all when the amplitude is 0).
    - Firing phase, OpenMP scan: the same with the generator value
      [lcg ((tick * 1103515245 + 12345) xor id)].
    - [injectNoise] threads one stored generator state through all calls: a
      call on n neurons adds to neuron i the draw made from the (i+1)-th
      value after the stored state and leaves the state advanced n times. *)
Theorem twin_engines_and_noise_generators :
  (forall build1 build2 net1 net2,
     openmpThreads build1 = openmpThreads build2 ->
     twins build1 build2 net1 net2 ->
     equalUpToQueueOrder net1 net2 /\
     Network.firedThisTick_ net1 = Network.firedThisTick_ net2 /\
     Network.firedLastTick_ net1 = Network.firedLastTick_ net2 /\
     Network.neurons_ net1 = Network.neurons_ net2 /\
     Network.synapses_ net1 = Network.synapses_ net2 /\
     Network.dynamicSynapses_ net1 = Network.dynamicSynapses_ net2 /\
     Network.chemicals_ net1 = Network.chemicals_ net2 /\
     Network.currentTick_ net1 = Network.currentTick_ net2)
  /\
  (forall build1 build2 net,
     openmpThreads build1 = openmpThreads build2 ->
     Network.razorEnabled_ net = false \/
     (length (Network.candidatesOf build1 (beforeFiring net))
      <= Network.maxSpikesPerTick_ net)%nat ->
     Network.step build1 net = Network.step build2 net)
  /\
  (forall build net v id,
     openmpThreads build = None \/
     Z.of_nat (length (Network.neurons_ net)) < 100000 ->
     (v, id) ∈ Network.candidatesOf build net <->
     exists n,
       Network.neurons_ net !! id = Some n /\
       Neuron.isRefractory (Network.currentTick_ net) n = false /\
       v = Neuron.currentCharge n /\
       Network.effectiveThreshold (Network.thresholdReduction net)
         (Network.noiseAmplitude net)
         (Nat.iter (drawsUpTo net id) Network.lcg
            (uint32 (Network.currentTick_ net * 1103515245 + 12345))) n
       <= Neuron.currentCharge n)
  /\
  (forall build threads net v id,
     openmpThreads build = Some threads -> (0 < threads)%nat ->
     100000 <= Z.of_nat (length (Network.neurons_ net)) ->
     (v, id) ∈ Network.candidatesOf build net <->
     exists n,
       Network.neurons_ net !! id = Some n /\
       Neuron.isRefractory (Network.currentTick_ net) n = false /\
       v = Neuron.currentCharge n /\
       Network.effectiveThreshold (Network.thresholdReduction net)
         (Network.noiseAmplitude net)
         (Network.lcg
            (Z.lxor (uint32 (Network.currentTick_ net * 1103515245 + 12345))
               (uint32 (Z.of_nat id)))) n
       <= Neuron.currentCharge n)
  /\
  (forall amplitude seed net,
     (Brain.injectNoise amplitude (seed, net)).1
       = Nat.iter (length (Network.neurons_ net)) Network.lcg seed /\
     forall i n, Network.neurons_ net !! i = Some n ->
       Network.neurons_ (Brain.injectNoise amplitude (seed, net)).2 !! i
       = Some (Neuron.addCharge
                 (Brain.noiseDraw (Nat.iter (S i) Network.lcg seed) amplitude)
                 n)).
Proof.
  split_and!.
  - intros build1 build2 net1 net2 Hthreads Htwins.
    pose proof (twins_stay_together _ _ _ _ Hthreads Htwins) as Heq.
    split; [exact Heq|]. destruct Heq as [Hrest _].
    unfold withoutQueue in Hrest. destruct net1, net2.
    simpl in Hrest. injection Hrest as -> -> -> -> -> -> -> -> -> -> -> -> ->.
    done.
  - intros build1 build2 net Hthreads Hidle.
    pose proof (candidatesOf_threads build1 build2 (beforeFiring net) Hthreads)
      as Hcands.
    apply step_build_independent; [done|].
    destruct (beforeFiring_razor net) as [Hr HK].
    rewrite !razor_idle; [done|rewrite Hr, HK, <- ?Hcands; done..].
  - intros build net v id Hseq.
    rewrite candidatesOf_sequential by done. apply sequentialCandidates_spec.
  - intros build threads net v id Hthreads HT Hlarge.
    unfold Network.candidatesOf. rewrite Hthreads.
    destruct (Z.leb_spec 100000 (Z.of_nat (length (Network.neurons_ net))));
      [|lia].
    by apply parallelCandidates_spec.
  - intros amplitude seed net. unfold Brain.injectNoise. simpl.
    destruct (injectNoiseLoop_spec amplitude (length (Network.neurons_ net))
                0 seed net) as [Hseed Hneurons]; [done|].
    split; [done|]. intros i n Hi. rewrite (Hneurons i n Hi).
    destruct (decide (0 <= i)%nat); [|lia]. by rewrite Nat.sub_0_r.
Qed.

Lemma twin_engines_and_noise_generators_witness :
  twins lowIdBuild highIdBuild (Network.step lowIdBuild fourDistinct)
    (Network.step highIdBuild fourDistinct) /\
  Network.firedThisTick_ (Network.step lowIdBuild fourDistinct)
  = Network.firedThisTick_ (Network.step highIdBuild fourDistinct).
Proof.
  assert (twins lowIdBuild highIdBuild fourDistinct fourDistinct) as Hbuilt.
  { unfold fourDistinct, addNeuron'. cbn [Nat.iter].
    apply twins_setMaxSpikesPerTick.
    do 4 apply twins_injectCharge. do 4 apply twins_addNeuron.
    apply twins_make. }
  assert (selectionDecided lowIdBuild fourDistinct) as Hdecided.
  { right. right. exists 25. vm_compute. reflexivity. }
  assert (twins lowIdBuild highIdBuild (Network.step lowIdBuild fourDistinct)
            (Network.step highIdBuild fourDistinct)) as Htwins.
  { apply twins_step; [exact Hbuilt|exact Hdecided]. }
  split; [exact Htwins|].
  exact (proj1 (proj2 (proj1 twin_engines_and_noise_generators
                         lowIdBuild highIdBuild _ _ eq_refl Htwins))).
Defined.
